(** * BrightChain block engine: a shallow embedding of the TypeScript sources

    Embedded sources:
    - [TestEncryptedBlock.from] and [BlockHandleTuple]
        (src/brightchain-lib/src/lib/interfaces/basicDataObjectDto.ts)
    - [DiskBlockAsyncStore]     (src/unnamed/part_003)
    - [StaticHelpersSealing]    (src/unnamed/part_002)

    Conventions.  A JavaScript [Buffer] is a list of bytes.  A function that
    may throw returns a [Result]; a function that touches the disk, the random
    source or the clock takes the state and hands the new one back.  Classes
    and helpers whose source is not part of the embedded files are either
    parameters of the section [BrightChain] or are written out from the
    specification; the latter are marked "Modelled from the spec". *)

From Stdlib Require Import ZArith NArith List Bool Lia Ascii String.
From Stdlib.Strings Require Import Byte.
From stdpp Require Import gmap strings list fin_maps.

Local Open Scope nat_scope.
Local Open Scope list_scope.

(* ===================================================================== *)
(** ** Bytes and buffers *)
(* ===================================================================== *)

Abbreviation byte := Corelib.Init.Byte.byte.

Abbreviation Buffer := (list byte) (only parsing).
Abbreviation ChecksumBuffer := (list byte) (only parsing).

#[global] Instance byte_eq_decision : EqDecision byte := Byte.byte_eq_dec.

(** [Buffer.prototype.equals]: same length and same bytes. *)
Definition Buffer_equals (a b : Buffer) : bool := bool_decide (a = b).

(** The JavaScript [^] on two elements of a [Uint8Array]: bit by bit. *)
Definition bits_xor
    (x y : bool * (bool * (bool * (bool * (bool * (bool * (bool * bool)))))))
  : bool * (bool * (bool * (bool * (bool * (bool * (bool * bool)))))) :=
  let '(a0, (a1, (a2, (a3, (a4, (a5, (a6, a7))))))) := x in
  let '(b0, (b1, (b2, (b3, (b4, (b5, (b6, b7))))))) := y in
  (xorb a0 b0, (xorb a1 b1, (xorb a2 b2, (xorb a3 b3,
  (xorb a4 b4, (xorb a5 b5, (xorb a6 b6, xorb a7 b7))))))).

Definition byte_xor (a b : byte) : byte :=
  Byte.of_bits (bits_xor (Byte.to_bits a) (Byte.to_bits b)).

(** [source.copy(target, targetStart, sourceStart, sourceEnd)]: the bytes
    [source[sourceStart .. sourceEnd)] overwrite [target] from [targetStart];
    what does not fit in [target] is not copied. *)
Definition Buffer_copy (source target : Buffer)
    (targetStart sourceStart sourceEnd : nat) : Buffer :=
  let chunk := take (length target - targetStart)
                 (drop sourceStart (take sourceEnd source)) in
  take targetStart target ++ chunk ++ drop (targetStart + length chunk) target.

(** *** Hexadecimal text, as [buf.toString('hex')] and [Buffer.from(s, 'hex')] *)

Definition hexDigit (n : N) : ascii :=
  match n with
  | 0%N => "0" | 1%N => "1" | 2%N => "2" | 3%N => "3"
  | 4%N => "4" | 5%N => "5" | 6%N => "6" | 7%N => "7"
  | 8%N => "8" | 9%N => "9" | 10%N => "a" | 11%N => "b"
  | 12%N => "c" | 13%N => "d" | 14%N => "e" | _ => "f"
  end%char.

Definition hexValue (c : ascii) : option N :=
  let n := N_of_ascii c in
  if ((48 <=? n) && (n <=? 57))%N then Some (n - 48)%N
  else if ((97 <=? n) && (n <=? 102))%N then Some (n - 87)%N
  else if ((65 <=? n) && (n <=? 70))%N then Some (n - 55)%N
  else None.

Definition byteOfN (n : N) : byte :=
  match Byte.of_N n with Some b => b | None => x00 end.

Definition byteToHex (b : byte) : string :=
  let n := Byte.to_N b in
  String (hexDigit (n / 16)) (String (hexDigit (n mod 16)) EmptyString).

(** [buf.toString('hex')]: two lower-case digits per byte. *)
Fixpoint toHex (b : Buffer) : string :=
  match b with
  | [] => EmptyString
  | x :: rest => byteToHex x +:+ toHex rest
  end.

(** [Buffer.from(s, 'hex')]: decodes pairs of digits and stops at the first
    pair that is not hexadecimal; a trailing single digit is dropped. *)
Fixpoint fromHex (s : string) : Buffer :=
  match s with
  | String c1 (String c2 rest) =>
      match hexValue c1, hexValue c2 with
      | Some h, Some l => byteOfN (16 * h + l) :: fromHex rest
      | _, _ => []
      end
  | _ => []
  end.


(* ===================================================================== *)
(** ** Enumerations and errors *)
(* ===================================================================== *)

(** Modelled from the spec: the enumerations [BlockType] and [BlockDataType]
    (enumerations/blockType.ts, enumerations/blockDataType.ts) are not among
    the embedded files; the tags are the ones the specification lists. *)
Module BlockType.
Inductive t :=
  RawData | EncryptedOwnedDataBlock | ConstituentBlockList
| ExtendedConstituentBlockListBlock | Handle | Random | Ephemeral.
End BlockType.

Module BlockDataType.
Inductive t := RawData | EncryptedData | EphemeralStructuredData.
End BlockDataType.

Module BlockValidationErrorType.
Inductive t := DataLengthTooShort | DataLengthExceedsCapacity | FutureCreationDate.
End BlockValidationErrorType.

Module StoreErrorType.
Inductive t :=
  KeyNotFound | BlockPathAlreadyExists | BlockFileSizeMismatch
| BlockValidationFailed | BlockDirectoryCreationFailed | NoBlocksProvided
| BlockSizeMismatch.
End StoreErrorType.

Module HandleTupleErrorType.
Inductive t := InvalidTupleSize | BlockSizesMustMatch | BlockSizeMismatch | NoBlocksToXor.
End HandleTupleErrorType.

Module SealingErrorType.
Inductive t :=
  InvalidBitRange | NotEnoughMembersToUnlock | TooManyMembersToUnlock
| InvalidMemberArray | MissingPrivateKeys | EncryptedShareNotFound
| MemberNotFound | FailedToSeal.
End SealingErrorType.

(** What a [throw] carries.  [ChecksumMismatchError] is built by
    [new ChecksumMismatchError(a, b)]; the class is not among the embedded
    files, and the test "should detect data corruption" reads the first
    constructor argument back as [error.checksum] and the second as
    [error.expected], which is what the two fields below record.
    [WrappedError] is a plain [Error] whose message quotes another error;
    [SystemError] is an error of the runtime (node's [fs], a [TypeError]). *)
Inductive Error :=
| BlockValidationError (reason : BlockValidationErrorType.t)
| ChecksumMismatchError (checksum expected : ChecksumBuffer)
| StoreError (reason : StoreErrorType.t)
| HandleTupleError (reason : HandleTupleErrorType.t)
| SealingError (reason : SealingErrorType.t)
| WrappedError (context : string) (cause : Error)
| SystemError (code : string).

(** The fields [error.checksum] and [error.expected] of a thrown error. *)
Definition error_checksum (e : Error) : option ChecksumBuffer :=
  match e with ChecksumMismatchError checksum _ => Some checksum | _ => None end.
Definition error_expected (e : Error) : option ChecksumBuffer :=
  match e with ChecksumMismatchError _ expected => Some expected | _ => None end.

Inductive Result (A : Type) : Type :=
| Ok (value : A)
| Throw (e : Error).
Arguments Ok {A} value.
Arguments Throw {A} e.

#[global] Instance Result_ret : MRet Result := fun A x => Ok x.
#[global] Instance Result_bind : MBind Result := fun A B f m =>
  match m with
  | Ok x => f x
  | Throw e => Throw e
  end.

Definition isOk {A} (r : Result A) : bool :=
  match r with Ok _ => true | Throw _ => false end.

(** [try { body } catch (error) { throw handler(error) }]. *)
Definition tryCatch {A} (body : Result A) (handler : Error -> Error) : Result A :=
  match body with
  | Ok x => Ok x
  | Throw e => Throw (handler e)
  end.

(** A JavaScript [Date]: milliseconds since the epoch, or the invalid date
    that [new Date(undefined)] builds. *)
Inductive JsDate :=
| DateMs (ms : Z)
| InvalidDate.

(** [new Date(value)] for a value that is a date or [undefined]. *)
Definition Date_of (value : option JsDate) : JsDate :=
  match value with
  | Some d => d
  | None => InvalidDate
  end.

(** [a > b] on dates: the comparison of the time values; with an invalid
    date (NaN) every comparison is false. *)
Definition Date_gt (a b : JsDate) : bool :=
  match a, b with
  | DateMs x, DateMs y => (y <? x)%Z
  | _, _ => false
  end.

(** The cryptographically random source ([crypto.randomBytes]): an endless
    tape of bytes and the position of the next unread one. *)
Record RandomSource := { tape : nat -> byte; cursor : nat }.

Definition randomBytes (size : nat) (r : RandomSource) : Buffer * RandomSource :=
  (tape r <$> seq (cursor r) size,
   {| tape := tape r; cursor := cursor r + size |}).

(* ===================================================================== *)
(** ** Encrypted blocks: [TestEncryptedBlock.from] *)
(* ===================================================================== *)

(** Modelled from the spec: [StaticHelpersECIES.eciesOverheadLength]
    (staticHelpers.ECIES.ts is not among the embedded files); the
    specification fixes it: "eciesOverheadLength = 97". *)
Definition eciesOverheadLength : nat := 97.

(** [BlockSize] is a numeric enumeration; the code only uses its members
    [as number], so a block size is the number of bytes. *)
Abbreviation BlockSize := nat (only parsing).

Abbreviation Creator := string (only parsing).

Record EphemeralBlockMetadata := {
  meta_size : BlockSize;
  meta_type : BlockType.t;
  meta_dataType : BlockDataType.t;
  meta_lengthWithoutPadding : Z;
  meta_encrypted : bool;
  meta_creator : option Creator;
  meta_dateCreated : JsDate;
}.

Module EncryptedBlock.
Record t := {
  blockType : BlockType.t;
  blockDataType : BlockDataType.t;
  data : Buffer;
  idChecksum : ChecksumBuffer;
  metadata : EphemeralBlockMetadata;
  canRead : bool;
  canPersist : bool;
}.

(** [block.blockSize] reads the size out of the metadata. *)
Definition blockSize (b : t) : BlockSize := meta_size (metadata b).
End EncryptedBlock.

(** Modelled from the spec: the constructors of [EphemeralBlockMetadata],
    [EncryptedBlockMetadata] and [EncryptedBlock] are not among the embedded
    files.  They store their arguments; the one rejection the specification
    and the test "should reject future dates" attach to construction is
    "dateCreated <= now, else FutureCreationDate". *)
Definition new_EncryptedBlock (now : Z)
    (type : BlockType.t) (dataType : BlockDataType.t)
    (finalData : Buffer) (finalChecksum : ChecksumBuffer)
    (meta : EphemeralBlockMetadata) (canRead canPersist : bool)
  : Result EncryptedBlock.t :=
  if Date_gt (meta_dateCreated meta) (DateMs now)
  then Throw (BlockValidationError BlockValidationErrorType.FutureCreationDate)
  else Ok {| EncryptedBlock.blockType := type;
             EncryptedBlock.blockDataType := dataType;
             EncryptedBlock.data := finalData;
             EncryptedBlock.idChecksum := finalChecksum;
             EncryptedBlock.metadata := meta;
             EncryptedBlock.canRead := canRead;
             EncryptedBlock.canPersist := canPersist |}.

(* ===================================================================== *)
(** ** The file system, as node's [fs] shows it to the store *)
(* ===================================================================== *)

(** A path is the list of its components, as [path.join] puts them together. *)
Abbreviation Path := (list string) (only parsing).

Inductive Inode :=
| File (contents : Buffer) (birthtime : Z)
| Directory (birthtime : Z).

(** The disk: what is found at each path.  The empty path is the root, which
    is always a directory. *)
Abbreviation Disk := (gmap Path Inode) (only parsing).

Definition existsSync (p : Path) (d : Disk) : bool :=
  bool_decide (is_Some (d !! p)).

Definition readFileSync (p : Path) (d : Disk) : Result Buffer :=
  match d !! p with
  | Some (File contents _) => Ok contents
  | Some (Directory _) => Throw (SystemError "EISDIR")
  | None => Throw (SystemError "ENOENT")
  end.

(** [statSync(p).birthtime]. *)
Definition statSync_birthtime (p : Path) (d : Disk) : Result JsDate :=
  match d !! p with
  | Some (File _ birthtime) => Ok (DateMs birthtime)
  | Some (Directory birthtime) => Ok (DateMs birthtime)
  | None => Throw (SystemError "ENOENT")
  end.

Definition dirname (p : Path) : Path := take (length p - 1) p.

Definition isDirectory (p : Path) (d : Disk) : bool :=
  match p with
  | [] => true
  | _ => match d !! p with Some (Directory _) => true | _ => false end
  end.

(** [writeFileSync(p, data)]: replaces the contents of a file, or creates it
    (born at [now]) inside an existing directory.  The errors are those that
    the entries of the disk call for; a write that fails for another reason
    (no permission, no space), and what it leaves on the disk, is outside
    this model. *)
Definition writeFileSync (now : Z) (p : Path) (contents : Buffer) (d : Disk)
  : Result unit * Disk :=
  match d !! p with
  | Some (Directory _) => (Throw (SystemError "EISDIR"), d)
  | Some (File _ birthtime) => (Ok (), <[p := File contents birthtime]> d)
  | None =>
      if isDirectory (dirname p) d
      then (Ok (), <[p := File contents now]> d)
      else (Throw (SystemError "ENOENT"), d)
  end.

(** [mkdirSync(parent/rest, { recursive: true })]: creates the missing
    directories from the top down; an existing directory is left alone, a
    file in the way is an error.  As for [writeFileSync], failures that do
    not come from the entries of the disk are outside this model. *)
Fixpoint mkdirSync_recursive (now : Z) (parent rest : Path) (d : Disk)
  : Result unit * Disk :=
  match rest with
  | [] => (Ok (), d)
  | name :: rest' =>
      let p := parent ++ [name] in
      match d !! p with
      | Some (File _ _) => (Throw (SystemError "EEXIST"), d)
      | Some (Directory _) => mkdirSync_recursive now p rest' d
      | None => mkdirSync_recursive now p rest' (<[p := Directory now]> d)
      end
  end.

(* ===================================================================== *)
(** ** Raw blocks, handles and metadata *)
(* ===================================================================== *)

(** Modelled from the spec: the class [RawDataBlock] (blocks/rawData.ts) is
    not among the embedded files.  A raw block is the record of the eight
    constructor arguments the embedded code passes to [new RawDataBlock],
    in that order ("Block (Base) attributes"); the constructor stores them,
    and [block.blockSize], [block.data], [block.idChecksum] read them back. *)
Module RawDataBlock.
Record t := new {
  blockSize : BlockSize;
  data : Buffer;
  dateCreated : JsDate;
  idChecksum : ChecksumBuffer;
  blockType : BlockType.t;
  blockDataType : BlockDataType.t;
  canRead : bool;
  canPersist : bool;
}.
End RawDataBlock.

(** The four arguments [DiskBlockAsyncStore.get] passes to [new BlockMetadata]. *)
Module BlockMetadata.
Record t := new {
  size : BlockSize;
  type : BlockType.t;
  dataType : BlockDataType.t;
  lengthWithoutPadding : nat;
}.
End BlockMetadata.

(** [IBlockMetadata], as far as the embedded code reads it: the metadata of
    the destination of an XOR.  [dateCreated] is [None] when the metadata
    gives no date ([undefined], falsy). *)
Module IBlockMetadata.
Record t := {
  dateCreated : option JsDate;
  dataType : BlockDataType.t;
}.
End IBlockMetadata.

(** Modelled from the spec: the class [BlockHandle] (blocks/handle.ts) is not
    among the embedded files.  A handle records the six constructor arguments
    of [DiskBlockAsyncStore.get] and the path set by [setPath]; it "owns no
    data", its [data] getter "synchronously reads the file" and [fullData]
    "yields the padded blockSize bytes" of that file. *)
Module BlockHandle.
Record t := new {
  type : BlockType.t;
  dataType : BlockDataType.t;
  idChecksum : ChecksumBuffer;
  metadata : BlockMetadata.t;
  canRead : bool;
  canPersist : bool;
  path : option Path;
}.

Definition blockSize (h : t) : BlockSize := BlockMetadata.size (metadata h).

Definition setPath (p : Path) (h : t) : t :=
  {| type := type h; dataType := dataType h; idChecksum := idChecksum h;
     metadata := metadata h; canRead := canRead h; canPersist := canPersist h;
     path := Some p |}.

Definition data (h : t) (d : Disk) : Result Buffer :=
  match path h with
  | Some p => readFileSync p d
  | None => Throw (SystemError "ENOENT")
  end.

Definition fullData (h : t) (d : Disk) : Result Buffer := data h d.
End BlockHandle.

(** [Promise.all(items.map(f))] for an [f] without suspension points, and
    [items.map(f)] for an [f] that may throw: the results in order, or the
    first error. *)
Fixpoint mapResult {A B} (f : A -> Result B) (items : list A) : Result (list B) :=
  match items with
  | [] => Ok []
  | x :: rest =>
      match f x with
      | Throw e => Throw e
      | Ok y =>
          match mapResult f rest with
          | Throw e => Throw e
          | Ok ys => Ok (y :: ys)
          end
      end
  end.

(* ===================================================================== *)
(** ** Tuples of handles *)
(* ===================================================================== *)

(** Modelled from the spec: the constant [TUPLE_SIZE] (constants.ts) is not
    among the embedded files; the specification gives "fixed-arity
    (TUPLE_SIZE, typically 3)". *)
Definition TUPLE_SIZE : nat := 3.

(** JavaScript arrays are objects: a variable holds a reference, and every
    holder of the reference sees a write.  The heap maps the reference of
    an array of handles to its current elements. *)
Abbreviation ArrayRef := nat (only parsing).
Definition Heap : Type := ArrayRef -> list BlockHandle.t.

(** [array.length = 0], [array.push(h)] and the like, done by whoever holds
    the reference: the array at [ref] now has the elements [elements]. *)
Definition Heap_store (ref : ArrayRef) (elements : list BlockHandle.t) (heap : Heap) : Heap :=
  fun r => if decide (r = ref) then elements else heap r.

(** A tuple holds the reference it was given ([this._handles = handles]). *)
Record BlockHandleTuple := { _handles : ArrayRef }.

(** The [BlockHandleTuple] constructor.  [handles[0].blockSize] on an empty
    array is a [TypeError]. *)
Definition new_BlockHandleTuple (handles : ArrayRef) (heap : Heap)
  : Result BlockHandleTuple :=
  let elements := heap handles in
  if negb (length elements =? TUPLE_SIZE)
  then Throw (HandleTupleError HandleTupleErrorType.InvalidTupleSize)
  else
    (* Verify all blocks have the same size *)
    match elements with
    | [] => Throw (SystemError "TypeError")
    | first :: _ =>
        let blockSize := BlockHandle.blockSize first in
        if negb (forallb (fun h => BlockHandle.blockSize h =? blockSize) elements)
        then Throw (HandleTupleError HandleTupleErrorType.BlockSizeMismatch)
        else Ok {| _handles := handles |}
    end.

(** The getter [handles]: the array itself, not a copy. *)
Definition handles (t : BlockHandleTuple) (heap : Heap) : list BlockHandle.t :=
  heap (_handles t).

(** Lines 497-501 of [BlockHandleTuple.xor]: a fresh buffer of
    [result.length] bytes, byte [j] being [result[j] ^ current[j]]; the
    caller has checked that the lengths agree. *)
Definition xorBuffers (result current : Buffer) : Buffer :=
  zip_with byte_xor result current.

(** The loop [for (let i = 1; i < blockData.length; i++)] over the
    remaining operands. *)
Fixpoint xorLoop (result : Buffer) (rest : list Buffer) : Result Buffer :=
  match rest with
  | [] => Ok result
  | current :: rest' =>
      if negb (length current =? length result)
      then Throw (HandleTupleError HandleTupleErrorType.BlockSizesMustMatch)
      else xorLoop (xorBuffers result current) rest'
  end.

(** "XOR all blocks together": [result = blockData[0]], then the loop.  The
    caller has checked that there is a first operand. *)
Definition xorBlockData (blockData : list Buffer) : Result Buffer :=
  match blockData with
  | [] => Throw (SystemError "TypeError")
  | first :: rest => xorLoop first rest
  end.

(** "Load all block data" in [BlockHandleTuple.xor]: the data of every
    handle, a failed read being rethrown as a plain [Error]. *)
Definition loadBlockData (handles : list BlockHandle.t) (d : Disk) : Result (list Buffer) :=
  mapResult
    (fun handle =>
       tryCatch (BlockHandle.data handle d) (WrappedError "Failed to load block"))
    handles.

(* ===================================================================== *)
(** ** Members and quorum records *)
(* ===================================================================== *)

(** [member.id.asShortHexGuid]: identifiers are compared by this value. *)
Abbreviation ShortHexGuid := string (only parsing).

(** [GuidV4], the class of the identifiers of the members.  An identifier
    is an object: [address] tells one object from another, and
    [asShortHexGuid] is the text it holds.  One address holds one object,
    so two identifiers are the same object ([a == b]) exactly when the two
    records are equal. *)
Module GuidV4.
Record t := {
  address : nat;
  asShortHexGuid : ShortHexGuid;
}.
End GuidV4.

#[global] Instance GuidV4_eq_dec : EqDecision GuidV4.t.
Proof. solve_decision. Defined.

(** [BrightChainMember], as far as the sealing code reads it.  The private
    key is [None] when it is not loaded. *)
Module BrightChainMember.
Record t := {
  id : GuidV4.t;
  publicKey : Buffer;
  privateKey : option Buffer;
}.
Definition privateKeyLoaded (m : t) : bool := bool_decide (is_Some (privateKey m)).
(** [member.id.asShortHexGuid]. *)
Definition asShortHexGuid (m : t) : ShortHexGuid := GuidV4.asShortHexGuid (id m).
End BrightChainMember.

(** Modelled from the spec: the class [QuorumDataRecord] (quorumDataRecord.ts)
    is not among the embedded files; the record holds the five constructor
    arguments of [quorumSeal], the specification's
    "{agentId, memberIds[], sharesRequired, encryptedData,
    encryptedSharesByMemberId: map<MemberId, Buffer>}". *)
Module QuorumDataRecord.
Record t := new {
  agent : BrightChainMember.t;
  memberIds : list ShortHexGuid;
  sharesRequired : Z;
  encryptedData : Buffer;
  encryptedSharesByMemberId : gmap ShortHexGuid Buffer;
}.
End QuorumDataRecord.

(** The store: [DiskBlockStore]'s two fields. *)
Record DiskBlockAsyncStore := {
  _storePath : Path;
  _blockSize : BlockSize;
}.

(* ===================================================================== *)
(** ** Directory listings, [Math.random], and the identifiers of a tuple *)
(* ===================================================================== *)

(** The name under which the entry at [q] is listed in the directory [p]:
    [q] is [p] followed by one more component. *)
Definition childName (p q : Path) : option string :=
  match drop (length p) q with
  | [name] => if decide (take (length p) q = p) then Some name else None
  | _ => None
  end.

(** [readdirSync(p)]: the names of the entries of the directory [p].  Node
    promises no order; the order here is the one of the map. *)
Definition readdirSync (p : Path) (d : Disk) : Result (list string) :=
  if isDirectory p d
  then Ok (omap (childName p) (map_to_list d).*1)
  else match d !! p with
       | Some _ => Throw (SystemError "ENOTDIR")
       | None => Throw (SystemError "ENOENT")
       end.
Arguments readdirSync : simpl never.

(** The disk is a tree: every entry lies in a directory. *)
Definition treeShaped (d : Disk) : Prop :=
  forall (p : Path) (entry : Inode),
    d !! p = Some entry -> isDirectory (dirname p) d = true.

(** [s.endsWith(suffix)]. *)
Definition endsWith (s suffix : string) : bool :=
  let n := String.length s in
  let m := String.length suffix in
  if n <? m then false
  else String.eqb (String.substring (n - m) m s) suffix.

(** [Math.random]: a sequence of draws and the number of draws made so far.
    [Math.floor(Math.random() * n)] is an index below [n]; here it is the
    next draw modulo [n]. *)
Record MathRandom := { draws : nat -> nat; drawn : nat }.

Definition randomIndex (n : nat) (r : MathRandom) : nat * MathRandom :=
  (match n with 0 => 0 | S _ => draws r (drawn r) mod n end,
   {| draws := draws r; drawn := S (drawn r) |}).
Arguments randomIndex : simpl never.

(** The getter [blockIds]: the identifier of every handle, in order. *)
Definition blockIds (t : BlockHandleTuple) (heap : Heap) : list ChecksumBuffer :=
  map BlockHandle.idChecksum (handles t heap).

(** The getter [blockIdsBuffer]: [Buffer.concat(this.blockIds)]. *)
Definition blockIdsBuffer (t : BlockHandleTuple) (heap : Heap) : Buffer :=
  concat (blockIds t heap).

(* ===================================================================== *)
(** ** Sample collaborators and inputs *)
(* ===================================================================== *)

(** The collaborators are parameters of the section below.  To run the model
    on concrete inputs they are instantiated with the simple functions of
    this part; none of them is meant to be secure. *)

(** A one-byte checksum: the XOR of all bytes. *)
Definition sampleChecksum (b : Buffer) : ChecksumBuffer := [foldr byte_xor x00 b].

Definition sampleSizeString (size : BlockSize) : string := "sample".

(** Modelled from the spec: [RawDataBlock.validate] is not among the embedded
    files; "recompute checksum over data; match stored; recheck date
    invariant".  It is the sample instance of the parameter [validate]. *)
Definition validateBySpec (calculateChecksum : Buffer -> ChecksumBuffer)
    (now : Z) (block : RawDataBlock.t) : Result unit :=
  let computed := calculateChecksum (RawDataBlock.data block) in
  if negb (Buffer_equals computed (RawDataBlock.idChecksum block))
  then Throw (ChecksumMismatchError computed (RawDataBlock.idChecksum block))
  else if Date_gt (RawDataBlock.dateCreated block) (DateMs now)
  then Throw (BlockValidationError BlockValidationErrorType.FutureCreationDate)
  else Ok ().

(** A random source whose tape counts 0, 1, 2, ... modulo 256. *)
Definition sampleRandom : RandomSource :=
  {| tape := fun i => byteOfN (N.of_nat i mod 256); cursor := 0 |}.

(** A store of four-byte blocks. *)
Definition sampleStore : DiskBlockAsyncStore :=
  {| _storePath := ["store"%string]; _blockSize := 4 |}.

Definition sampleBlock (contents : Buffer) (created : Z) : RawDataBlock.t :=
  RawDataBlock.new 4 contents (DateMs created) (sampleChecksum contents)
    BlockType.RawData BlockDataType.RawData true true.

(** A two-byte checksum, the XOR of all bytes and then the first byte, and
    a block under it. *)
Definition sampleChecksum2 (b : Buffer) : ChecksumBuffer :=
  [foldr byte_xor x00 b; default x00 (head b)].

Definition sampleBlock2 (contents : Buffer) (created : Z) : RawDataBlock.t :=
  RawDataBlock.new 4 contents (DateMs created) (sampleChecksum2 contents)
    BlockType.RawData BlockDataType.RawData true true.

(** [Math.random] drawing 0, 1, 2, ... *)
Definition sampleMathRandom : MathRandom := {| draws := fun i => i; drawn := 0 |}.

(** A disk on which the sample store has its directories and a metadata
    sidecar, but no block file. *)
Definition sampleSidecarOnly : Disk :=
  list_to_map
    [ (["store"%string], Directory 0);
      (["store"%string; "sample"%string], Directory 0);
      (["store"%string; "sample"%string; "ab"%string], Directory 0);
      (["store"%string; "sample"%string; "ab"%string; "cd"%string], Directory 0);
      (["store"%string; "sample"%string; "ab"%string; "cd"%string;
        "abcd.m.json"%string], File [x7b; x7d] 0) ].

Definition sampleHandle (size : BlockSize) (p : option Path) : BlockHandle.t :=
  BlockHandle.new BlockType.Handle BlockDataType.RawData [x00]
    (BlockMetadata.new size BlockType.RawData BlockDataType.RawData size)
    true true p.

(** The identity codec and the identity envelope; a key pair is a pair of
    equal keys; a secret is shared by handing out copies of it. *)
Definition plainSymmetricEncryptJson (v : Buffer) (rng : RandomSource)
  : (Buffer * Buffer) * RandomSource := (([x2a], v), rng).

Definition plainSymmetricDecryptJson (encryptedData key : Buffer) : Result Buffer :=
  Ok encryptedData.

Definition plainEncrypt (publicKey message : Buffer) (rng : RandomSource)
  : Result Buffer * RandomSource := (Ok message, rng).

Definition plainDecryptWithHeader (privateKey encrypted : Buffer) : Result Buffer :=
  Ok encrypted.


Definition copyShare (bits : Z) (secret : string) (n : nat) (t : Z) (rng : RandomSource)
  : Result (list string) * RandomSource := (Ok (replicate n secret), rng).

Definition copyCombine (bits : Z) (shares : list string) : Result string :=
  match shares with
  | share :: _ => Ok share
  | [] => Throw (SystemError "no shares")
  end.

Definition sampleMember (address : nat) (id : ShortHexGuid) (key : Buffer)
    (loaded : bool) : BrightChainMember.t :=
  {| BrightChainMember.id :=
       {| GuidV4.address := address; GuidV4.asShortHexGuid := id |};
     BrightChainMember.publicKey := key;
     BrightChainMember.privateKey := if loaded then Some key else None |}.

Section BrightChain.

(** [StaticHelpersChecksum.calculateChecksum]: the content hash, a
    collaborator of the block engine. *)
Variable calculateChecksum : Buffer -> ChecksumBuffer.

(** [TestEncryptedBlock.from].  [now] is the clock read by [new Date()],
    [rng] the state of the random source; the state handed back is the
    source after the call. *)
Definition from (now : Z) (rng : RandomSource)
    (type : BlockType.t) (dataType : BlockDataType.t)
    (blockSize : BlockSize) (data : Buffer)
    (checksum : option ChecksumBuffer)
    (creator : option Creator) (dateCreated : option JsDate)
    (actualDataLength : option Z)
    (canRead canPersist : bool)
  : Result EncryptedBlock.t * RandomSource :=
  (* Validate data length *)
  if length data <? eciesOverheadLength
  then (Throw (BlockValidationError BlockValidationErrorType.DataLengthTooShort), rng)
  (* Total data length must not exceed block size *)
  else if blockSize <? length data
  then (Throw (BlockValidationError BlockValidationErrorType.DataLengthExceedsCapacity), rng)
  else
    let availableCapacity := (Z.of_nat blockSize - Z.of_nat eciesOverheadLength)%Z in
    if match actualDataLength with
       | Some n => (availableCapacity <? n)%Z
       | None => false
       end
    then (Throw (BlockValidationError BlockValidationErrorType.DataLengthExceedsCapacity), rng)
    else
      (* Create final data buffer filled with random data *)
      let '(random, rng') := randomBytes blockSize rng in
      (* Copy data into the final buffer, preserving the full block size *)
      let finalData :=
        Buffer_copy data random 0 0 (Nat.min (length data) blockSize) in
      (* Calculate and validate checksum on the final data *)
      let computedChecksum := calculateChecksum finalData in
      match
        match checksum with
        | Some supplied =>
            if negb (Buffer_equals computedChecksum supplied)
            then Some supplied else None
        | None => None
        end
      with
      | Some supplied =>
          (Throw (ChecksumMismatchError computedChecksum supplied), rng')
      | None =>
          let finalChecksum := default computedChecksum checksum in
          let meta :=
            {| meta_size := blockSize; meta_type := type;
               meta_dataType := BlockDataType.EncryptedData;
               meta_lengthWithoutPadding :=
                 match actualDataLength with
                 | Some n => n
                 | None => (Z.of_nat (length data) - Z.of_nat eciesOverheadLength)%Z
                 end;
               meta_encrypted := true; meta_creator := creator;
               meta_dateCreated := default (DateMs now) dateCreated |} in
          (new_EncryptedBlock now type dataType finalData finalChecksum meta
             canRead canPersist, rng')
      end.

(** The three length tests of [from], as one predicate on its inputs. *)
Definition lengthsAccepted (blockSize : BlockSize) (data : Buffer)
    (actualDataLength : option Z) : Prop :=
  eciesOverheadLength <= length data /\
  length data <= blockSize /\
  match actualDataLength with
  | Some n => (n <= Z.of_nat blockSize - Z.of_nat eciesOverheadLength)%Z
  | None => True
  end.

(** The buffer [from] ends up with: the data, then the tail of the random
    buffer. *)
Definition paddedBuffer (rng : RandomSource) (blockSize : BlockSize) (data : Buffer)
  : Buffer :=
  data ++ drop (length data) (fst (randomBytes blockSize rng)).

(* ------------------------------------------------------------------- *)
(** *** [DiskBlockAsyncStore] *)
(* ------------------------------------------------------------------- *)

(** [sizeToSizeString] (enumerations/blockSizes.ts): the directory name of
    a block size. *)
Variable sizeToSizeString : BlockSize -> string.

(** [block.validate()] of a raw block at time [now]: [Ok] when it returns,
    [Throw] when it throws. *)
Variable validate : Z -> RawDataBlock.t -> Result unit.

(** Modelled from the spec: [blockDir], [blockPath] and [ensureBlockPath]
    belong to the base class [DiskBlockStore], which is not among the
    embedded files.  "Layout: <root>/<sizeString>/<hex[0:2]>/<hex[2:4]>/<fullHex>";
    [ensureBlockPath] "creates shard directories", idempotently, and the
    store's error for a failed creation is [BlockDirectoryCreationFailed]. *)
Definition blockDir (store : DiskBlockAsyncStore) (key : ChecksumBuffer) : Path :=
  let hex := toHex key in
  _storePath store ++
    [sizeToSizeString (_blockSize store); String.substring 0 2 hex; String.substring 2 2 hex].

Definition blockPath (store : DiskBlockAsyncStore) (key : ChecksumBuffer) : Path :=
  blockDir store key ++ [toHex key].

Definition ensureBlockPath (now : Z) (store : DiskBlockAsyncStore)
    (key : ChecksumBuffer) (d : Disk) : Result unit * Disk :=
  let '(r, d') := mkdirSync_recursive now [] (blockDir store key) d in
  (tryCatch r (fun _ => StoreError StoreErrorType.BlockDirectoryCreationFailed), d').

(** [has]: check if a block exists. *)
Definition has (store : DiskBlockAsyncStore) (key : ChecksumBuffer) (d : Disk) : bool :=
  let blockPath := blockPath store key in
  existsSync blockPath d.

(** [get]: a handle to a block. *)
Definition get (store : DiskBlockAsyncStore) (key : ChecksumBuffer) : BlockHandle.t :=
  let handle :=
    BlockHandle.new BlockType.Handle BlockDataType.RawData key
      (BlockMetadata.new (_blockSize store) BlockType.RawData
         BlockDataType.RawData (_blockSize store))
      true true None in
  BlockHandle.setPath (blockPath store key) handle.

(** [getData]: a block's data. *)
Definition getData (store : DiskBlockAsyncStore) (key : ChecksumBuffer) (d : Disk)
  : Result RawDataBlock.t :=
  let blockPath := blockPath store key in
  if negb (existsSync blockPath d)
  then Throw (StoreError StoreErrorType.KeyNotFound)
  else
    data ← readFileSync blockPath d;
    if negb (length data =? _blockSize store)
    then Throw (StoreError StoreErrorType.BlockFileSizeMismatch)
    else
      (* Use file creation time as block creation time *)
      dateCreated ← statSync_birthtime blockPath d;
      Ok (RawDataBlock.new (_blockSize store) data dateCreated key
            BlockType.RawData BlockDataType.EphemeralStructuredData true true).

(** [setData]: store a block's data.  The disk handed back is the disk
    after the call, also when the call throws. *)
Definition setData (now : Z) (store : DiskBlockAsyncStore)
    (block : RawDataBlock.t) (d : Disk) : Result unit * Disk :=
  if negb (RawDataBlock.blockSize block =? _blockSize store)
  then (Throw (StoreError StoreErrorType.BlockSizeMismatch), d)
  else
    let blockPath := blockPath store (RawDataBlock.idChecksum block) in
    if existsSync blockPath d
    then (Throw (StoreError StoreErrorType.BlockPathAlreadyExists), d)
    else
      match validate now block with
      | Throw _ => (Throw (StoreError StoreErrorType.BlockValidationFailed), d)
      | Ok _ =>
          (* Ensure block directory exists before writing *)
          match ensureBlockPath now store (RawDataBlock.idChecksum block) d with
          | (Throw e, d') => (Throw e, d')
          | (Ok _, d') =>
              let '(r, d'') := writeFileSync now blockPath (RawDataBlock.data block) d' in
              (tryCatch r
                 (fun _ => StoreError StoreErrorType.BlockDirectoryCreationFailed),
               d'')
          end
      end.

(** What the three tests of [setData] ask of a block and a disk. *)
Definition setDataChecksPass (now : Z) (store : DiskBlockAsyncStore)
    (block : RawDataBlock.t) (d : Disk) : Prop :=
  RawDataBlock.blockSize block = _blockSize store /\
  d !! blockPath store (RawDataBlock.idChecksum block) = None /\
  isOk (validate now block) = true.

(** Modelled from the spec: [XorMultipleTransformStream], [ChecksumTransform]
    and [MemoryWritableStream] are not among the embedded files.  The
    pipeline "emits chunks whose i-th byte is the XOR of the i-th byte of
    each operand chunk, aligned by offset", hashes "the bytes as they pass"
    and collects them in memory; operands of different lengths are "a hard
    error".  [xorPipeline] gives what [writeStream.data] and the
    ['checksum'] event carry when the streams have ended. *)
Definition xorPipeline (operands : list Buffer) : Result (Buffer * ChecksumBuffer) :=
  written ← xorBlockData operands;
  Ok (written, calculateChecksum written).

(** [DiskBlockAsyncStore.xor]: XOR multiple blocks together.  The promise
    resolves with the block ([Ok]) or rejects ([Throw]). *)
Definition DiskBlockAsyncStore_xor (store : DiskBlockAsyncStore)
    (blocks : list BlockHandle.t) (destBlockMetadata : IBlockMetadata.t)
    (d : Disk) : Result RawDataBlock.t :=
  if length blocks =? 0
  then Throw (StoreError StoreErrorType.NoBlocksProvided)
  else
    (* Create read streams from the full block data *)
    readStreams ← mapResult (fun block => BlockHandle.fullData block d) blocks;
    '(written, checksumBuffer) ← xorPipeline readStreams;
    Ok (RawDataBlock.new (_blockSize store) written
          (Date_of (IBlockMetadata.dateCreated destBlockMetadata))
          checksumBuffer BlockType.RawData
          (IBlockMetadata.dataType destBlockMetadata) true true).

(* ------------------------------------------------------------------- *)
(** *** [BlockHandleTuple.xor] *)
(* ------------------------------------------------------------------- *)

(** Lines 470-519 of [BlockHandleTuple.xor]: the block that is built from
    the handles and then handed to the store. *)
Definition BlockHandleTuple_xor_block (now : Z) (t : BlockHandleTuple) (heap : Heap)
    (destBlockMetadata : IBlockMetadata.t) (d : Disk) : Result RawDataBlock.t :=
  let handles := handles t heap in
  if length handles =? 0
  then Throw (HandleTupleError HandleTupleErrorType.NoBlocksToXor)
  else
    (* Load all block data *)
    blockData ← loadBlockData handles d;
    (* XOR all blocks together *)
    result ← xorBlockData blockData;
    (* Calculate checksum for the result *)
    let checksum := calculateChecksum result in
    match handles with
    | [] => Throw (SystemError "TypeError")
    | first :: _ =>
        Ok (RawDataBlock.new (BlockHandle.blockSize first) result
              match IBlockMetadata.dateCreated destBlockMetadata with
              | Some dateCreated => Date_of (Some dateCreated)
              | None => DateMs now
              end
              checksum BlockType.RawData BlockDataType.RawData true true)
    end.

(** [BlockHandleTuple.xor]: XOR all blocks in the tuple and store the
    result. *)
Definition BlockHandleTuple_xor (now : Z) (t : BlockHandleTuple) (heap : Heap)
    (diskBlockStore : DiskBlockAsyncStore)
    (destBlockMetadata : IBlockMetadata.t) (d : Disk)
  : Result BlockHandle.t * Disk :=
  match BlockHandleTuple_xor_block now t heap destBlockMetadata d with
  | Throw e => (Throw e, d)
  | Ok block =>
      (* Store the result *)
      let '(r, d') := setData now diskBlockStore block d in
      (tryCatch
         (_ ← r; Ok (get diskBlockStore (RawDataBlock.idChecksum block)))
         (WrappedError "Failed to store XOR result"),
       d')
  end.

(* ------------------------------------------------------------------- *)
(** *** [StaticHelpersSealing] *)
(* ------------------------------------------------------------------- *)

(** The collaborators of the sealing code, none of them among the embedded
    files: the symmetric codec ([StaticHelpersSymmetric]), the ECIES
    envelope ([StaticHelpersECIES]) and Shamir's secret sharing
    ([secrets.js]).  [T] is the type of the sealed value.  The functions
    that draw random bytes take and return the random source.  The width
    that [secrets.init] stores in the library's global configuration is
    passed to [share] and [combine] as their first argument. *)
Variable T : Type.
Variable symmetricEncryptJson : T -> RandomSource -> (Buffer * Buffer) * RandomSource.
Variable symmetricDecryptJson : Buffer -> Buffer -> Result T.
Variable ECIES_encrypt : Buffer -> Buffer -> RandomSource -> Result Buffer * RandomSource.
Variable ECIES_decryptWithHeader : Buffer -> Buffer -> Result Buffer.
Variable secrets_share :
  Z -> string -> nat -> Z -> RandomSource -> Result (list string) * RandomSource.
Variable secrets_combine : Z -> list string -> Result string.

(** [keyPair publicKey privateKey]: the two keys belong together. *)
Variable keyPair : Buffer -> Buffer -> Prop.

Definition MinimumShares : Z := 2.
Definition MaximumShares : Z := 1048575.

(** [reinitSecrets]: the number of bits for the number of shares needed;
    the value returned is the width handed to [secrets.init].
    [Math.ceil(Math.log2(n))] is [Z.log2_up n] for the [n] that pass the
    first test. *)
Definition reinitSecrets (maxShares : Z) : Result Z :=
  if ((maxShares <? MinimumShares) || (MaximumShares <? maxShares))%Z
  then Throw (SealingError SealingErrorType.InvalidBitRange)
  else
    let bits := Z.max 3 (Z.log2_up maxShares) in
    if ((bits <? 3) || (20 <? bits))%Z
    then Throw (SealingError SealingErrorType.InvalidBitRange)
    else Ok bits.

Definition validateQuorumSealInputs (amongstMembers : list BrightChainMember.t)
    (sharesRequired : option Z) : Result unit :=
  if (Z.of_nat (length amongstMembers) <? MinimumShares)%Z
  then Throw (SealingError SealingErrorType.NotEnoughMembersToUnlock)
  else if (MaximumShares <? Z.of_nat (length amongstMembers))%Z
  then Throw (SealingError SealingErrorType.TooManyMembersToUnlock)
  else
    let sharesRequired := default (Z.of_nat (length amongstMembers)) sharesRequired in
    if ((sharesRequired <? MinimumShares)
        || (Z.of_nat (length amongstMembers) <? sharesRequired))%Z
    then Throw (SealingError SealingErrorType.NotEnoughMembersToUnlock)
    else Ok ().

(** The loop of [encryptSharesForMembers] over the pairs
    [(memberIds[i], shares[i])].  [members.find((v) => v.id == memberId)]
    is the first member whose identifier is the object [memberId]: two
    members with identifiers of the same text are told apart, a member
    listed twice is found at its first place. *)
Fixpoint encryptSharesLoop (members : list BrightChainMember.t)
    (work : list (GuidV4.t * string))
    (encryptedSharesByMemberId : gmap ShortHexGuid Buffer) (rng : RandomSource)
  : Result (gmap ShortHexGuid Buffer) * RandomSource :=
  match work with
  | [] => (Ok encryptedSharesByMemberId, rng)
  | (memberId, shareForMember) :: work' =>
      match find (fun v => bool_decide (BrightChainMember.id v = memberId)) members with
      | None => (Throw (SealingError SealingErrorType.MemberNotFound), rng)
      | Some member =>
          match ECIES_encrypt (BrightChainMember.publicKey member)
                  (fromHex shareForMember) rng with
          | (Throw e, rng') => (Throw e, rng')
          | (Ok encryptedKeyShare, rng') =>
              encryptSharesLoop members work'
                (<[BrightChainMember.asShortHexGuid member := encryptedKeyShare]>
                   encryptedSharesByMemberId)
                rng'
          end
      end
  end.

(** [encryptSharesForMembers]: encrypt each key share with each member's
    public key. *)
Definition encryptSharesForMembers (shares : list string)
    (members : list BrightChainMember.t) (rng : RandomSource)
  : Result (gmap ShortHexGuid Buffer) * RandomSource :=
  if negb (length shares =? length members)
  then (Throw (SealingError SealingErrorType.NotEnoughMembersToUnlock), rng)
  else
    let memberIds := map BrightChainMember.id members in
    encryptSharesLoop members (zip memberIds shares) ∅ rng.

(** [quorumSeal].  [amongstMembers] is typed as an array, so the
    [InvalidMemberArray] test of line 78 cannot fire and is left out. *)
Definition quorumSeal (agent : BrightChainMember.t) (data : T)
    (amongstMembers : list BrightChainMember.t) (sharesRequired : option Z)
    (rng : RandomSource) : Result QuorumDataRecord.t * RandomSource :=
  match validateQuorumSealInputs amongstMembers sharesRequired with
  | Throw e => (Throw e, rng)
  | Ok _ =>
      let sharesRequired := default (Z.of_nat (length amongstMembers)) sharesRequired in
      let '((key, encryptedData), rng1) := symmetricEncryptJson data rng in
      (* split the key using shamir's secret sharing *)
      match reinitSecrets (Z.of_nat (length amongstMembers)) with
      | Throw e => (Throw e, rng1)
      | Ok bits =>
          match secrets_share bits (toHex key) (length amongstMembers)
                  sharesRequired rng1 with
          | (Throw e, rng2) => (Throw e, rng2)
          | (Ok keyShares, rng2) =>
              (* distribute the key shares to the members *)
              match encryptSharesForMembers keyShares amongstMembers rng2 with
              | (Throw e, rng3) => (Throw e, rng3)
              | (Ok encryptedSharesByMemberId, rng3) =>
                  (Ok (QuorumDataRecord.new agent
                         (map BrightChainMember.asShortHexGuid amongstMembers)
                         sharesRequired encryptedData encryptedSharesByMemberId),
                   rng3)
              end
          end
      end
  end.

Definition allMembersHavePrivateKey (members : list BrightChainMember.t) : bool :=
  forallb BrightChainMember.privateKeyLoaded members.

(** [decryptShares].  The loop reads [member.privateKey] only after
    [allMembersHavePrivateKey] has passed. *)
Definition decryptShares (document : QuorumDataRecord.t)
    (membersWithPrivateKey : list BrightChainMember.t) : Result (list string) :=
  if (Z.of_nat (length membersWithPrivateKey) <? QuorumDataRecord.sharesRequired document)%Z
  then Throw (SealingError SealingErrorType.NotEnoughMembersToUnlock)
  else if negb (allMembersHavePrivateKey membersWithPrivateKey)
  then Throw (SealingError SealingErrorType.MissingPrivateKeys)
  else
    mapResult
      (fun member =>
         match QuorumDataRecord.encryptedSharesByMemberId document
                 !! BrightChainMember.asShortHexGuid member with
         | None => Throw (SealingError SealingErrorType.EncryptedShareNotFound)
         | Some encryptedKeyShareHex =>
             match BrightChainMember.privateKey member with
             | None => Throw (SystemError "TypeError")
             | Some privateKey =>
                 decryptedKeyShare ← ECIES_decryptWithHeader privateKey encryptedKeyShareHex;
                 Ok (toHex decryptedKeyShare)
             end
         end)
      membersWithPrivateKey.

(** [quoromUnsealWithShares]: whatever is thrown inside the [try] comes
    out as [FailedToSeal]. *)
Definition quoromUnsealWithShares (document : QuorumDataRecord.t)
    (recoveredShares : list string) : Result T :=
  tryCatch
    ((* reconstitute the document key from the shares *)
     bits ← reinitSecrets
       (Z.of_nat (size (QuorumDataRecord.encryptedSharesByMemberId document)));
     combined ← secrets_combine bits recoveredShares;
     let key := fromHex combined in
     symmetricDecryptJson (QuorumDataRecord.encryptedData document) key)
    (fun _ => SealingError SealingErrorType.FailedToSeal).

(** [quorumUnseal]. *)
Definition quorumUnseal (document : QuorumDataRecord.t)
    (membersWithPrivateKey : list BrightChainMember.t) : Result T :=
  if (Z.of_nat (length membersWithPrivateKey) <? QuorumDataRecord.sharesRequired document)%Z
  then Throw (SealingError SealingErrorType.NotEnoughMembersToUnlock)
  else
    recoveredShares ← decryptShares document membersWithPrivateKey;
    quoromUnsealWithShares document recoveredShares.

(* ------------------------------------------------------------------- *)
(** *** [DiskBlockAsyncStore.getRandomBlocks] *)
(* ------------------------------------------------------------------- *)

(** [join(this._storePath, sizeToSizeString(this._blockSize))]. *)
Definition basePath (store : DiskBlockAsyncStore) : Path :=
  _storePath store ++ [sizeToSizeString (_blockSize store)].

(** The [while] loop of [getRandomBlocks].  Each unit of [fuel] pays for one
    turn of the loop; [None] means that the fuel ran out before the loop
    ended.  [firstLevelDirs.splice(i, 1)] is [delete i firstLevelDirs]. *)
Fixpoint randomBlocksLoop (fuel : nat) (store : DiskBlockAsyncStore) (d : Disk)
    (count : Z) (blocks : list ChecksumBuffer) (firstLevelDirs : list string)
    (r : MathRandom) : option (Result (list ChecksumBuffer)) :=
  if ((Z.of_nat (length blocks) <? count)%Z && (0 <? length firstLevelDirs))
  then
    match fuel with
    | 0 => None
    | S fuel' =>
        (* Pick a random first level directory *)
        let '(randomFirstIndex, r1) := randomIndex (length firstLevelDirs) r in
        match firstLevelDirs !! randomFirstIndex with
        | None => Some (Throw (SystemError "TypeError"))
        | Some firstDir =>
            let firstLevelPath := basePath store ++ [firstDir] in
            if negb (existsSync firstLevelPath d)
            then (* Remove invalid directory and continue *)
              randomBlocksLoop fuel' store d count blocks
                (delete randomFirstIndex firstLevelDirs) r1
            else
              (* Get second level directories *)
              match readdirSync firstLevelPath d with
              | Throw e => Some (Throw e)
              | Ok secondLevelDirs =>
                  if length secondLevelDirs =? 0
                  then (* Remove empty directory and continue *)
                    randomBlocksLoop fuel' store d count blocks
                      (delete randomFirstIndex firstLevelDirs) r1
                  else
                    (* Pick a random second level directory *)
                    let '(randomSecondIndex, r2) :=
                      randomIndex (length secondLevelDirs) r1 in
                    match secondLevelDirs !! randomSecondIndex with
                    | None => Some (Throw (SystemError "TypeError"))
                    | Some secondDir =>
                        let secondLevelPath := firstLevelPath ++ [secondDir] in
                        if negb (existsSync secondLevelPath d)
                        then randomBlocksLoop fuel' store d count blocks firstLevelDirs r2
                        else
                          (* Get block files *)
                          match readdirSync secondLevelPath d with
                          | Throw e => Some (Throw e)
                          | Ok files =>
                              let blockFiles :=
                                List.filter (fun file => negb (endsWith file ".m.json")) files in
                              if length blockFiles =? 0
                              then randomBlocksLoop fuel' store d count blocks firstLevelDirs r2
                              else
                                (* Pick a random block *)
                                let '(randomBlockIndex, r3) :=
                                  randomIndex (length blockFiles) r2 in
                                match blockFiles !! randomBlockIndex with
                                | None => Some (Throw (SystemError "TypeError"))
                                | Some blockFile =>
                                    let blocks' := blocks ++ [fromHex blockFile] in
                                    (* Remove used directory if we still need more blocks *)
                                    randomBlocksLoop fuel' store d count blocks'
                                      (if (Z.of_nat (length blocks') <? count)%Z
                                       then delete randomFirstIndex firstLevelDirs
                                       else firstLevelDirs)
                                      r3
                                end
                          end
                    end
              end
        end
    end
  else Some (Ok blocks).

(** [getRandomBlocks]: random block checksums from the store.  The promise
    resolves with the checksums ([Ok]) or rejects ([Throw]); the state of
    [Math.random] after the call is not handed back. *)
Definition getRandomBlocks (fuel : nat) (store : DiskBlockAsyncStore) (count : Z)
    (d : Disk) (r : MathRandom) : option (Result (list ChecksumBuffer)) :=
  let basePath := basePath store in
  if negb (existsSync basePath d)
  then Some (Ok [])
  else
    match readdirSync basePath d with
    | Throw e => Some (Throw e)
    | Ok firstLevelDirs => randomBlocksLoop fuel store d count [] firstLevelDirs r
    end.

(** A checksum that comes from a block file of the store: the name of an
    entry two directories below the base path, not a metadata sidecar, read
    as hexadecimal. *)
Definition fromBlockFile (store : DiskBlockAsyncStore) (d : Disk)
    (checksum : ChecksumBuffer) : Prop :=
  exists firstDir secondDir blockFile : string,
    is_Some (d !! (basePath store ++ [firstDir])) /\
    is_Some (d !! (basePath store ++ [firstDir; secondDir])) /\
    is_Some (d !! (basePath store ++ [firstDir; secondDir; blockFile])) /\
    endsWith blockFile ".m.json" = false /\
    checksum = fromHex blockFile.

(** Every entry three levels below the base path of the store is at the
    path of a block, for a key of two bytes or more (one byte for each of
    the two directory names). *)
Definition onlyBlockPaths (store : DiskBlockAsyncStore) (d : Disk) : Prop :=
  forall a b c : string,
    is_Some (d !! (basePath store ++ [a; b; c])) ->
    exists key : ChecksumBuffer,
      2 <= length key /\ basePath store ++ [a; b; c] = blockPath store key.

(** Every directory listed under the base path holds at least one directory,
    and each of these holds at least one block file. *)
Definition everyShardHoldsABlock (store : DiskBlockAsyncStore) (d : Disk) : Prop :=
  forall firstDir : string,
    is_Some (d !! (basePath store ++ [firstDir])) ->
    exists secondLevelDirs,
      readdirSync (basePath store ++ [firstDir]) d = Ok secondLevelDirs /\
      secondLevelDirs <> [] /\
      forall secondDir, secondDir ∈ secondLevelDirs ->
        exists files,
          readdirSync (basePath store ++ [firstDir; secondDir]) d = Ok files /\
          List.filter (fun file => negb (endsWith file ".m.json")) files <> [].

(** Every directory listed under the base path holds at least one directory,
    and none of these holds a block file. *)
Definition noShardHoldsABlock (store : DiskBlockAsyncStore) (d : Disk) : Prop :=
  forall firstDir : string,
    is_Some (d !! (basePath store ++ [firstDir])) ->
    exists secondLevelDirs,
      readdirSync (basePath store ++ [firstDir]) d = Ok secondLevelDirs /\
      secondLevelDirs <> [] /\
      forall secondDir, secondDir ∈ secondLevelDirs ->
        exists files,
          readdirSync (basePath store ++ [firstDir; secondDir]) d = Ok files /\
          List.filter (fun file => negb (endsWith file ".m.json")) files = [].

(** A directory under the base path that holds directories, none of which
    holds a block file. *)
Definition shardWithoutBlocks (store : DiskBlockAsyncStore) (d : Disk)
    (firstDir : string) : Prop :=
  exists secondLevelDirs,
    readdirSync (basePath store ++ [firstDir]) d = Ok secondLevelDirs /\
    secondLevelDirs <> [] /\
    forall secondDir, secondDir ∈ secondLevelDirs ->
      exists files,
        readdirSync (basePath store ++ [firstDir; secondDir]) d = Ok files /\
        List.filter (fun file => negb (endsWith file ".m.json")) files = [].

(* ------------------------------------------------------------------- *)
(** *** Contracts of the sealing collaborators *)
(* ------------------------------------------------------------------- *)

(** What the sealing code relies on from its collaborators.  The symmetric
    codec decrypts what it encrypted; ECIES decrypts, with the private key
    of a pair, what was encrypted with the public key; and Shamir's scheme
    gives the secret back from any [t] or more of the shares it made,
    taken in any order. *)
Hypothesis symmetric_roundtrip :
  forall (v : T) (rng rng' : RandomSource) (key encryptedData : Buffer),
    symmetricEncryptJson v rng = ((key, encryptedData), rng') ->
    symmetricDecryptJson encryptedData key = Ok v.

Hypothesis ECIES_roundtrip :
  forall (publicKey privateKey message encrypted : Buffer) (rng rng' : RandomSource),
    keyPair publicKey privateKey ->
    ECIES_encrypt publicKey message rng = (Ok encrypted, rng') ->
    ECIES_decryptWithHeader privateKey encrypted = Ok message.

Hypothesis shamir_threshold :
  forall (bits : Z) (key : Buffer) (n : nat) (t : Z) (rng rng' : RandomSource)
         (shares picked : list string),
    secrets_share bits (toHex key) n t rng = (Ok shares, rng') ->
    (MinimumShares <= t)%Z ->
    picked ⊆+ shares ->
    (t <= Z.of_nat (length picked))%Z ->
    secrets_combine bits picked = Ok (toHex key).

(* =================================================================== *)
(** ** Properties *)
(* =================================================================== *)

(** *** Buffers *)

Lemma randomBytes_length size rng : length (fst (randomBytes size rng)) = size.
Proof. unfold randomBytes; simpl. by rewrite length_fmap, length_seq. Qed.

Lemma randomBytes_lookup size rng i :
  i < size -> fst (randomBytes size rng) !! i = Some (tape rng (cursor rng + i)).
Proof.
  intros Hi. unfold randomBytes; cbn [fst].
  rewrite list_lookup_fmap, lookup_seq_lt by done. done.
Qed.

(** Copying a whole source that fits into the front of the target keeps
    the source and the tail of the target. *)
Lemma Buffer_copy_prefix (source target : Buffer) :
  length source <= length target ->
  Buffer_copy source target 0 0 (Nat.min (length source) (length target))
  = source ++ drop (length source) target.
Proof.
  intros Hle. unfold Buffer_copy.
  rewrite Nat.min_l by done.
  rewrite firstn_all, drop_0, Nat.sub_0_r.
  rewrite (take_ge source) by done. simpl. done.
Qed.

Lemma paddedBuffer_length rng blockSize data :
  length data <= blockSize -> length (paddedBuffer rng blockSize data) = blockSize.
Proof.
  intros Hle. unfold paddedBuffer.
  rewrite length_app, length_drop, randomBytes_length. lia.
Qed.

(** [from] after its three length tests. *)
Lemma from_lengthsAccepted now rng type dataType blockSize data checksum creator
    dateCreated actualDataLength canRead canPersist :
  lengthsAccepted blockSize data actualDataLength ->
  fst (from now rng type dataType blockSize data checksum creator dateCreated
         actualDataLength canRead canPersist)
  = let finalData := paddedBuffer rng blockSize data in
    let computedChecksum := calculateChecksum finalData in
    match checksum with
    | Some supplied =>
        if bool_decide (computedChecksum = supplied)
        then new_EncryptedBlock now type dataType finalData supplied
               {| meta_size := blockSize; meta_type := type;
                  meta_dataType := BlockDataType.EncryptedData;
                  meta_lengthWithoutPadding :=
                    match actualDataLength with
                    | Some n => n
                    | None => (Z.of_nat (length data) - Z.of_nat eciesOverheadLength)%Z
                    end;
                  meta_encrypted := true; meta_creator := creator;
                  meta_dateCreated := default (DateMs now) dateCreated |}
               canRead canPersist
        else Throw (ChecksumMismatchError computedChecksum supplied)
    | None =>
        new_EncryptedBlock now type dataType finalData computedChecksum
          {| meta_size := blockSize; meta_type := type;
             meta_dataType := BlockDataType.EncryptedData;
             meta_lengthWithoutPadding :=
               match actualDataLength with
               | Some n => n
               | None => (Z.of_nat (length data) - Z.of_nat eciesOverheadLength)%Z
               end;
             meta_encrypted := true; meta_creator := creator;
             meta_dateCreated := default (DateMs now) dateCreated |}
          canRead canPersist
    end.
Proof.
  intros (Hshort & Hfit & Hactual). unfold from.
  destruct (Nat.ltb_spec (length data) eciesOverheadLength) as [?|_]; [lia|].
  destruct (Nat.ltb_spec blockSize (length data)) as [?|_]; [lia|].
  assert (Hact : match actualDataLength with
                 | Some n => (Z.of_nat blockSize - Z.of_nat eciesOverheadLength <? n)%Z
                 | None => false
                 end = false).
  { destruct actualDataLength; [apply Z.ltb_ge; lia | done]. }
  rewrite Hact.
  destruct (randomBytes blockSize rng) as [random rng'] eqn:Hrandom.
  assert (Hlen : length random = blockSize).
  { pose proof (randomBytes_length blockSize rng) as H. by rewrite Hrandom in H. }
  replace (Nat.min (length data) blockSize)
    with (Nat.min (length data) (length random)) by (rewrite Hlen; done).
  rewrite Buffer_copy_prefix by lia.
  unfold paddedBuffer. rewrite Hrandom. simpl.
  destruct checksum as [supplied|]; simpl; [|done].
  unfold Buffer_equals. by case_bool_decide.
Qed.

Lemma new_EncryptedBlock_Ok now type dataType finalData finalChecksum meta
    canRead canPersist b :
  new_EncryptedBlock now type dataType finalData finalChecksum meta canRead canPersist
    = Ok b ->
  EncryptedBlock.data b = finalData /\ EncryptedBlock.idChecksum b = finalChecksum /\
  EncryptedBlock.metadata b = meta.
Proof.
  unfold new_EncryptedBlock. destruct (Date_gt _ _); [done|].
  intros [= <-]. done.
Qed.

Lemma new_EncryptedBlock_not_length now type dataType finalData finalChecksum meta
    canRead canPersist :
  new_EncryptedBlock now type dataType finalData finalChecksum meta canRead canPersist
    <> Throw (BlockValidationError BlockValidationErrorType.DataLengthTooShort) /\
  new_EncryptedBlock now type dataType finalData finalChecksum meta canRead canPersist
    <> Throw (BlockValidationError BlockValidationErrorType.DataLengthExceedsCapacity).
Proof. unfold new_EncryptedBlock. destruct (Date_gt _ _); done. Qed.

(** A block comes out of [from] only when the three length tests pass. *)
Lemma from_Ok_lengthsAccepted now rng type dataType blockSize data checksum creator
    dateCreated actualDataLength canRead canPersist b :
  fst (from now rng type dataType blockSize data checksum creator dateCreated
         actualDataLength canRead canPersist) = Ok b ->
  lengthsAccepted blockSize data actualDataLength.
Proof.
  unfold from, lengthsAccepted.
  destruct (Nat.ltb_spec (length data) eciesOverheadLength) as [?|?]; [done|].
  destruct (Nat.ltb_spec blockSize (length data)) as [?|?]; [done|].
  destruct actualDataLength as [n|].
  - destruct (Z.ltb_spec (Z.of_nat blockSize - Z.of_nat eciesOverheadLength) n);
      [done|]. intros _. repeat split; [done..|lia].
  - intros _. done.
Qed.

(** C6.  [from] tests the lengths in this order and reports the first
    failure: fewer than [eciesOverheadLength] (97) bytes of data is
    [DataLengthTooShort]; otherwise more data than [blockSize] is
    [DataLengthExceedsCapacity]; otherwise an [actualDataLength] above
    [blockSize - eciesOverheadLength] is [DataLengthExceedsCapacity];
    inputs that pass the three tests are not rejected for their length. *)
Theorem from_length_checks_in_order now rng type dataType blockSize data checksum
    creator dateCreated actualDataLength canRead canPersist :
  let result :=
    fst (from now rng type dataType blockSize data checksum creator dateCreated
           actualDataLength canRead canPersist) in
  eciesOverheadLength = 97 /\
  (length data < eciesOverheadLength ->
   result = Throw (BlockValidationError BlockValidationErrorType.DataLengthTooShort)) /\
  (eciesOverheadLength <= length data -> blockSize < length data ->
   result = Throw (BlockValidationError BlockValidationErrorType.DataLengthExceedsCapacity)) /\
  (forall n, eciesOverheadLength <= length data -> length data <= blockSize ->
   actualDataLength = Some n ->
   (Z.of_nat blockSize - Z.of_nat eciesOverheadLength < n)%Z ->
   result = Throw (BlockValidationError BlockValidationErrorType.DataLengthExceedsCapacity)) /\
  (lengthsAccepted blockSize data actualDataLength ->
   result <> Throw (BlockValidationError BlockValidationErrorType.DataLengthTooShort) /\
   result <> Throw (BlockValidationError BlockValidationErrorType.DataLengthExceedsCapacity)).
Proof.
  intros result. split; [done|]. split; [|split; [|split]].
  - intros Hshort. subst result. unfold from.
    destruct (Nat.ltb_spec (length data) eciesOverheadLength); [done|lia].
  - intros Hlong Hbig. subst result. unfold from.
    destruct (Nat.ltb_spec (length data) eciesOverheadLength); [lia|].
    destruct (Nat.ltb_spec blockSize (length data)); [done|lia].
  - intros n Hlong Hfit -> Hactual. subst result. unfold from.
    destruct (Nat.ltb_spec (length data) eciesOverheadLength); [lia|].
    destruct (Nat.ltb_spec blockSize (length data)); [lia|].
    destruct (Z.ltb_spec (Z.of_nat blockSize - Z.of_nat eciesOverheadLength) n);
      [done|lia].
  - intros Haccepted. subst result.
    rewrite from_lengthsAccepted by done. cbv zeta.
    destruct checksum as [supplied|].
    + case_bool_decide; [apply new_EncryptedBlock_not_length | done].
    + apply new_EncryptedBlock_not_length.
Qed.

(** C5.  When the caller supplies a checksum that differs from the one
    computed over the final, padded buffer, [from] fails with a
    [ChecksumMismatchError] whose [expected] field is the supplied checksum
    and whose [checksum] field is the computed one. *)
Theorem from_checksum_mismatch now rng type dataType blockSize data supplied creator
    dateCreated actualDataLength canRead canPersist :
  lengthsAccepted blockSize data actualDataLength ->
  supplied <> calculateChecksum (paddedBuffer rng blockSize data) ->
  exists e,
    fst (from now rng type dataType blockSize data (Some supplied) creator dateCreated
           actualDataLength canRead canPersist) = Throw e /\
    e = ChecksumMismatchError (calculateChecksum (paddedBuffer rng blockSize data)) supplied /\
    error_expected e = Some supplied /\
    error_checksum e = Some (calculateChecksum (paddedBuffer rng blockSize data)).
Proof.
  intros Haccepted Hdiffers. eexists. split.
  - rewrite from_lengthsAccepted by done. cbv zeta.
    case_bool_decide; [congruence | reflexivity].
  - done.
Qed.

(** C1.  A block produced by [from] from [(blockSize, data)] has a data
    buffer of exactly [blockSize] bytes, whose first [length data] bytes
    are the supplied data and whose bytes [length data .. blockSize) are
    the bytes the random source gave at those positions; its [idChecksum]
    is the checksum of that buffer. *)
Theorem from_block_layout now rng type dataType blockSize data checksum creator
    dateCreated actualDataLength canRead canPersist b :
  fst (from now rng type dataType blockSize data checksum creator dateCreated
         actualDataLength canRead canPersist) = Ok b ->
  length (EncryptedBlock.data b) = blockSize /\
  EncryptedBlock.blockSize b = blockSize /\
  take (length data) (EncryptedBlock.data b) = data /\
  drop (length data) (EncryptedBlock.data b)
    = drop (length data) (fst (randomBytes blockSize rng)) /\
  (forall i, length data <= i < blockSize ->
     EncryptedBlock.data b !! i = Some (tape rng (cursor rng + i))) /\
  EncryptedBlock.idChecksum b = calculateChecksum (EncryptedBlock.data b).
Proof.
  intros Hok.
  pose proof (from_Ok_lengthsAccepted _ _ _ _ _ _ _ _ _ _ _ _ _ Hok) as Haccepted.
  rewrite from_lengthsAccepted in Hok by done. cbv zeta in Hok.
  destruct Haccepted as (_ & Hfit & _).
  assert (Hb : EncryptedBlock.data b = paddedBuffer rng blockSize data /\
               EncryptedBlock.idChecksum b
                 = calculateChecksum (paddedBuffer rng blockSize data) /\
               meta_size (EncryptedBlock.metadata b) = blockSize).
  { destruct checksum as [supplied|].
    - case_bool_decide as Hsame; [|done].
      apply new_EncryptedBlock_Ok in Hok as (-> & -> & ->). done.
    - apply new_EncryptedBlock_Ok in Hok as (-> & -> & ->). done. }
  destruct Hb as (Hdata & Hsum & Hsize).
  rewrite Hdata, Hsum. unfold EncryptedBlock.blockSize. rewrite Hsize.
  split; [by apply paddedBuffer_length|]. split; [done|].
  unfold paddedBuffer.
  split; [by rewrite take_app_length|].
  split; [by rewrite drop_app_length|].
  split; [|done].
  intros i [Hlo Hhi].
  rewrite lookup_app_r by done.
  rewrite lookup_drop.
  replace (length data + (i - length data)) with i by lia.
  by apply randomBytes_lookup.
Qed.

(** *** The disk store *)

Lemma existsSync_true (p : Path) (d : Disk) : existsSync p d = true <-> is_Some (d !! p).
Proof. unfold existsSync. by rewrite bool_decide_eq_true. Qed.

Lemma existsSync_false (p : Path) (d : Disk) : existsSync p d = false <-> d !! p = None.
Proof.
  unfold existsSync. rewrite bool_decide_eq_false. by rewrite eq_None_not_Some.
Qed.

Lemma writeFileSync_Ok (now : Z) (p : Path) (contents : Buffer) (d d' : Disk) (u : unit) :
  writeFileSync now p contents d = (Ok u, d') ->
  exists birthtime, d' = <[p := File contents birthtime]> d.
Proof.
  unfold writeFileSync.
  destruct (d !! p) as [[old birthtime|birthtime]|].
  - intros [= _ <-]. by exists birthtime.
  - done.
  - destruct (isDirectory (dirname p) d); [|done]. intros [= _ <-]. by exists now.
Qed.

(** A successful [setData] has passed the three tests and has written the
    data of the block at the path of its checksum. *)
Lemma setData_Ok (now : Z) (store : DiskBlockAsyncStore) (block : RawDataBlock.t)
    (d d' : Disk) (u : unit) :
  setData now store block d = (Ok u, d') ->
  setDataChecksPass now store block d /\
  exists birthtime,
    d' !! blockPath store (RawDataBlock.idChecksum block)
      = Some (File (RawDataBlock.data block) birthtime).
Proof.
  unfold setData, setDataChecksPass.
  destruct (Nat.eqb_spec (RawDataBlock.blockSize block) (_blockSize store)) as [Hsize|Hsize];
    simpl; [|done].
  destruct (existsSync _ d) eqn:Hexists; [done|].
  apply existsSync_false in Hexists.
  destruct (validate now block) as [?|?]; [|done].
  destruct (ensureBlockPath _ _ _ _) as [[?|?] d1]; [|done].
  destruct (writeFileSync _ _ _ _) as [[?|?] d2] eqn:Hwrite; [|done].
  intros [= _ <-]. split; [done|].
  apply writeFileSync_Ok in Hwrite as [birthtime ->].
  exists birthtime. apply lookup_insert_eq.
Qed.

(** Once something exists at the path of a key, [setData] of a block with
    that key fails and leaves the disk as it was. *)
Lemma setData_existing (now : Z) (store : DiskBlockAsyncStore) (block : RawDataBlock.t)
    (d : Disk) :
  is_Some (d !! blockPath store (RawDataBlock.idChecksum block)) ->
  exists reason,
    setData now store block d = (Throw (StoreError reason), d) /\
    (RawDataBlock.blockSize block = _blockSize store ->
     reason = StoreErrorType.BlockPathAlreadyExists).
Proof.
  intros Hexists. apply existsSync_true in Hexists. unfold setData.
  destruct (Nat.eqb_spec (RawDataBlock.blockSize block) (_blockSize store)) as [Hsize|Hsize];
    simpl.
  - rewrite Hexists. eauto.
  - eexists. split; [done|]. intros ?. done.
Qed.

(** Whenever [setData] changes the disk, the three tests have passed. *)
Lemma setData_changed (now : Z) (store : DiskBlockAsyncStore) (block : RawDataBlock.t)
    (d d' : Disk) (r : Result unit) :
  setData now store block d = (r, d') -> d' <> d ->
  setDataChecksPass now store block d.
Proof.
  unfold setData, setDataChecksPass.
  destruct (Nat.eqb_spec (RawDataBlock.blockSize block) (_blockSize store)) as [Hsize|Hsize];
    simpl; [|by intros [= _ <-]].
  destruct (existsSync _ d) eqn:Hexists; [by intros [= _ <-]|].
  apply existsSync_false in Hexists.
  destruct (validate now block) as [?|?]; [|by intros [= _ <-]].
  done.
Qed.

(** C2.  [setData] fails with [BlockSizeMismatch] when the size of the
    block differs from the size of the store, with
    [BlockPathAlreadyExists] when something already exists at the path of
    the block, with [BlockValidationFailed] when [validate] throws (each
    test being reached when the ones before it pass); on each of these
    failures the disk is left as it was, so the file is written only when
    the three tests pass; and after a successful [setData] every further
    [setData] of the same key fails without writing. *)
Theorem setData_guards (now : Z) (store : DiskBlockAsyncStore) (block : RawDataBlock.t)
    (d : Disk) :
  let path := blockPath store (RawDataBlock.idChecksum block) in
  (RawDataBlock.blockSize block <> _blockSize store ->
   setData now store block d
     = (Throw (StoreError StoreErrorType.BlockSizeMismatch), d)) /\
  (RawDataBlock.blockSize block = _blockSize store -> is_Some (d !! path) ->
   setData now store block d
     = (Throw (StoreError StoreErrorType.BlockPathAlreadyExists), d)) /\
  (RawDataBlock.blockSize block = _blockSize store -> d !! path = None ->
   isOk (validate now block) = false ->
   setData now store block d
     = (Throw (StoreError StoreErrorType.BlockValidationFailed), d)) /\
  (forall r (d' : Disk), setData now store block d = (r, d') ->
   d' <> d -> setDataChecksPass now store block d) /\
  (forall (u : unit) (d' : Disk), setData now store block d = (Ok u, d') ->
   setDataChecksPass now store block d /\
   (exists birthtime, d' !! path = Some (File (RawDataBlock.data block) birthtime)) /\
   forall (now' : Z) (block' : RawDataBlock.t),
     RawDataBlock.idChecksum block' = RawDataBlock.idChecksum block ->
     exists reason,
       setData now' store block' d' = (Throw (StoreError reason), d') /\
       (RawDataBlock.blockSize block' = _blockSize store ->
        reason = StoreErrorType.BlockPathAlreadyExists)).
Proof.
  intros path. split; [|split; [|split; [|split]]].
  - intros Hsize. unfold setData.
    destruct (Nat.eqb_spec (RawDataBlock.blockSize block) (_blockSize store)); done.
  - intros Hsize Hexists. apply existsSync_true in Hexists. unfold setData.
    rewrite Hsize, Nat.eqb_refl. simpl. fold path. by rewrite Hexists.
  - intros Hsize Hfree Hvalid. apply existsSync_false in Hfree. unfold setData.
    rewrite Hsize, Nat.eqb_refl. simpl. fold path. rewrite Hfree.
    destruct (validate now block); done.
  - intros r d'. apply setData_changed.
  - intros u d' Hok. pose proof Hok as Hwritten.
    apply setData_Ok in Hwritten as [Hpass [birthtime Hfile]].
    split; [done|]. split; [by exists birthtime|].
    intros now' block' Hkey.
    apply setData_existing. rewrite Hkey. by rewrite Hfile.
Qed.

(** C7.  After a successful [setData] of a block (whose data fill its
    block size), [has] of its checksum is true and [getData] of its
    checksum returns a block with the same data; [getData] of a key
    with nothing at its path fails with [KeyNotFound], and [getData] of a
    file whose length differs from the block size of the store fails with
    [BlockFileSizeMismatch]. *)
Theorem setData_then_has_getData (now : Z) (store : DiskBlockAsyncStore)
    (block : RawDataBlock.t) (d d' : Disk) (u : unit) :
  setData now store block d = (Ok u, d') ->
  length (RawDataBlock.data block) = RawDataBlock.blockSize block ->
  has store (RawDataBlock.idChecksum block) d' = true /\
  (exists stored,
     getData store (RawDataBlock.idChecksum block) d' = Ok stored /\
     RawDataBlock.data stored = RawDataBlock.data block /\
     RawDataBlock.idChecksum stored = RawDataBlock.idChecksum block) /\
  (forall (key : ChecksumBuffer) (d0 : Disk),
     has store key d0 = false ->
     getData store key d0 = Throw (StoreError StoreErrorType.KeyNotFound)) /\
  (forall (key : ChecksumBuffer) (d0 : Disk) (contents : Buffer) (birthtime : Z),
     d0 !! blockPath store key = Some (File contents birthtime) ->
     length contents <> _blockSize store ->
     getData store key d0 = Throw (StoreError StoreErrorType.BlockFileSizeMismatch)).
Proof.
  intros Hok Hfull.
  apply setData_Ok in Hok as [(Hsize & _ & _) [birthtime Hfile]].
  assert (Hexists : existsSync (blockPath store (RawDataBlock.idChecksum block)) d' = true).
  { apply existsSync_true. by rewrite Hfile. }
  split; [done|]. split; [|split].
  - unfold getData. rewrite Hexists. simpl.
    unfold readFileSync, statSync_birthtime. rewrite Hfile. simpl.
    rewrite Hfull, Hsize, Nat.eqb_refl. simpl. eauto.
  - intros key d0 Habsent. unfold has in Habsent. unfold getData.
    by rewrite Habsent.
  - intros key d0 contents birth Hlookup Hlen. unfold getData.
    assert (existsSync (blockPath store key) d0 = true) as ->.
    { apply existsSync_true. by rewrite Hlookup. }
    simpl. unfold readFileSync. rewrite Hlookup. simpl.
    destruct (Nat.eqb_spec (length contents) (_blockSize store)); done.
Qed.

(** *** XOR of buffers *)

Lemma xorb_undo (a b c : bool) : xorb (xorb (xorb (xorb a b) c) b) c = a.
Proof. by destruct a, b, c. Qed.

Lemma bits_xor_undo x y z : bits_xor (bits_xor (bits_xor (bits_xor x y) z) y) z = x.
Proof.
  destruct x as (?&?&?&?&?&?&?&?), y as (?&?&?&?&?&?&?&?), z as (?&?&?&?&?&?&?&?).
  simpl. by rewrite !xorb_undo.
Qed.

Lemma byte_xor_undo (a b c : byte) :
  byte_xor (byte_xor (byte_xor (byte_xor a b) c) b) c = a.
Proof.
  unfold byte_xor. rewrite !Byte.to_bits_of_bits, bits_xor_undo.
  apply Byte.of_bits_to_bits.
Qed.

Lemma xorBuffers_length (result current : Buffer) :
  length current = length result ->
  length (xorBuffers result current) = length result.
Proof. intros Hlen. unfold xorBuffers. rewrite length_zip_with. lia. Qed.

Lemma xorBuffers_undo (a b c : Buffer) :
  length b = length a -> length c = length a ->
  xorBuffers (xorBuffers (xorBuffers (xorBuffers a b) c) b) c = a.
Proof.
  unfold xorBuffers. revert b c.
  induction a as [|x a IH]; intros [|y b] [|z c]; simpl; try done.
  intros [= Hb] [= Hc]. by rewrite byte_xor_undo, IH.
Qed.

(** The loop keeps the length of its accumulator, and succeeds exactly
    when every remaining operand has that length. *)
Lemma xorLoop_Ok (rest : list Buffer) : forall (result r : Buffer),
  xorLoop result rest = Ok r ->
  length r = length result /\ Forall (fun x => length x = length result) rest.
Proof.
  induction rest as [|current rest IH]; intros result r; simpl.
  - intros [= <-]. by split.
  - destruct (Nat.eqb_spec (length current) (length result)) as [Hlen|Hlen];
      simpl; [|done].
    intros Hloop. apply IH in Hloop as [Hr Hrest].
    rewrite xorBuffers_length in Hr, Hrest by done.
    split; [done|]. by constructor.
Qed.

Lemma xorLoop_mismatch (rest : list Buffer) : forall (result : Buffer),
  Exists (fun x => length x <> length result) rest ->
  xorLoop result rest
    = Throw (HandleTupleError HandleTupleErrorType.BlockSizesMustMatch).
Proof.
  induction rest as [|current rest IH]; intros result Hex; simpl.
  - by apply Exists_nil in Hex.
  - destruct (Nat.eqb_spec (length current) (length result)) as [Hlen|Hlen];
      simpl; [|done].
    apply Exists_cons in Hex as [?|Hex]; [done|].
    apply IH. by rewrite xorBuffers_length.
Qed.

Lemma mapResult_length {A B} (f : A -> Result B) (items : list A) : forall ys,
  mapResult f items = Ok ys -> length ys = length items.
Proof.
  induction items as [|x items IH]; intros ys; simpl.
  - by intros [= <-].
  - destruct (f x); [|done]. destruct (mapResult f items); [|done].
    intros [= <-]. simpl. by rewrite (IH _ eq_refl).
Qed.

(** C4.  For buffers [a], [b], [c] of equal length, XORing the result of
    the tuple XOR with [b] and [c] again gives back [a]; the result of an
    XOR has the length of its operands; and when some loaded operand has
    a length other than the first one's, the XOR of the tuple fails with
    [BlockSizesMustMatch]. *)
Theorem xor_tuple_properties :
  (forall a b c : Buffer,
     length b = length a -> length c = length a ->
     exists r, xorBlockData [a; b; c] = Ok r /\ length r = length a /\
               xorBlockData [r; b; c] = Ok a) /\
  (forall (first : Buffer) (rest : list Buffer) (r : Buffer),
     xorBlockData (first :: rest) = Ok r ->
     length r = length first /\ Forall (fun x => length x = length first) rest) /\
  (forall (first : Buffer) (rest : list Buffer),
     Exists (fun x => length x <> length first) rest ->
     xorBlockData (first :: rest)
       = Throw (HandleTupleError HandleTupleErrorType.BlockSizesMustMatch)) /\
  (forall (now : Z) (t : BlockHandleTuple) (heap : Heap) (store : DiskBlockAsyncStore)
          (dest : IBlockMetadata.t) (d : Disk) (first : Buffer) (rest : list Buffer),
     loadBlockData (handles t heap) d = Ok (first :: rest) ->
     Exists (fun x => length x <> length first) rest ->
     BlockHandleTuple_xor now t heap store dest d
       = (Throw (HandleTupleError HandleTupleErrorType.BlockSizesMustMatch), d)) /\
  (forall (now : Z) (t : BlockHandleTuple) (heap : Heap) (dest : IBlockMetadata.t)
          (d : Disk) (block : RawDataBlock.t),
     BlockHandleTuple_xor_block now t heap dest d = Ok block ->
     exists blockData,
       loadBlockData (handles t heap) d = Ok blockData /\
       xorBlockData blockData = Ok (RawDataBlock.data block)).
Proof.
  split; [|split; [|split; [|split]]].
  - intros a b c Hb Hc. exists (xorBuffers (xorBuffers a b) c).
    assert (Hab : length (xorBuffers a b) = length a) by by apply xorBuffers_length.
    assert (Habc : length (xorBuffers (xorBuffers a b) c) = length a).
    { rewrite xorBuffers_length; [done|congruence]. }
    split; [|split; [done|]].
    + simpl. rewrite Hb, Nat.eqb_refl. simpl.
      rewrite Hab, Hc, Nat.eqb_refl. done.
    + simpl. rewrite Habc, Hb, Nat.eqb_refl. simpl.
      rewrite xorBuffers_length by congruence.
      rewrite Habc, Hc, Nat.eqb_refl. simpl.
      by rewrite xorBuffers_undo.
  - intros first rest r. simpl. apply xorLoop_Ok.
  - intros first rest. simpl. apply xorLoop_mismatch.
  - intros now t heap store dest d first rest Hload Hex.
    unfold BlockHandleTuple_xor, BlockHandleTuple_xor_block.
    pose proof (mapResult_length _ _ _ Hload) as Hlen. simpl in Hlen.
    destruct (handles t heap) as [|h hs] eqn:Hhandles; [done|].
    simpl length. simpl Nat.eqb. cbv iota.
    rewrite Hload. simpl. by rewrite xorLoop_mismatch.
  - intros now t heap dest d block. unfold BlockHandleTuple_xor_block.
    destruct (handles t heap) as [|h hs] eqn:Hhandles; [done|].
    simpl length. simpl Nat.eqb. cbv iota.
    destruct (loadBlockData (h :: hs) d) as [blockData|] eqn:Hload; [|done].
    simpl. destruct (xorBlockData blockData) as [result|] eqn:Hxor; [|done].
    simpl. intros [= <-]. by exists blockData.
Qed.

(** *** The creation date of an XOR result *)

(** X1.  [BlockHandleTuple.xor] dates its result with the date of the
    destination metadata when there is one, and with the clock when there
    is none. *)
Lemma BlockHandleTuple_xor_dateCreated (now : Z) (t : BlockHandleTuple) (heap : Heap)
    (dest : IBlockMetadata.t) (d : Disk) (block : RawDataBlock.t) :
  BlockHandleTuple_xor_block now t heap dest d = Ok block ->
  RawDataBlock.dateCreated block
    = match IBlockMetadata.dateCreated dest with
      | Some dateCreated => dateCreated
      | None => DateMs now
      end.
Proof.
  unfold BlockHandleTuple_xor_block.
  destruct (handles t heap) as [|h hs]; [done|].
  simpl length. simpl Nat.eqb. cbv iota.
  destruct (loadBlockData (h :: hs) d) as [blockData|]; [|done].
  simpl. destruct (xorBlockData blockData) as [result|]; [|done].
  simpl. intros [= <-]. simpl. by destruct (IBlockMetadata.dateCreated dest).
Qed.

(** X2.  [DiskBlockAsyncStore.xor] dates its result with
    [new Date(destBlockMetadata.dateCreated)], whatever that is: the date
    of the metadata when there is one, the invalid date when there is
    none. *)
Lemma DiskBlockAsyncStore_xor_dateCreated (store : DiskBlockAsyncStore)
    (blocks : list BlockHandle.t) (dest : IBlockMetadata.t) (d : Disk)
    (block : RawDataBlock.t) :
  DiskBlockAsyncStore_xor store blocks dest d = Ok block ->
  RawDataBlock.dateCreated block
    = match IBlockMetadata.dateCreated dest with
      | Some dateCreated => dateCreated
      | None => InvalidDate
      end.
Proof.
  unfold DiskBlockAsyncStore_xor.
  destruct (length blocks =? 0); [done|].
  destruct (mapResult _ blocks) as [readStreams|]; [|done].
  simpl. destruct (xorPipeline readStreams) as [[written checksumBuffer]|]; [|done].
  simpl. intros [= <-]. simpl. by destruct (IBlockMetadata.dateCreated dest).
Qed.

(** *** The tuple constructor *)

Lemma TUPLE_SIZE_pos : 0 < TUPLE_SIZE.
Proof. unfold TUPLE_SIZE. lia. Qed.

(** C9.  The [BlockHandleTuple] constructor fails with [InvalidTupleSize]
    for every array of handles whose length is not [TUPLE_SIZE], fails
    with [BlockSizeMismatch] for every array of [TUPLE_SIZE] handles one
    of which has a block size other than the first one's, and succeeds
    exactly when there are [TUPLE_SIZE] handles of equal block size. *)
Theorem new_BlockHandleTuple_spec (handles : ArrayRef) (heap : Heap) :
  let elements := heap handles in
  (length elements <> TUPLE_SIZE ->
   new_BlockHandleTuple handles heap
     = Throw (HandleTupleError HandleTupleErrorType.InvalidTupleSize)) /\
  (forall first,
     length elements = TUPLE_SIZE -> head elements = Some first ->
     Exists (fun h => BlockHandle.blockSize h <> BlockHandle.blockSize first) elements ->
     new_BlockHandleTuple handles heap
       = Throw (HandleTupleError HandleTupleErrorType.BlockSizeMismatch)) /\
  (isOk (new_BlockHandleTuple handles heap) = true <->
   length elements = TUPLE_SIZE /\
   forall h1 h2, h1 ∈ elements -> h2 ∈ elements ->
     BlockHandle.blockSize h1 = BlockHandle.blockSize h2) /\
  (forall t, new_BlockHandleTuple handles heap = Ok t -> _handles t = handles).
Proof.
  intros elements. unfold new_BlockHandleTuple. fold elements.
  destruct (Nat.eqb_spec (length elements) TUPLE_SIZE) as [Hlen|Hlen]; simpl.
  - destruct elements as [|first rest] eqn:Helements.
    { pose proof TUPLE_SIZE_pos. simpl in Hlen. lia. }
    destruct (forallb _ (first :: rest)) eqn:Hall; simpl.
    + rewrite forallb_forall in Hall.
      split; [done|]. split; [|split].
      * intros first' _ [= <-] Hex. apply Exists_exists in Hex as (h & Hin & Hne).
        apply list_elem_of_In, Hall, Nat.eqb_eq in Hin. done.
      * split; [|done]. intros _. split; [done|].
        intros h1 h2 Hin1 Hin2.
        apply list_elem_of_In, Hall, Nat.eqb_eq in Hin1.
        apply list_elem_of_In, Hall, Nat.eqb_eq in Hin2. congruence.
      * by intros t [= <-].
    + split; [done|]. split; [done|]. split; [|done].
      split; [done|]. intros [_ Hsame]. exfalso.
      apply not_true_iff_false in Hall. apply Hall.
      apply forallb_forall. intros h Hin. apply Nat.eqb_eq.
      apply Hsame; [by apply list_elem_of_In | left].
  - split; [done|]. split; [done|]. split; [|done].
    split; [done|]. by intros [? _].
Qed.

(** C10, as the code has it.  When the constructor returns, the tuple
    holds exactly [TUPLE_SIZE] handles; and on every heap where the array
    the tuple refers to is still what it was then, [xor] does not throw
    [NoBlocksToXor].  The methods of the tuple read the heap and never
    write it (none returns a heap). *)
Theorem tuple_size_while_array_untouched (ref : ArrayRef) (heap : Heap)
    (t : BlockHandleTuple) :
  new_BlockHandleTuple ref heap = Ok t ->
  length (handles t heap) = TUPLE_SIZE /\
  forall (heap' : Heap),
    heap' (_handles t) = heap (_handles t) ->
    length (handles t heap') = TUPLE_SIZE /\
    forall (now : Z) (store : DiskBlockAsyncStore) (dest : IBlockMetadata.t) (d : Disk),
      fst (BlockHandleTuple_xor now t heap' store dest d)
        <> Throw (HandleTupleError HandleTupleErrorType.NoBlocksToXor).
Proof.
  intros Hnew.
  assert (Hlen : length (handles t heap) = TUPLE_SIZE).
  { unfold new_BlockHandleTuple in Hnew.
    destruct (Nat.eqb_spec (length (heap ref)) TUPLE_SIZE) as [Hlen|Hlen];
      simpl in Hnew; [|done].
    destruct (heap ref) as [|first rest] eqn:Hheap; [done|].
    destruct (forallb _ (first :: rest)); simpl in Hnew; [|done].
    injection Hnew as <-. unfold handles. simpl. by rewrite Hheap. }
  split; [done|]. intros heap' Hsame.
  assert (Hlen' : length (handles t heap') = TUPLE_SIZE).
  { unfold handles in *. by rewrite Hsame. }
  split; [done|]. intros now store dest d.
  unfold BlockHandleTuple_xor, BlockHandleTuple_xor_block.
  pose proof TUPLE_SIZE_pos.
  destruct (handles t heap') as [|h hs]; [simpl in Hlen'; lia|].
  simpl length. simpl Nat.eqb. cbv iota.
  destruct (loadBlockData (h :: hs) d) as [blockData|] eqn:Hload; simpl.
  - destruct (xorBlockData blockData) as [result|] eqn:Hxor; simpl.
    + destruct (setData _ _ _ _) as [[?|?] ?]; simpl; done.
    + destruct blockData as [|first rest]; [simpl in Hxor; by injection Hxor as <-|].
      simpl in Hxor. intros [= Heq]. rewrite Heq in Hxor.
      clear -Hxor. revert first Hxor.
      induction rest as [|current rest IH]; intros first; simpl; [done|].
      destruct (negb _); [done|]. apply IH.
  - unfold loadBlockData in Hload. intros [= Heq]. rewrite Heq in Hload.
    clear -Hload. revert Hload. generalize (h :: hs).
    induction l as [|x l IH]; simpl; [done|].
    destruct (BlockHandle.data x d); simpl; [|done].
    destruct (mapResult _ l); [done|]. intros [= ->]. by apply IH.
Qed.

(** *** Hexadecimal text *)

Lemma fromHex_byteToHex (b : byte) (rest : string) :
  fromHex (byteToHex b +:+ rest) = b :: fromHex rest.
Proof. destruct b; reflexivity. Qed.

(** [Buffer.from(buf.toString('hex'), 'hex')] is [buf]. *)
Lemma fromHex_toHex (b : Buffer) : fromHex (toHex b) = b.
Proof.
  induction b as [|x b IH]; [done|].
  simpl toHex. by rewrite fromHex_byteToHex, IH.
Qed.

(** The transport keeps only whole pairs of digits: a share with an odd
    number of digits does not come back as it went in. *)
Example hex_transport_drops_odd_digit : toHex (fromHex "8f1") = "8f"%string.
Proof. reflexivity. Qed.

(** *** Sealing *)


Lemma asShortHexGuid_ids (members : list BrightChainMember.t) :
  GuidV4.asShortHexGuid <$> (BrightChainMember.id <$> members)
  = BrightChainMember.asShortHexGuid <$> members.
Proof. by rewrite <- list_fmap_compose. Qed.




Lemma reinitSecrets_Ok (maxShares : Z) :
  (MinimumShares <= maxShares <= MaximumShares)%Z ->
  reinitSecrets maxShares = Ok (Z.max 3 (Z.log2_up maxShares)).
Proof.
  unfold reinitSecrets, MinimumShares, MaximumShares. intros [Hlo Hhi].
  destruct (Z.ltb_spec maxShares 2); [lia|].
  destruct (Z.ltb_spec 1048575 maxShares); [lia|]. simpl.
  assert (Z.log2_up maxShares <= 20)%Z.
  { change 20%Z with (Z.log2_up 1048575). by apply Z.log2_up_le_mono. }
  destruct (Z.ltb_spec (Z.max 3 (Z.log2_up maxShares)) 3); [lia|].
  destruct (Z.ltb_spec 20 (Z.max 3 (Z.log2_up maxShares))); [lia|]. done.
Qed.

(** What [quorumSeal] has done when it returns a record. *)
Lemma quorumSeal_Ok (agent : BrightChainMember.t) (v : T)
    (members : list BrightChainMember.t) (sharesRequired : option Z)
    (rng rng' : RandomSource) (record : QuorumDataRecord.t) :
  quorumSeal agent v members sharesRequired rng = (Ok record, rng') ->
  let t := default (Z.of_nat (length members)) sharesRequired in
  (MinimumShares <= t <= Z.of_nat (length members))%Z /\
  (Z.of_nat (length members) <= MaximumShares)%Z /\
  exists key encryptedData rng1 bits keyShares rng2 emap,
    symmetricEncryptJson v rng = ((key, encryptedData), rng1) /\
    reinitSecrets (Z.of_nat (length members)) = Ok bits /\
    secrets_share bits (toHex key) (length members) t rng1 = (Ok keyShares, rng2) /\
    encryptSharesForMembers keyShares members rng2 = (Ok emap, rng') /\
    record = QuorumDataRecord.new agent (map BrightChainMember.asShortHexGuid members) t
               encryptedData emap.
Proof.
  unfold quorumSeal, validateQuorumSealInputs.
  destruct (Z.ltb_spec (Z.of_nat (length members)) MinimumShares); [done|].
  destruct (Z.ltb_spec MaximumShares (Z.of_nat (length members))); [done|].
  destruct (Z.ltb_spec (default (Z.of_nat (length members)) sharesRequired) MinimumShares);
    [done|].
  destruct (Z.ltb_spec (Z.of_nat (length members))
              (default (Z.of_nat (length members)) sharesRequired)); [done|].
  simpl.
  destruct (symmetricEncryptJson v rng) as [[key encryptedData] rng1].
  destruct (reinitSecrets _) as [bits|]; [|done].
  destruct (secrets_share _ _ _ _ _) as [[keyShares|] rng2] eqn:Hshare; [|done].
  destruct (encryptSharesForMembers _ _ _) as [[emap|] rng3] eqn:Hencrypt; [|done].
  intros [= <- <-]. split; [lia|]. split; [lia|].
  by exists key, encryptedData, rng1, bits, keyShares, rng2, emap.
Qed.


(* =================================================================== *)
(** ** Further properties of the store *)
(* =================================================================== *)

Lemma mkdirSync_recursive_grows (now : Z) (rest : list string) :
  forall (parent : list string) (d d' : gmap (list string) Inode) (r : Result unit),
    mkdirSync_recursive now parent rest d = (r, d') -> d ⊆ d'.
Proof.
  induction rest as [|name rest IH]; intros parent d d' r; simpl.
  - by intros [= _ <-].
  - destruct (d !! (parent ++ [name])) as [[contents birthtime|birthtime]|] eqn:Hentry.
    + by intros [= _ <-].
    + apply IH.
    + intros Hrec. apply IH in Hrec.
      etrans; [|exact Hrec]. by apply insert_subseteq.
Qed.

Lemma mkdirSync_recursive_deeper (now : Z) (rest : list string) :
  forall (parent q : list string) (d d' : gmap (list string) Inode) (r : Result unit),
    mkdirSync_recursive now parent rest d = (r, d') ->
    length parent + length rest < length q ->
    d' !! q = d !! q.
Proof.
  induction rest as [|name rest IH]; intros parent q d d' r; simpl.
  - by intros [= _ <-].
  - intros Hrec Hlen.
    assert (Hne : parent ++ [name] <> q).
    { intros <-. rewrite length_app in Hlen. simpl in Hlen. lia. }
    assert (Hlen' : length (parent ++ [name]) + length rest < length q).
    { rewrite length_app. simpl. lia. }
    destruct (d !! (parent ++ [name])) as [[contents birthtime|birthtime]|] eqn:Hentry.
    + by injection Hrec as _ <-.
    + by apply (IH _ _ _ _ _ Hrec).
    + rewrite (IH _ _ _ _ _ Hrec Hlen'). by apply lookup_insert_ne.
Qed.

(** [mkdirSync_recursive], when it succeeds, leaves a directory at the full
    path. *)
Lemma mkdirSync_recursive_Ok (now : Z) (rest : list string) :
  forall (parent : list string) (d d' : gmap (list string) Inode) (u : unit),
    mkdirSync_recursive now parent rest d = (Ok u, d') ->
    isDirectory parent d = true ->
    isDirectory (parent ++ rest) d' = true.
Proof.
  induction rest as [|name rest IH]; intros parent d d' u; simpl.
  - intros [= _ <-]. by rewrite app_nil_r.
  - replace (parent ++ name :: rest) with ((parent ++ [name]) ++ rest)
      by (by rewrite <- app_assoc).
    destruct (d !! (parent ++ [name])) as [[contents birthtime|birthtime]|] eqn:Hentry.
    + done.
    + intros Hrec _. apply (IH _ _ _ _ Hrec).
      unfold isDirectory. rewrite Hentry. by destruct (parent ++ [name]).
    + intros Hrec _. apply (IH _ _ _ _ Hrec).
      unfold isDirectory. rewrite lookup_insert_eq. by destruct (parent ++ [name]).
Qed.

(** What a successful [setData] does to the disk: it makes the missing
    directories of the shard and adds the file, born now. *)
Lemma setData_Ok_disk (now : Z) (store : DiskBlockAsyncStore) (block : RawDataBlock.t)
    (d d' : gmap (list string) Inode) (u : unit) :
  setData now store block d = (Ok u, d') ->
  exists d1 : gmap (list string) Inode,
    d ⊆ d1 /\
    d1 !! blockPath store (RawDataBlock.idChecksum block) = None /\
    isDirectory (blockDir store (RawDataBlock.idChecksum block)) d1 = true /\
    d' = <[blockPath store (RawDataBlock.idChecksum block)
           := File (RawDataBlock.data block) now]> d1.
Proof.
  unfold setData.
  destruct (Nat.eqb_spec (RawDataBlock.blockSize block) (_blockSize store)) as [Hsize|Hsize];
    simpl; [|done].
  destruct (existsSync _ d) eqn:Hexists; [done|].
  apply existsSync_false in Hexists.
  destruct (validate now block) as [?|?]; [|done].
  unfold ensureBlockPath.
  destruct (mkdirSync_recursive now [] (blockDir store (RawDataBlock.idChecksum block)) d)
    as [[u1|e1] d1] eqn:Hmkdir; simpl; [|done].
  assert (Hfree : d1 !! blockPath store (RawDataBlock.idChecksum block) = None).
  { rewrite (mkdirSync_recursive_deeper _ _ _ _ _ _ _ Hmkdir); [done|].
    unfold blockPath. rewrite length_app. simpl. lia. }
  assert (Hdir : isDirectory (blockDir store (RawDataBlock.idChecksum block)) d1 = true).
  { by apply (mkdirSync_recursive_Ok _ _ _ _ _ _ Hmkdir). }
  unfold writeFileSync. rewrite Hfree.
  assert (Hparent : dirname (blockPath store (RawDataBlock.idChecksum block))
                    = blockDir store (RawDataBlock.idChecksum block)).
  { unfold dirname, blockPath. rewrite length_app. simpl.
    replace (length (blockDir store (RawDataBlock.idChecksum block)) + 1 - 1)
      with (length (blockDir store (RawDataBlock.idChecksum block))) by lia.
    by rewrite take_app_length. }
  rewrite Hparent, Hdir. simpl. intros [= <-].
  exists d1. split; [|done]. by apply (mkdirSync_recursive_grows _ _ _ _ _ _ Hmkdir).
Qed.

(** Whatever [setData] does, nothing that was on the disk is changed or
    removed. *)
Lemma setData_grows (now : Z) (store : DiskBlockAsyncStore) (block : RawDataBlock.t)
    (d d' : gmap (list string) Inode) (r : Result unit) :
  setData now store block d = (r, d') -> d ⊆ d'.
Proof.
  destruct r as [u|e].
  - intros Hok. apply setData_Ok_disk in Hok as (d1 & Hsub & Hfree & _ & ->).
    etrans; [exact Hsub|]. by apply insert_subseteq.
  - unfold setData.
    destruct (RawDataBlock.blockSize block =? _blockSize store); simpl;
      [|by intros [= _ <-]].
    destruct (existsSync _ d); [by intros [= _ <-]|].
    destruct (validate now block) as [?|?]; [|by intros [= _ <-]].
    unfold ensureBlockPath.
    destruct (mkdirSync_recursive now [] (blockDir store (RawDataBlock.idChecksum block)) d)
      as [[u1|e1] d1] eqn:Hmkdir; simpl.
    + destruct (writeFileSync _ _ _ d1) as [[?|?] d2] eqn:Hwrite; simpl; [done|].
      intros [= _ <-]. unfold writeFileSync in Hwrite.
      apply mkdirSync_recursive_grows in Hmkdir.
      destruct (d1 !! _) as [[?|?]|]; [done| by injection Hwrite as _ <- |].
      destruct (isDirectory _ d1); [done|]. by injection Hwrite as _ <-.
    + intros [= _ <-]. by apply (mkdirSync_recursive_grows _ _ _ _ _ _ Hmkdir).
Qed.

Lemma getData_mono (store : DiskBlockAsyncStore) (key : list byte)
    (d d' : gmap (list string) Inode) (b : RawDataBlock.t) :
  d ⊆ d' -> getData store key d = Ok b -> getData store key d' = Ok b.
Proof.
  intros Hsub. unfold getData.
  destruct (existsSync _ d) eqn:Hexists; simpl; [|done].
  apply existsSync_true in Hexists as [entry Hentry].
  pose proof (lookup_weaken _ _ _ _ Hentry Hsub) as Hentry'.
  assert (existsSync (blockPath store key) d' = true) as ->.
  { apply existsSync_true. by rewrite Hentry'. }
  simpl. unfold readFileSync, statSync_birthtime. by rewrite Hentry, Hentry'.
Qed.

(** X3.  [setData] only ever adds to the disk: whether it succeeds or
    throws, every entry that was there is still there unchanged, so a key
    that [has] found is still found and a block that [getData] returned is
    returned again. *)
Theorem setData_keeps_what_is_stored (now : Z) (store : DiskBlockAsyncStore)
    (block : RawDataBlock.t) (d : gmap (list string) Inode) :
  let d' := snd (setData now store block d) in
  (forall (p : list string) (entry : Inode), d !! p = Some entry -> d' !! p = Some entry) /\
  (forall key : list byte, has store key d = true -> has store key d' = true) /\
  (forall (key : list byte) (b : RawDataBlock.t),
     getData store key d = Ok b -> getData store key d' = Ok b).
Proof.
  intros d'.
  assert (Hsub : d ⊆ d').
  { subst d'. destruct (setData now store block d) as [r d1] eqn:Hset.
    by apply setData_grows in Hset. }
  split; [|split].
  - intros p entry Hentry. by eapply lookup_weaken.
  - intros key. unfold has. rewrite !existsSync_true. intros [entry Hentry].
    exists entry. by eapply lookup_weaken.
  - intros key b. by apply getData_mono.
Qed.

Lemma getData_file (store : DiskBlockAsyncStore) (key : list byte)
    (d : gmap (list string) Inode) (contents : list byte) (birthtime : Z) :
  d !! blockPath store key = Some (File contents birthtime) ->
  getData store key d
  = if length contents =? _blockSize store
    then Ok (RawDataBlock.new (_blockSize store) contents (DateMs birthtime) key
               BlockType.RawData BlockDataType.EphemeralStructuredData true true)
    else Throw (StoreError StoreErrorType.BlockFileSizeMismatch).
Proof.
  intros Hfile. unfold getData.
  assert (existsSync (blockPath store key) d = true) as ->.
  { apply existsSync_true. by rewrite Hfile. }
  simpl. unfold readFileSync, statSync_birthtime. rewrite Hfile. simpl.
  by destruct (length contents =? _blockSize store).
Qed.

(** X4.  [getData] returns a block exactly when a file of [blockSize] bytes
    is at the path of the key.  The block carries the bytes of the file, the
    birth time of the file as its creation date and the requested key as
    its [idChecksum]: the checksum of the bytes is not recomputed.  A
    directory at the path comes out as the error of the file system, not as
    a [StoreError]. *)
Theorem getData_reads_the_file (store : DiskBlockAsyncStore) (key : list byte)
    (d : gmap (list string) Inode) :
  (forall b : RawDataBlock.t,
     getData store key d = Ok b <->
     exists (contents : list byte) (birthtime : Z),
       d !! blockPath store key = Some (File contents birthtime) /\
       length contents = _blockSize store /\
       b = RawDataBlock.new (_blockSize store) contents (DateMs birthtime) key
             BlockType.RawData BlockDataType.EphemeralStructuredData true true) /\
  (forall birthtime : Z,
     d !! blockPath store key = Some (Directory birthtime) ->
     getData store key d = Throw (SystemError "EISDIR")).
Proof.
  split.
  - intros b. split.
    + destruct (d !! blockPath store key) as [[contents birthtime|birthtime]|] eqn:Hentry.
      * rewrite (getData_file _ _ _ _ _ Hentry).
        destruct (Nat.eqb_spec (length contents) (_blockSize store)) as [Hlen|Hlen];
          [|done].
        intros [= <-]. by exists contents, birthtime.
      * unfold getData.
        assert (existsSync (blockPath store key) d = true) as ->.
        { apply existsSync_true. by rewrite Hentry. }
        simpl. unfold readFileSync. by rewrite Hentry.
      * unfold getData.
        assert (existsSync (blockPath store key) d = false) as ->
          by by apply existsSync_false.
        done.
    + intros (contents & birthtime & Hfile & Hlen & ->).
      rewrite (getData_file _ _ _ _ _ Hfile), Hlen, Nat.eqb_refl. done.
  - intros birthtime Hdir. unfold getData.
    assert (existsSync (blockPath store key) d = true) as ->.
    { apply existsSync_true. by rewrite Hdir. }
    simpl. unfold readFileSync. by rewrite Hdir.
Qed.

(** X5.  What comes back from the store after a successful [setData] of a
    block whose data fill its block size: the same bytes under the same
    checksum, as a raw block of the store's size whose creation date is the
    time of the write and whose data type is [EphemeralStructuredData],
    whatever date and types the stored block had. *)
Theorem setData_then_getData_block (now : Z) (store : DiskBlockAsyncStore)
    (block : RawDataBlock.t) (d d' : gmap (list string) Inode) (u : unit) :
  setData now store block d = (Ok u, d') ->
  length (RawDataBlock.data block) = RawDataBlock.blockSize block ->
  getData store (RawDataBlock.idChecksum block) d'
  = Ok (RawDataBlock.new (_blockSize store) (RawDataBlock.data block) (DateMs now)
          (RawDataBlock.idChecksum block) BlockType.RawData
          BlockDataType.EphemeralStructuredData true true).
Proof.
  intros Hok Hfull.
  pose proof (setData_Ok _ _ _ _ _ _ Hok) as [(Hsize & _ & _) _].
  apply setData_Ok_disk in Hok as (d1 & _ & _ & _ & ->).
  rewrite (getData_file _ _ _ (RawDataBlock.data block) now)
    by apply lookup_insert_eq.
  by rewrite Hfull, Hsize, Nat.eqb_refl.
Qed.

(* =================================================================== *)
(** ** Further properties of the tuple *)
(* =================================================================== *)

Lemma loadBlockData_mono (hs : list BlockHandle.t) (d d' : gmap (list string) Inode) :
  d ⊆ d' ->
  forall blockData, loadBlockData hs d = Ok blockData -> loadBlockData hs d' = Ok blockData.
Proof.
  intros Hsub. unfold loadBlockData.
  induction hs as [|h hs IH]; intros blockData; simpl; [done|].
  unfold BlockHandle.data at 1 3.
  destruct (BlockHandle.path h) as [p|]; simpl; [|done].
  unfold readFileSync.
  destruct (d !! p) as [[contents birthtime|birthtime]|] eqn:Hentry; simpl; [|done..].
  rewrite (lookup_weaken _ _ _ _ Hentry Hsub). simpl.
  destruct (mapResult _ hs) as [rest|] eqn:Hrest; [|done].
  by rewrite (IH _ eq_refl).
Qed.

(** The block that [BlockHandleTuple.xor] builds depends on the disk only
    through the files of the handles. *)
Lemma BlockHandleTuple_xor_block_mono (now : Z) (t : BlockHandleTuple) (heap : Heap)
    (dest : IBlockMetadata.t) (d d' : gmap (list string) Inode) (block : RawDataBlock.t) :
  d ⊆ d' ->
  BlockHandleTuple_xor_block now t heap dest d = Ok block ->
  BlockHandleTuple_xor_block now t heap dest d' = Ok block.
Proof.
  intros Hsub. unfold BlockHandleTuple_xor_block.
  destruct (length (handles t heap) =? 0); [done|].
  destruct (loadBlockData (handles t heap) d) as [blockData|] eqn:Hload; [|done].
  by rewrite (loadBlockData_mono _ _ _ Hsub _ Hload).
Qed.

(** The block built by [BlockHandleTuple.xor]: everything but its date
    comes from the handles and their files. *)
Lemma BlockHandleTuple_xor_block_Ok (now : Z) (t : BlockHandleTuple) (heap : Heap)
    (dest : IBlockMetadata.t) (d : gmap (list string) Inode) (block : RawDataBlock.t) :
  BlockHandleTuple_xor_block now t heap dest d = Ok block ->
  exists (first : BlockHandle.t) (rest : list BlockHandle.t) (blockData : list (list byte)),
    handles t heap = first :: rest /\
    loadBlockData (handles t heap) d = Ok blockData /\
    xorBlockData blockData = Ok (RawDataBlock.data block) /\
    block = RawDataBlock.new (BlockHandle.blockSize first) (RawDataBlock.data block)
              (RawDataBlock.dateCreated block)
              (calculateChecksum (RawDataBlock.data block))
              BlockType.RawData BlockDataType.RawData true true.
Proof.
  unfold BlockHandleTuple_xor_block.
  destruct (handles t heap) as [|first rest] eqn:Hhandles; [done|].
  simpl length. simpl Nat.eqb. cbv iota.
  destruct (loadBlockData (first :: rest) d) as [blockData|] eqn:Hload; [|done].
  simpl. destruct (xorBlockData blockData) as [result|] eqn:Hxor; [|done].
  simpl. intros [= <-]. simpl. by exists first, rest, blockData.
Qed.

(** [BlockHandleTuple.xor] returns a handle only after [setData] has stored
    the block. *)
Lemma BlockHandleTuple_xor_Ok (now : Z) (t : BlockHandleTuple) (heap : Heap)
    (store : DiskBlockAsyncStore) (dest : IBlockMetadata.t)
    (d d' : gmap (list string) Inode) (h : BlockHandle.t) :
  BlockHandleTuple_xor now t heap store dest d = (Ok h, d') ->
  exists block : RawDataBlock.t,
    BlockHandleTuple_xor_block now t heap dest d = Ok block /\
    setData now store block d = (Ok (), d') /\
    h = get store (RawDataBlock.idChecksum block).
Proof.
  unfold BlockHandleTuple_xor.
  destruct (BlockHandleTuple_xor_block now t heap dest d) as [block|] eqn:Hblock; [|done].
  destruct (setData now store block d) as [[[]|e] d1] eqn:Hset; simpl; [|done].
  intros [= <- <-]. by exists block.
Qed.

(** X6.  When [BlockHandleTuple.xor] returns a handle, the XOR of the data
    of the handles is on the disk, in a file at the path of its checksum;
    the handle is the store's handle for that checksum and reads those
    bytes back; and the size of the handles is the block size of the store. *)
Theorem BlockHandleTuple_xor_stores_the_result (now : Z) (t : BlockHandleTuple)
    (heap : Heap) (store : DiskBlockAsyncStore) (dest : IBlockMetadata.t)
    (d d' : gmap (list string) Inode) (h : BlockHandle.t) :
  BlockHandleTuple_xor now t heap store dest d = (Ok h, d') ->
  exists (blockData : list (list byte)) (result : list byte),
    loadBlockData (handles t heap) d = Ok blockData /\
    xorBlockData blockData = Ok result /\
    h = get store (calculateChecksum result) /\
    d' !! blockPath store (calculateChecksum result) = Some (File result now) /\
    BlockHandle.data h d' = Ok result /\
    (forall first, head (handles t heap) = Some first ->
       BlockHandle.blockSize first = _blockSize store).
Proof.
  intros Hxor.
  apply BlockHandleTuple_xor_Ok in Hxor as (block & Hblock & Hset & ->).
  apply BlockHandleTuple_xor_block_Ok in Hblock
    as (first & rest & blockData & Hhandles & Hload & Hresult & Hshape).
  pose proof (setData_Ok _ _ _ _ _ _ Hset) as [(Hsize & _ & _) _].
  apply setData_Ok_disk in Hset as (d1 & _ & _ & _ & ->).
  assert (Hsum : RawDataBlock.idChecksum block
                 = calculateChecksum (RawDataBlock.data block)) by by rewrite Hshape.
  exists blockData, (RawDataBlock.data block).
  rewrite <- Hsum.
  split; [done|]. split; [done|]. split; [done|].
  split; [apply lookup_insert_eq|]. split.
  - unfold get, BlockHandle.data. simpl. unfold readFileSync.
    by rewrite lookup_insert_eq.
  - intros first' Hhead. rewrite Hhandles in Hhead. injection Hhead as <-.
    rewrite <- Hsize. by rewrite Hshape.
Qed.

(** X7.  [BlockHandleTuple.xor] cannot be repeated: once it has stored its
    result, the same tuple on the resulting disk fails with the plain error
    "Failed to store XOR result", whose cause is [BlockPathAlreadyExists],
    and the disk stays as it is. *)
Theorem BlockHandleTuple_xor_twice (now now' : Z) (t : BlockHandleTuple) (heap : Heap)
    (store : DiskBlockAsyncStore) (dest dest' : IBlockMetadata.t)
    (d d' : gmap (list string) Inode) (h : BlockHandle.t) :
  BlockHandleTuple_xor now t heap store dest d = (Ok h, d') ->
  BlockHandleTuple_xor now' t heap store dest' d'
  = (Throw (WrappedError "Failed to store XOR result"
              (StoreError StoreErrorType.BlockPathAlreadyExists)), d').
Proof.
  intros Hxor.
  apply BlockHandleTuple_xor_Ok in Hxor as (block & Hblock & Hset & ->).
  pose proof (setData_grows _ _ _ _ _ _ Hset) as Hsub.
  pose proof (setData_Ok _ _ _ _ _ _ Hset) as [(Hsize & _ & _) [birthtime Hfile]].
  apply BlockHandleTuple_xor_block_Ok in Hblock
    as (first & rest & blockData & Hhandles & Hload & Hresult & Hshape).
  unfold BlockHandleTuple_xor, BlockHandleTuple_xor_block.
  rewrite Hhandles in Hload |- *. simpl length. simpl Nat.eqb. cbv iota.
  rewrite (loadBlockData_mono _ _ _ Hsub _ Hload). simpl.
  rewrite Hresult. simpl.
  match goal with |- context [setData now' store ?b d'] => set (again := b) end.
  destruct (setData_existing now' store again d') as (reason & Hthrow & Hreason).
  { subst again. simpl. replace (calculateChecksum (RawDataBlock.data block))
      with (RawDataBlock.idChecksum block) by by rewrite Hshape.
    by rewrite Hfile. }
  rewrite Hthrow. simpl. rewrite Hreason; [done|].
  subst again. simpl. rewrite <- Hsize. by rewrite Hshape.
Qed.

Lemma xorLoop_Throw (rest : list (list byte)) : forall (result : list byte) (e : Error),
  xorLoop result rest = Throw e ->
  e = HandleTupleError HandleTupleErrorType.BlockSizesMustMatch.
Proof.
  induction rest as [|current rest IH]; intros result e; simpl; [done|].
  destruct (negb _); [by intros [= <-]|]. apply IH.
Qed.

Lemma loadBlockData_Throw (hs : list BlockHandle.t) (d : gmap (list string) Inode)
    (e : Error) :
  loadBlockData hs d = Throw e ->
  exists cause, e = WrappedError "Failed to load block" cause.
Proof.
  unfold loadBlockData. induction hs as [|h hs IH]; simpl; [done|].
  destruct (BlockHandle.data h d) as [contents|cause]; simpl.
  - destruct (mapResult _ hs) as [rest|e']; [done|]. intros [= <-]. by apply IH.
  - intros [= <-]. by exists cause.
Qed.

(** Every error of [setData] is a [StoreError]. *)
Lemma setData_Throw (now : Z) (store : DiskBlockAsyncStore) (block : RawDataBlock.t)
    (d d' : gmap (list string) Inode) (e : Error) :
  setData now store block d = (Throw e, d') ->
  exists reason, e = StoreError reason.
Proof.
  unfold setData.
  destruct (RawDataBlock.blockSize block =? _blockSize store); simpl;
    [|intros [= <- _]; eauto].
  destruct (existsSync _ d); [intros [= <- _]; eauto|].
  destruct (validate now block) as [?|?]; [|intros [= <- _]; eauto].
  unfold ensureBlockPath.
  destruct (mkdirSync_recursive _ _ _ d) as [[u1|e1] d1]; simpl.
  - destruct (writeFileSync _ _ _ d1) as [[?|?] d2]; simpl; [done|].
    intros [= <- _]; eauto.
  - intros [= <- _]; eauto.
Qed.

(** X8.  The errors of [BlockHandleTuple.xor]: [NoBlocksToXor] for a tuple
    without handles, the plain error "Failed to load block" when the data of
    a handle cannot be read, [BlockSizesMustMatch] when the loaded data
    differ in length, and the plain error "Failed to store XOR result"
    around the [StoreError] of the store.  A [StoreError] never comes out
    unwrapped, and in the first three cases the disk is as it was. *)
Theorem BlockHandleTuple_xor_failures (now : Z) (t : BlockHandleTuple) (heap : Heap)
    (store : DiskBlockAsyncStore) (dest : IBlockMetadata.t)
    (d d' : gmap (list string) Inode) (e : Error) :
  BlockHandleTuple_xor now t heap store dest d = (Throw e, d') ->
  (e = HandleTupleError HandleTupleErrorType.NoBlocksToXor /\
   handles t heap = [] /\ d' = d) \/
  (exists cause, e = WrappedError "Failed to load block" cause /\ d' = d) \/
  (e = HandleTupleError HandleTupleErrorType.BlockSizesMustMatch /\ d' = d) \/
  (exists reason,
     e = WrappedError "Failed to store XOR result" (StoreError reason) /\ d ⊆ d').
Proof.
  unfold BlockHandleTuple_xor.
  destruct (BlockHandleTuple_xor_block now t heap dest d) as [block|e0] eqn:Hblock.
  - destruct (setData now store block d) as [[[]|e1] d1] eqn:Hset; simpl; [done|].
    intros [= <- <-]. right. right. right.
    destruct (setData_Throw _ _ _ _ _ _ Hset) as [reason ->].
    exists reason. split; [done|]. by apply setData_grows in Hset.
  - intros [= <- <-]. unfold BlockHandleTuple_xor_block in Hblock.
    destruct (handles t heap) as [|first rest] eqn:Hhandles.
    { left. simpl in Hblock. by injection Hblock as <-. }
    simpl length in Hblock. simpl Nat.eqb in Hblock. cbv iota in Hblock.
    destruct (loadBlockData (first :: rest) d) as [blockData|e1] eqn:Hload; simpl in Hblock.
    + destruct (xorBlockData blockData) as [result|e2] eqn:Hxor; simpl in Hblock; [done|].
      injection Hblock as <-. right. right. left. split; [|done].
      pose proof (mapResult_length _ _ _ Hload) as Hlen.
      destruct blockData as [|firstData restData]; [done|].
      by apply xorLoop_Throw in Hxor.
    + injection Hblock as <-. right. left.
      destruct (loadBlockData_Throw _ _ _ Hload) as [cause ->]. by exists cause.
Qed.

(** X9.  [blockIdsBuffer] is the identifiers of the handles one after the
    other: when every identifier has the same width [w], the buffer has
    [w] bytes per handle and the identifier of handle [i] is the slice
    [i * w .. (i + 1) * w) of it. *)
Theorem blockIdsBuffer_slices (t : BlockHandleTuple) (heap : Heap) (w : nat) :
  Forall (fun h => length (BlockHandle.idChecksum h) = w) (handles t heap) ->
  length (blockIdsBuffer t heap) = length (handles t heap) * w /\
  forall (i : nat) (h : BlockHandle.t),
    handles t heap !! i = Some h ->
    take w (drop (i * w) (blockIdsBuffer t heap)) = BlockHandle.idChecksum h.
Proof.
  unfold blockIdsBuffer, blockIds.
  induction (handles t heap) as [|h0 hs IH]; intros Hwidth.
  - split; [done|]. intros i h Hi. by rewrite lookup_nil in Hi.
  - apply Forall_cons in Hwidth as [Hw Hrest].
    destruct (IH Hrest) as [Hlen Hslice].
    split.
    + simpl. rewrite length_app, Hlen, Hw. done.
    + intros [|i] h Hi; simpl in Hi |- *.
      * injection Hi as <-. rewrite drop_0, take_app_length'; done.
      * rewrite (drop_app_add' _ _ w (i * w)) by done. by apply Hslice.
Qed.

(* =================================================================== *)
(** ** Further properties of sealing *)
(* =================================================================== *)

(** X10.  [validateQuorumSealInputs] accepts exactly the lists of 2 to
    1048575 members with a number of required shares (the number of members
    when none is given) between 2 and the number of members; fewer than 2
    members is [NotEnoughMembersToUnlock], more than 1048575 is
    [TooManyMembersToUnlock], and a number of required shares outside the
    range is [NotEnoughMembersToUnlock] again. *)
Theorem validateQuorumSealInputs_spec (amongstMembers : list BrightChainMember.t)
    (sharesRequired : option Z) :
  let n := Z.of_nat (length amongstMembers) in
  let t := default n sharesRequired in
  (validateQuorumSealInputs amongstMembers sharesRequired = Ok () <->
   (2 <= n <= 1048575 /\ 2 <= t <= n)%Z) /\
  ((n < 2)%Z ->
   validateQuorumSealInputs amongstMembers sharesRequired
   = Throw (SealingError SealingErrorType.NotEnoughMembersToUnlock)) /\
  ((1048575 < n)%Z ->
   validateQuorumSealInputs amongstMembers sharesRequired
   = Throw (SealingError SealingErrorType.TooManyMembersToUnlock)) /\
  ((2 <= n <= 1048575)%Z -> (t < 2 \/ n < t)%Z ->
   validateQuorumSealInputs amongstMembers sharesRequired
   = Throw (SealingError SealingErrorType.NotEnoughMembersToUnlock)) /\
  (sharesRequired = None -> (2 <= n <= 1048575)%Z ->
   validateQuorumSealInputs amongstMembers sharesRequired = Ok ()).
Proof.
  intros n t. unfold validateQuorumSealInputs, MinimumShares, MaximumShares.
  fold n. fold t.
  destruct (Z.ltb_spec n 2); [repeat split; (done || lia)|].
  destruct (Z.ltb_spec 1048575 n); [repeat split; (done || lia)|].
  destruct (Z.ltb_spec t 2); simpl.
  { repeat split; try (done || lia). intros -> _. subst t. simpl in *. lia. }
  destruct (Z.ltb_spec n t); simpl.
  { repeat split; try (done || lia). intros -> _. subst t. simpl in *. lia. }
  repeat split; (done || lia).
Qed.

(** X11.  [reinitSecrets] accepts exactly 2 to 1048575 shares.  It then
    configures [max(3, ceil(log2(maxShares)))] bits, which is between 3 and
    20 (the second [InvalidBitRange] test never fires) and enough for
    [maxShares <= 2^bits]; for a power of two [2^k] with [3 <= k <= 19] it
    configures exactly [k] bits, one value short of [2^bits - 1 >= maxShares]. *)
Theorem reinitSecrets_spec (maxShares : Z) :
  ((2 <= maxShares <= 1048575)%Z ->
   exists bits,
     reinitSecrets maxShares = Ok bits /\
     bits = Z.max 3 (Z.log2_up maxShares) /\
     (3 <= bits <= 20)%Z /\ (maxShares <= 2 ^ bits)%Z) /\
  ((maxShares < 2 \/ 1048575 < maxShares)%Z ->
   reinitSecrets maxShares = Throw (SealingError SealingErrorType.InvalidBitRange)) /\
  (forall k : Z, (3 <= k <= 19)%Z ->
     reinitSecrets (2 ^ k) = Ok k /\ (2 ^ k - 1 < 2 ^ k)%Z).
Proof.
  split; [|split].
  - intros Hrange. exists (Z.max 3 (Z.log2_up maxShares)).
    split; [by apply reinitSecrets_Ok|]. split; [done|].
    assert (Z.log2_up maxShares <= 20)%Z.
    { change 20%Z with (Z.log2_up 1048575). apply Z.log2_up_le_mono. lia. }
    split; [lia|].
    etrans; [apply Z.log2_up_spec; lia|].
    apply Z.pow_le_mono_r; lia.
  - intros Hout. unfold reinitSecrets, MinimumShares, MaximumShares.
    destruct (Z.ltb_spec maxShares 2); [done|].
    destruct (Z.ltb_spec 1048575 maxShares); [done|]. lia.
  - intros k Hk.
    assert (Hpow : (2 ^ 3 <= 2 ^ k <= 2 ^ 19)%Z).
    { split; apply Z.pow_le_mono_r; lia. }
    split; [|lia].
    rewrite reinitSecrets_Ok
      by (unfold MinimumShares, MaximumShares;
          change (2 ^ 3)%Z with 8%Z in Hpow; change (2 ^ 19)%Z with 524288%Z in Hpow; lia).
    rewrite Z.log2_up_pow2 by lia. f_equal. lia.
Qed.

Lemma size_list_to_set_bound (l : list string) :
  size (list_to_set l : gset string) <= length l.
Proof.
  induction l as [|x l IH].
  - change (list_to_set [] : gset string) with (∅ : gset string).
    rewrite size_empty. simpl. lia.
  - change (list_to_set (x :: l) : gset string)
      with ({[x]} ∪ list_to_set l : gset string).
    rewrite size_union_alt, size_singleton. simpl.
    assert (size (list_to_set l ∖ {[x]} : gset string) <= size (list_to_set l : gset string))
      by (apply subseteq_size, subseteq_difference_l; done).
    lia.
Qed.

Lemma encryptSharesLoop_dom (members : list BrightChainMember.t)
    (work : list (GuidV4.t * string)) :
  forall (acc emap : gmap string (list byte)) (rng rng' : RandomSource),
    encryptSharesLoop members work acc rng = (Ok emap, rng') ->
    dom emap = dom acc ∪ list_to_set (GuidV4.asShortHexGuid <$> work.*1).
Proof.
  induction work as [|[memberId share] work IH]; intros acc emap rng rng'; simpl.
  - intros [= <- _]. by rewrite (right_id_L ∅ (∪)).
  - destruct (find _ members) as [member|] eqn:Hfind; [|done].
    destruct (ECIES_encrypt _ _ rng) as [[encrypted|?] rng1]; [|done].
    assert (Hid : BrightChainMember.id member = memberId).
    { apply find_some in Hfind as [_ Hid]. by apply bool_decide_eq_true in Hid. }
    intros Hloop. apply IH in Hloop. rewrite Hloop, dom_insert_L.
    unfold BrightChainMember.asShortHexGuid. rewrite Hid.
    rewrite (comm_L (∪) {[GuidV4.asShortHexGuid memberId]} (dom acc)).
    by rewrite <- (assoc_L (∪)).
Qed.

Lemma encryptSharesLoop_Throw (members : list BrightChainMember.t)
    (work : list (GuidV4.t * string)) :
  forall (acc : gmap string (list byte)) (rng rng' : RandomSource) (e : Error),
    (forall memberId, memberId ∈ work.*1 -> memberId ∈ BrightChainMember.id <$> members) ->
    encryptSharesLoop members work acc rng = (Throw e, rng') ->
    exists publicKey message ra rb, ECIES_encrypt publicKey message ra = (Throw e, rb).
Proof.
  induction work as [|[memberId share] work IH]; intros acc rng rng' e Hknown; simpl;
    [done|].
  destruct (find _ members) as [member|] eqn:Hfind.
  - destruct (ECIES_encrypt _ _ rng) as [[encrypted|e1] rng1] eqn:Hencrypt.
    + apply IH. intros k Hk. apply Hknown. simpl. by right.
    + intros [= <- <-]. eauto.
  - intros _. exfalso.
    assert (Hin : memberId ∈ BrightChainMember.id <$> members)
      by (apply Hknown; simpl; left).
    apply list_elem_of_fmap in Hin as (m & Hid & Hm).
    apply list_elem_of_In in Hm.
    pose proof (find_none _ _ Hfind m Hm) as Hno. simpl in Hno.
    apply bool_decide_eq_false in Hno. by apply Hno.
Qed.

Lemma encryptSharesForMembers_dom (shares : list string)
    (members : list BrightChainMember.t) (rng rng' : RandomSource)
    (emap : gmap string (list byte)) :
  encryptSharesForMembers shares members rng = (Ok emap, rng') ->
  dom emap = list_to_set (BrightChainMember.asShortHexGuid <$> members).
Proof.
  unfold encryptSharesForMembers.
  destruct (Nat.eqb_spec (length shares) (length members)) as [Hlen|Hlen]; simpl; [|done].
  intros Hok. apply encryptSharesLoop_dom in Hok.
  rewrite fst_zip in Hok by (rewrite length_map; lia).
  change (map BrightChainMember.id members) with (BrightChainMember.id <$> members) in Hok.
  by rewrite asShortHexGuid_ids, dom_empty_L, (left_id_L ∅ (∪)) in Hok.
Qed.

(** X12.  [encryptSharesForMembers] fails with [NotEnoughMembersToUnlock]
    when there are not as many shares as members, and otherwise only with
    an error thrown by the ECIES encryption: its [MemberNotFound] branch is
    never taken.  When it succeeds, the map has exactly the identifiers of
    the members as keys, hence at most one entry per member. *)
Theorem encryptSharesForMembers_outcomes (shares : list string)
    (members : list BrightChainMember.t) (rng : RandomSource) :
  (length shares <> length members ->
   encryptSharesForMembers shares members rng
   = (Throw (SealingError SealingErrorType.NotEnoughMembersToUnlock), rng)) /\
  (forall (e : Error) (rng' : RandomSource),
     length shares = length members ->
     encryptSharesForMembers shares members rng = (Throw e, rng') ->
     exists publicKey message ra rb, ECIES_encrypt publicKey message ra = (Throw e, rb)) /\
  (forall (emap : gmap string (list byte)) (rng' : RandomSource),
     encryptSharesForMembers shares members rng = (Ok emap, rng') ->
     dom emap = list_to_set (BrightChainMember.asShortHexGuid <$> members) /\
     size emap <= length members).
Proof.
  unfold encryptSharesForMembers.
  destruct (Nat.eqb_spec (length shares) (length members)) as [Hlen|Hlen]; simpl.
  - assert (Hkeys : (zip (map BrightChainMember.id members) shares).*1
                    = BrightChainMember.id <$> members).
    { apply fst_zip. rewrite length_map. lia. }
    split; [done|]. split.
    + intros e rng' _ Hthrow.
      apply encryptSharesLoop_Throw in Hthrow; [done|]. by rewrite Hkeys.
    + intros emap rng' Hok. apply encryptSharesLoop_dom in Hok.
      rewrite Hkeys, asShortHexGuid_ids, dom_empty_L, union_empty_l_L in Hok.
      split; [done|].
      rewrite <- size_dom, Hok.
      etrans; [apply size_list_to_set_bound|]. by rewrite length_fmap.
  - split; [done|]. split; [done|]. done.
Qed.

(** X13.  The record that [quorumSeal] returns names the agent, lists the
    identifiers of the members in their order, requires the given number of
    shares (the number of members when none is given), which lies between 2
    and the number of members, carries the ciphertext of the symmetric
    encryption, and holds an encrypted share under exactly the identifiers
    of the members. *)
Theorem quorumSeal_record (agent : BrightChainMember.t) (v : T)
    (members : list BrightChainMember.t) (sharesRequired : option Z)
    (rng rng' : RandomSource) (record : QuorumDataRecord.t) :
  quorumSeal agent v members sharesRequired rng = (Ok record, rng') ->
  QuorumDataRecord.agent record = agent /\
  QuorumDataRecord.memberIds record = map BrightChainMember.asShortHexGuid members /\
  QuorumDataRecord.sharesRequired record
    = default (Z.of_nat (length members)) sharesRequired /\
  (2 <= QuorumDataRecord.sharesRequired record <= Z.of_nat (length members))%Z /\
  (Z.of_nat (length members) <= 1048575)%Z /\
  QuorumDataRecord.encryptedData record = snd (fst (symmetricEncryptJson v rng)) /\
  dom (QuorumDataRecord.encryptedSharesByMemberId record)
    = list_to_set (BrightChainMember.asShortHexGuid <$> members).
Proof.
  intros Hseal. apply quorumSeal_Ok in Hseal. cbv zeta in Hseal.
  destruct Hseal
    as (Ht & Hmax & key & encryptedData & rng1 & bits & keyShares & rng2 & emap
        & Hsym & Hbits & Hshare & Hencrypt & ->).
  simpl. rewrite Hsym. simpl.
  unfold MinimumShares, MaximumShares in *.
  repeat split; try done; try lia.
  by apply encryptSharesForMembers_dom in Hencrypt.
Qed.

Lemma mapResult_Throw {A B} (f : A -> Result B) (items : list A) (e : Error) :
  mapResult f items = Throw e -> exists x, x ∈ items /\ f x = Throw e.
Proof.
  induction items as [|x items IH]; simpl; [done|].
  destruct (f x) as [y|e'] eqn:Hfx.
  - destruct (mapResult f items) as [ys|e'']; [done|].
    intros [= <-]. destruct (IH eq_refl) as (x' & Hin & Hthrow).
    exists x'. split; [by right|done].
  - intros [= <-]. exists x. split; [left|done].
Qed.

Lemma quoromUnsealWithShares_Throw (document : QuorumDataRecord.t)
    (recoveredShares : list string) (e : Error) :
  quoromUnsealWithShares document recoveredShares = Throw e ->
  e = SealingError SealingErrorType.FailedToSeal.
Proof.
  unfold quoromUnsealWithShares, tryCatch.
  destruct (_ ≫= _); [done|]. by intros [= <-].
Qed.

(** X14.  How [quorumUnseal] fails.  With fewer members than the record
    requires it is [NotEnoughMembersToUnlock]; with enough members of whom
    one has no private key loaded it is [MissingPrivateKeys]; with enough
    members, all with keys, of whom the first is not in the record it is
    [EncryptedShareNotFound].  Every error of [quorumUnseal] is one of
    these three, [FailedToSeal], or an error thrown by the ECIES decryption
    of a share, which comes out as it is. *)
Theorem quorumUnseal_failures (document : QuorumDataRecord.t)
    (membersWithPrivateKey : list BrightChainMember.t) :
  let enough :=
    (QuorumDataRecord.sharesRequired document
       <= Z.of_nat (length membersWithPrivateKey))%Z in
  (~ enough ->
   quorumUnseal document membersWithPrivateKey
   = Throw (SealingError SealingErrorType.NotEnoughMembersToUnlock)) /\
  (enough ->
   (exists m, m ∈ membersWithPrivateKey /\ BrightChainMember.privateKey m = None) ->
   quorumUnseal document membersWithPrivateKey
   = Throw (SealingError SealingErrorType.MissingPrivateKeys)) /\
  (forall first rest,
     enough -> membersWithPrivateKey = first :: rest ->
     allMembersHavePrivateKey membersWithPrivateKey = true ->
     QuorumDataRecord.encryptedSharesByMemberId document !! BrightChainMember.asShortHexGuid first
       = None ->
     quorumUnseal document membersWithPrivateKey
     = Throw (SealingError SealingErrorType.EncryptedShareNotFound)) /\
  (forall e : Error,
     quorumUnseal document membersWithPrivateKey = Throw e ->
     e = SealingError SealingErrorType.NotEnoughMembersToUnlock \/
     e = SealingError SealingErrorType.MissingPrivateKeys \/
     e = SealingError SealingErrorType.EncryptedShareNotFound \/
     e = SealingError SealingErrorType.FailedToSeal \/
     exists privateKey encrypted, ECIES_decryptWithHeader privateKey encrypted = Throw e).
Proof.
  intros enough. subst enough. unfold quorumUnseal, decryptShares.
  destruct (Z.ltb_spec (Z.of_nat (length membersWithPrivateKey))
              (QuorumDataRecord.sharesRequired document)) as [Hfew|Henough].
  { split; [done|]. split; [lia|]. split; [lia|]. intros e [= <-]. by left. }
  split; [lia|].
  destruct (allMembersHavePrivateKey membersWithPrivateKey) eqn:Hloaded; simpl.
  - split.
    { intros _ (m & Hin & Hnone). exfalso.
      unfold allMembersHavePrivateKey in Hloaded. rewrite forallb_forall in Hloaded.
      apply list_elem_of_In, Hloaded in Hin.
      unfold BrightChainMember.privateKeyLoaded in Hin. rewrite Hnone in Hin.
      apply bool_decide_eq_true in Hin. by destruct Hin. }
    split.
    { intros first rest _ -> _ Hmissing. simpl. by rewrite Hmissing. }
    intros e.
    destruct (mapResult _ membersWithPrivateKey) as [recoveredShares|e1] eqn:Hmap; simpl.
    + intros Hthrow. apply quoromUnsealWithShares_Throw in Hthrow. auto.
    + intros [= <-]. apply mapResult_Throw in Hmap as (m & Hin & Hthrow).
      destruct (QuorumDataRecord.encryptedSharesByMemberId document !! BrightChainMember.asShortHexGuid m)
        as [encrypted|]; [|injection Hthrow as <-; auto].
      destruct (BrightChainMember.privateKey m) as [privateKey|] eqn:Hkey.
      * destruct (ECIES_decryptWithHeader privateKey encrypted) as [share|e2] eqn:Hdecrypt;
          simpl in Hthrow; [done|].
        injection Hthrow as <-. right. right. right. right. eauto.
      * exfalso. unfold allMembersHavePrivateKey in Hloaded.
        rewrite forallb_forall in Hloaded. apply list_elem_of_In, Hloaded in Hin.
        unfold BrightChainMember.privateKeyLoaded in Hin. rewrite Hkey in Hin.
        apply bool_decide_eq_true in Hin. by destruct Hin.
  - split; [done|]. split.
    { intros first rest _ _ Hall. done. }
    intros e [= <-]. auto.
Qed.

(** X15.  [quorumSeal] does not ask the members to be different.  When all
    of them carry one and the same identifier (a member listed several
    times), sealing can succeed, and the record it gives cannot be opened:
    its map has a single entry, and [quorumUnseal] throws for every list of
    members. *)
Theorem quorumSeal_same_member_never_unseals (agent : BrightChainMember.t) (v : T)
    (members : list BrightChainMember.t) (sharesRequired : option Z)
    (rng rng' : RandomSource) (record : QuorumDataRecord.t) :
  (forall m m', m ∈ members -> m' ∈ members ->
     BrightChainMember.asShortHexGuid m = BrightChainMember.asShortHexGuid m') ->
  quorumSeal agent v members sharesRequired rng = (Ok record, rng') ->
  size (QuorumDataRecord.encryptedSharesByMemberId record) = 1 /\
  forall membersWithPrivateKey : list BrightChainMember.t,
    exists e, quorumUnseal record membersWithPrivateKey = Throw e.
Proof.
  intros Hsame Hseal. apply quorumSeal_Ok in Hseal. cbv zeta in Hseal.
  destruct Hseal
    as (Ht & Hmax & key & encryptedData & rng1 & bits & keyShares & rng2 & emap
        & Hsym & Hbits & Hshare & Hencrypt & ->).
  apply encryptSharesForMembers_dom in Hencrypt. simpl.
  destruct members as [|m0 rest]; [unfold MinimumShares in Ht; simpl in Ht; lia|].
  assert (Hsize : size emap = 1).
  { rewrite <- size_dom, Hencrypt.
    assert (Hset : (list_to_set (BrightChainMember.asShortHexGuid <$> m0 :: rest) : gset string)
                   = {[BrightChainMember.asShortHexGuid m0]}).
    { apply set_eq. intros k. rewrite elem_of_list_to_set, elem_of_singleton. split.
      - intros Hk. apply list_elem_of_fmap in Hk as (m & -> & Hm).
        apply Hsame; [done|left].
      - intros ->. apply list_elem_of_fmap_2. left. }
    rewrite Hset. apply size_singleton. }
  split; [done|]. intros S. unfold quorumUnseal.
  destruct (_ <? _)%Z; [eauto|].
  destruct (decryptShares _ S) as [recoveredShares|e]; simpl; [|eauto].
  unfold quoromUnsealWithShares. simpl. rewrite Hsize. simpl. eauto.
Qed.

(* =================================================================== *)
(** ** Further properties of [from] *)
(* =================================================================== *)

Lemma paddedBuffer_full (rng : RandomSource) (blockSize : nat) (data : list byte) :
  length data = blockSize -> paddedBuffer rng blockSize data = data.
Proof.
  intros Hfull. unfold paddedBuffer.
  rewrite drop_ge by (rewrite randomBytes_length; lia). by rewrite app_nil_r.
Qed.

(** X16.  Data that already fill the block go through [from] unchanged: no
    byte of the random buffer is left in the block, so whatever the random
    source, a block that comes out has exactly the supplied bytes and their
    checksum, and a supplied checksum other than the checksum of the
    supplied bytes is rejected with a [ChecksumMismatchError] that carries
    the two. *)
Theorem from_full_size_data (now : Z) (rng : RandomSource)
    (type : BlockType.t) (dataType : BlockDataType.t) (data : list byte)
    (checksum : option (list byte)) (creator : option string)
    (dateCreated : option JsDate) (actualDataLength : option Z)
    (canRead canPersist : bool) :
  lengthsAccepted (length data) data actualDataLength ->
  let result :=
    fst (from now rng type dataType (length data) data checksum creator dateCreated
           actualDataLength canRead canPersist) in
  (forall b : EncryptedBlock.t,
     result = Ok b ->
     EncryptedBlock.data b = data /\
     EncryptedBlock.idChecksum b = calculateChecksum data) /\
  (forall supplied : list byte,
     checksum = Some supplied -> supplied <> calculateChecksum data ->
     result = Throw (ChecksumMismatchError (calculateChecksum data) supplied)).
Proof.
  intros Haccepted result. subst result.
  rewrite from_lengthsAccepted by done. cbv zeta.
  rewrite paddedBuffer_full by done.
  split.
  - intros b. destruct checksum as [supplied|].
    + case_bool_decide as Hsame; [|done]. intros Hok.
      apply new_EncryptedBlock_Ok in Hok as (-> & -> & _). done.
    + intros Hok. apply new_EncryptedBlock_Ok in Hok as (-> & -> & _). done.
  - intros supplied -> Hdiffers. case_bool_decide; [congruence|done].
Qed.

(* =================================================================== *)
(** ** Properties of [getRandomBlocks] *)
(* =================================================================== *)

Lemma childName_Some (p q : list string) (name : string) :
  childName p q = Some name <-> q = p ++ [name].
Proof.
  unfold childName. split.
  - destruct (drop (length p) q) as [|x [|y rest]] eqn:Hdrop; [done| |done].
    case_decide as Htake; [|done]. intros [= <-].
    by rewrite <- (take_drop (length p) q), Htake, Hdrop.
  - intros ->. rewrite drop_app_length.
    by rewrite decide_True by apply take_app_length.
Qed.

Lemma readdirSync_Ok_elem (p : list string) (d : gmap (list string) Inode)
    (names : list string) (name : string) :
  readdirSync p d = Ok names ->
  name ∈ names <-> is_Some (d !! (p ++ [name])).
Proof.
  unfold readdirSync. destruct (isDirectory p d); [|by destruct (d !! p)].
  intros [= <-]. rewrite list_elem_of_omap. split.
  - intros (q & Hq & Hchild). apply childName_Some in Hchild as ->.
    apply list_elem_of_fmap in Hq as ([q entry] & -> & Hentry).
    apply elem_of_map_to_list in Hentry. simpl. by rewrite Hentry.
  - intros [entry Hentry]. exists (p ++ [name]). split.
    + apply list_elem_of_fmap. exists (p ++ [name], entry).
      split; [done|]. by apply elem_of_map_to_list.
    + by apply childName_Some.
Qed.

Lemma randomIndex_lookup {A} (l : list A) (r : MathRandom) :
  0 < length l -> is_Some (l !! fst (randomIndex (length l) r)).
Proof.
  intros Hpos. apply lookup_lt_is_Some_2. unfold randomIndex. simpl.
  destruct (length l) as [|n] eqn:Hlen; [lia|].
  apply Nat.mod_upper_bound. lia.
Qed.

(** The loop of [getRandomBlocks] keeps three things true of the blocks
    picked so far: each comes from a block file, there are no more of them
    than were asked for, and together with the directories still in play
    they are no more than the directories the loop started with. *)
Lemma randomBlocksLoop_Ok (store : DiskBlockAsyncStore) (d : gmap (list string) Inode)
    (count : Z) (total : nat) (fuel : nat) :
  forall (blocks : list (list byte)) (firstLevelDirs : list string) (r : MathRandom)
         (result : list (list byte)),
    randomBlocksLoop fuel store d count blocks firstLevelDirs r = Some (Ok result) ->
    Forall (fromBlockFile store d) blocks ->
    (Z.of_nat (length blocks) <= Z.max 0 count)%Z ->
    length blocks <= total ->
    ((Z.of_nat (length blocks) < count)%Z -> length blocks + length firstLevelDirs <= total) ->
    Forall (fromBlockFile store d) result /\
    (Z.of_nat (length result) <= Z.max 0 count)%Z /\
    length result <= total.
Proof.
  induction fuel as [|fuel IH]; intros blocks fl r result; cbn [randomBlocksLoop].
  - destruct (_ && _); [done|]. intros [= <-]. by intros; repeat split.
  - destruct (Z.ltb_spec (Z.of_nat (length blocks)) count) as [Hmore|Hdone]; cbn [andb];
      [|intros [= <-]; by intros; repeat split].
    destruct (Nat.ltb_spec 0 (length fl)) as [Hdirs|Hnone]; cbn [andb];
      [|intros [= <-]; by intros; repeat split].
    destruct (randomIndex (length fl) r) as [i r1] eqn:Hi. cbv beta iota.
    destruct (fl !! i) as [firstDir|] eqn:Hfirst; [|done].
    assert (Hdeleted : length (delete i fl) = length fl - 1).
    { rewrite length_delete; [done|]. by rewrite Hfirst. }
    destruct (existsSync (basePath store ++ [firstDir]) d) eqn:Hexists1; cbn [negb].
    2:{ intros Hloop Hprov Hcount Htotal Hinv.
        apply (IH _ _ _ _ Hloop); [done..|]. intros _. rewrite Hdeleted. lia. }
    destruct (readdirSync (basePath store ++ [firstDir]) d) as [secondLevelDirs|e]
      eqn:Hsecond; [|done].
    destruct (Nat.eqb_spec (length secondLevelDirs) 0) as [Hempty|Hnonempty].
    { intros Hloop Hprov Hcount Htotal Hinv.
      apply (IH _ _ _ _ Hloop); [done..|]. intros _. rewrite Hdeleted. lia. }
    destruct (randomIndex (length secondLevelDirs) r1) as [j r2] eqn:Hj. cbv beta iota.
    destruct (secondLevelDirs !! j) as [secondDir|] eqn:Hsecond'; [|done].
    destruct (existsSync ((basePath store ++ [firstDir]) ++ [secondDir]) d) eqn:Hexists2;
      cbn [negb].
    2:{ intros Hloop Hprov Hcount Htotal Hinv. by apply (IH _ _ _ _ Hloop). }
    destruct (readdirSync ((basePath store ++ [firstDir]) ++ [secondDir]) d) as [files|e]
      eqn:Hfiles; [|done].
    destruct (Nat.eqb_spec
                (length (List.filter (fun file => negb (endsWith file ".m.json")) files)) 0)
      as [Hnofiles|Hsomefiles].
    { intros Hloop Hprov Hcount Htotal Hinv. by apply (IH _ _ _ _ Hloop). }
    destruct (randomIndex _ r2) as [k r3] eqn:Hk. cbv beta iota.
    destruct (List.filter _ files !! k) as [blockFile|] eqn:Hblock; [|done].
    intros Hloop Hprov Hcount Htotal Hinv.
    specialize (Hinv Hmore).
    apply (IH _ _ _ _ Hloop).
    + apply Forall_app. split; [done|]. apply Forall_singleton.
      apply list_elem_of_lookup_2, list_elem_of_In, filter_In in Hblock as [Hin Hsuffix].
      apply list_elem_of_In in Hin.
      apply (readdirSync_Ok_elem _ _ _ _ Hfiles) in Hin.
      rewrite <- !app_assoc in Hin. simpl in Hin.
      apply existsSync_true in Hexists1, Hexists2.
      rewrite <- app_assoc in Hexists2. simpl in Hexists2.
      exists firstDir, secondDir, blockFile. repeat split; try done.
      by apply negb_true_iff in Hsuffix.
    + rewrite length_app. simpl. lia.
    + rewrite length_app. simpl. lia.
    + rewrite length_app. simpl. intros Hstill.
      destruct (Z.ltb_spec (Z.of_nat (length blocks + 1)) count); [|lia].
      rewrite Hdeleted. lia.
Qed.

Lemma randomBlocksLoop_done (fuel : nat) (store : DiskBlockAsyncStore)
    (d : gmap (list string) Inode) (count : Z) (blocks : list (list byte))
    (firstLevelDirs : list string) (r : MathRandom) :
  (count <= Z.of_nat (length blocks))%Z \/ firstLevelDirs = [] ->
  randomBlocksLoop fuel store d count blocks firstLevelDirs r = Some (Ok blocks).
Proof.
  intros Hdone.
  assert (((Z.of_nat (length blocks) <? count)%Z && (0 <? length firstLevelDirs)) = false)
    as Hcond.
  { destruct Hdone as [Hcount| ->].
    - apply andb_false_iff. left. by apply Z.ltb_ge.
    - apply andb_false_iff. by right. }
  destruct fuel; cbn [randomBlocksLoop]; by rewrite Hcond.
Qed.

Lemma readdirSync_Ok_exists (p : list string) (d : gmap (list string) Inode)
    (names : list string) :
  p <> [] -> readdirSync p d = Ok names -> existsSync p d = true.
Proof.
  unfold readdirSync, isDirectory. intros Hp.
  destruct p as [|x p]; [done|]. rewrite existsSync_true.
  destruct (d !! (x :: p)) as [[contents birth|birth]|]; by eauto.
Qed.

Lemma basePath_nonempty (store : DiskBlockAsyncStore) : basePath store <> [].
Proof. unfold basePath. by destruct (_storePath store). Qed.

(** X17.  What [getRandomBlocks] returns: every checksum is the name, read
    as hexadecimal, of an entry two directories below the base path that is
    not a metadata sidecar; there are no more checksums than were asked
    for; and there are no more of them than the base path has entries,
    however many blocks the store holds. *)
Theorem getRandomBlocks_results (fuel : nat) (store : DiskBlockAsyncStore) (count : Z)
    (d : gmap (list string) Inode) (r : MathRandom) (result : list (list byte)) :
  getRandomBlocks fuel store count d r = Some (Ok result) ->
  Forall (fromBlockFile store d) result /\
  (Z.of_nat (length result) <= Z.max 0 count)%Z /\
  (forall firstLevelDirs : list string,
     readdirSync (basePath store) d = Ok firstLevelDirs ->
     length result <= length firstLevelDirs).
Proof.
  unfold getRandomBlocks. cbv zeta.
  destruct (existsSync (basePath store) d) eqn:Hbase; cbn [negb].
  - destruct (readdirSync (basePath store) d) as [firstLevelDirs|e] eqn:Hlist; [|done].
    intros Hloop.
    destruct (randomBlocksLoop_Ok store d count (length firstLevelDirs) fuel
                [] firstLevelDirs r result Hloop) as (Hfrom & Hcount & Htotal).
    + done.
    + simpl. lia.
    + simpl. lia.
    + simpl. lia.
    + split; [done|]. split; [done|]. by intros ? [= <-].
  - intros [= <-]. split; [done|]. split; [simpl; lia|]. intros; simpl; lia.
Qed.

Lemma randomBlocksLoop_spins (store : DiskBlockAsyncStore) (d : gmap (list string) Inode)
    (count : Z) (fuel : nat) :
  noShardHoldsABlock store d ->
  forall (blocks : list (list byte)) (firstLevelDirs : list string) (r : MathRandom),
    Forall (fun firstDir => is_Some (d !! (basePath store ++ [firstDir]))) firstLevelDirs ->
    (Z.of_nat (length blocks) < count)%Z ->
    firstLevelDirs <> [] ->
    randomBlocksLoop fuel store d count blocks firstLevelDirs r = None.
Proof.
  intros Hnone. induction fuel as [|fuel IH]; intros blocks fl r Hlisted Hmore Hfl;
    cbn [randomBlocksLoop].
  - apply Z.ltb_lt in Hmore as ->. destruct fl; [done|]. done.
  - assert (0 < length fl) as Hpos by (destruct fl; [done|simpl; lia]).
    apply Z.ltb_lt in Hmore as Hmore'. rewrite Hmore'.
    apply Nat.ltb_lt in Hpos as Hpos'. rewrite Hpos'. cbn [andb].
    pose proof (randomIndex_lookup fl r Hpos) as [firstDir Hfirst].
    destruct (randomIndex (length fl) r) as [i r1] eqn:Hi. cbv beta iota.
    cbn [fst] in Hfirst. rewrite Hfirst.
    apply list_elem_of_lookup_2 in Hfirst.
    pose proof (proj1 (Forall_forall _ _) Hlisted firstDir Hfirst) as Hthere.
    destruct (Hnone firstDir Hthere) as (secondLevelDirs & Hsecond & Hnonempty & Hfiles).
    apply existsSync_true in Hthere. rewrite Hthere. cbn [negb].
    rewrite Hsecond.
    assert (0 < length secondLevelDirs) as Hpos2
      by (destruct secondLevelDirs; [done|simpl; lia]).
    destruct (Nat.eqb_spec (length secondLevelDirs) 0) as [Hzero|_]; [lia|].
    pose proof (randomIndex_lookup secondLevelDirs r1 Hpos2) as [secondDir Hsecond'].
    destruct (randomIndex (length secondLevelDirs) r1) as [j r2] eqn:Hj. cbv beta iota.
    cbn [fst] in Hsecond'. rewrite Hsecond'.
    apply list_elem_of_lookup_2 in Hsecond'.
    destruct (Hfiles secondDir Hsecond') as (files & Hlist & Hfiltered).
    apply (readdirSync_Ok_elem _ _ _ _ Hsecond), existsSync_true in Hsecond'.
    rewrite Hsecond'. cbn [negb].
    rewrite <- app_assoc. cbn [app]. rewrite Hlist, Hfiltered. cbn [length Nat.eqb].
    by apply IH.
Qed.

(** X18.  [getRandomBlocks] does not return when the base path has entries
    but no block files: if every directory under the base path holds
    directories and none of these holds a file other than metadata
    sidecars, then a call that asks for at least one block never leaves
    its loop, whatever [Math.random] draws: the [continue] taken for a
    directory without block files removes nothing from [firstLevelDirs]. *)
Theorem getRandomBlocks_never_returns (store : DiskBlockAsyncStore)
    (d : gmap (list string) Inode) (count : Z) (firstLevelDirs : list string) :
  noShardHoldsABlock store d ->
  readdirSync (basePath store) d = Ok firstLevelDirs ->
  firstLevelDirs <> [] ->
  (0 < count)%Z ->
  forall (fuel : nat) (r : MathRandom), getRandomBlocks fuel store count d r = None.
Proof.
  intros Hnone Hlist Hfl Hcount fuel r. unfold getRandomBlocks. cbv zeta.
  rewrite (readdirSync_Ok_exists _ _ _ (basePath_nonempty store) Hlist). cbn [negb].
  rewrite Hlist. apply randomBlocksLoop_spins; [done| |simpl; lia|done].
  apply Forall_forall. intros firstDir Hin.
  by apply (readdirSync_Ok_elem _ _ _ _ Hlist).
Qed.

Lemma randomBlocksLoop_ends (store : DiskBlockAsyncStore) (d : gmap (list string) Inode)
    (count : Z) :
  everyShardHoldsABlock store d ->
  forall (fuel : nat) (blocks : list (list byte)) (firstLevelDirs : list string)
         (r : MathRandom),
    Forall (fun firstDir => is_Some (d !! (basePath store ++ [firstDir]))) firstLevelDirs ->
    length firstLevelDirs <= fuel ->
    exists result : list (list byte),
      randomBlocksLoop fuel store d count blocks firstLevelDirs r = Some (Ok result) /\
      Z.of_nat (length result) =
        Z.max (Z.of_nat (length blocks))
              (Z.min count (Z.of_nat (length blocks + length firstLevelDirs))).
Proof.
  intros Hevery. induction fuel as [|fuel IH]; intros blocks fl r Hlisted Hfuel.
  - exists blocks. split.
    + apply randomBlocksLoop_done. right. destruct fl; [done|simpl in Hfuel; lia].
    + destruct fl; [|simpl in Hfuel; lia]. simpl. lia.
  - destruct (Z.ltb_spec (Z.of_nat (length blocks)) count) as [Hmore|Hdone].
    2:{ exists blocks. split; [apply randomBlocksLoop_done; by left|lia]. }
    destruct (Nat.ltb_spec 0 (length fl)) as [Hpos|Hzero].
    2:{ exists blocks. split.
        - apply randomBlocksLoop_done. right. destruct fl; [done|simpl in Hzero; lia].
        - lia. }
    cbn [randomBlocksLoop].
    apply Z.ltb_lt in Hmore as Hmore'. rewrite Hmore'.
    apply Nat.ltb_lt in Hpos as Hpos'. rewrite Hpos'. cbn [andb].
    pose proof (randomIndex_lookup fl r Hpos) as [firstDir Hfirst].
    destruct (randomIndex (length fl) r) as [i r1] eqn:Hi. cbv beta iota.
    cbn [fst] in Hfirst. rewrite Hfirst.
    assert (Hdeleted : length (delete i fl) = length fl - 1).
    { rewrite length_delete; [done|]. by rewrite Hfirst. }
    apply list_elem_of_lookup_2 in Hfirst.
    pose proof (proj1 (Forall_forall _ _) Hlisted firstDir Hfirst) as Hthere.
    destruct (Hevery firstDir Hthere) as (secondLevelDirs & Hsecond & Hnonempty & Hfiles).
    apply existsSync_true in Hthere. rewrite Hthere. cbn [negb].
    rewrite Hsecond.
    assert (0 < length secondLevelDirs) as Hpos2
      by (destruct secondLevelDirs; [done|simpl; lia]).
    destruct (Nat.eqb_spec (length secondLevelDirs) 0) as [Hzero|_]; [lia|].
    pose proof (randomIndex_lookup secondLevelDirs r1 Hpos2) as [secondDir Hsecond'].
    destruct (randomIndex (length secondLevelDirs) r1) as [j r2] eqn:Hj. cbv beta iota.
    cbn [fst] in Hsecond'. rewrite Hsecond'.
    apply list_elem_of_lookup_2 in Hsecond'.
    destruct (Hfiles secondDir Hsecond') as (files & Hlist & Hfiltered).
    apply (readdirSync_Ok_elem _ _ _ _ Hsecond), existsSync_true in Hsecond'.
    rewrite Hsecond'. cbn [negb].
    rewrite <- app_assoc. cbn [app]. rewrite Hlist.
    set (blockFiles := List.filter (fun file => negb (endsWith file ".m.json")) files) in *.
    assert (0 < length blockFiles) as Hpos3
      by (destruct blockFiles; [done|simpl; lia]).
    destruct (Nat.eqb_spec (length blockFiles) 0) as [Hzero|_]; [lia|].
    pose proof (randomIndex_lookup blockFiles r2 Hpos3) as [blockFile Hblock].
    destruct (randomIndex (length blockFiles) r2) as [k r3] eqn:Hk. cbv beta iota.
    cbn [fst] in Hblock. rewrite Hblock.
    rewrite length_app. cbn [length].
    destruct (Z.ltb_spec (Z.of_nat (length blocks + 1)) count) as [Hstill|Henough].
    + destruct (IH (blocks ++ [fromHex blockFile]) (delete i fl) r3) as (result & Hloop & Hlen).
      * by apply Forall_delete.
      * lia.
      * exists result. split; [done|]. rewrite Hlen, length_app, Hdeleted. simpl. lia.
    + exists (blocks ++ [fromHex blockFile]). split.
      * apply randomBlocksLoop_done. left. rewrite length_app. simpl. lia.
      * rewrite length_app. simpl. lia.
Qed.

(** X19.  [getRandomBlocks] returns, and returns as many checksums as it
    can, when every directory under the base path holds directories and
    each of these holds a block file: the loop ends within as many turns as
    the base path has entries, and the result has [count] checksums, or one
    for each entry of the base path when there are fewer than [count] (and
    none for a negative [count]). *)
Theorem getRandomBlocks_returns (store : DiskBlockAsyncStore)
    (d : gmap (list string) Inode) (count : Z) (firstLevelDirs : list string)
    (fuel : nat) (r : MathRandom) :
  everyShardHoldsABlock store d ->
  readdirSync (basePath store) d = Ok firstLevelDirs ->
  length firstLevelDirs <= fuel ->
  exists result : list (list byte),
    getRandomBlocks fuel store count d r = Some (Ok result) /\
    Z.of_nat (length result) = Z.max 0 (Z.min count (Z.of_nat (length firstLevelDirs))).
Proof.
  intros Hevery Hlist Hfuel. unfold getRandomBlocks. cbv zeta.
  rewrite (readdirSync_Ok_exists _ _ _ (basePath_nonempty store) Hlist). cbn [negb].
  rewrite Hlist.
  destruct (randomBlocksLoop_ends store d count Hevery fuel [] firstLevelDirs r)
    as (result & Hloop & Hlen); [|done|].
  - apply Forall_forall. intros firstDir Hin.
    by apply (readdirSync_Ok_elem _ _ _ _ Hlist).
  - exists result. split; [done|]. rewrite Hlen. simpl. lia.
Qed.

(* =================================================================== *)
(** ** The shape of the store on the disk *)
(* =================================================================== *)

Lemma dirname_app (p : list string) (name : string) : dirname (p ++ [name]) = p.
Proof.
  unfold dirname. rewrite length_app. simpl.
  replace (length p + 1 - 1) with (length p) by lia. apply take_app_length.
Qed.

Lemma isDirectory_mono (p : list string) (d d' : gmap (list string) Inode) :
  d ⊆ d' -> isDirectory p d = true -> isDirectory p d' = true.
Proof.
  intros Hsub. unfold isDirectory. destruct p as [|x p]; [done|].
  destruct (d !! (x :: p)) as [[contents birth|birth]|] eqn:Hentry; [done| |done].
  by rewrite (lookup_weaken _ _ _ _ Hentry Hsub).
Qed.

Lemma isDirectory_is_Some (p : list string) (d : gmap (list string) Inode) :
  p <> [] -> isDirectory p d = true -> is_Some (d !! p).
Proof.
  unfold isDirectory. destruct p as [|x p]; [done|]. intros _.
  destruct (d !! (x :: p)) as [[contents birth|birth]|]; by eauto.
Qed.

Lemma isDirectory_lookup (p : list string) (d : gmap (list string) Inode) (birth : Z) :
  d !! p = Some (Directory birth) -> isDirectory p d = true.
Proof. unfold isDirectory. intros ->. by destruct p. Qed.

Lemma treeShaped_insert (d : gmap (list string) Inode) (p : list string) (e : Inode) :
  treeShaped d -> d !! p = None -> isDirectory (dirname p) d = true ->
  treeShaped (<[p := e]> d).
Proof.
  intros Htree Hfree Hparent q entry Hq.
  apply (isDirectory_mono _ d); [by apply insert_subseteq|].
  destruct (decide (q = p)) as [->|Hne]; [done|].
  rewrite lookup_insert_ne in Hq by done. by apply (Htree q entry).
Qed.

Lemma mkdirSync_recursive_treeShaped (now : Z) (rest : list string) :
  forall (parent : list string) (d d' : gmap (list string) Inode) (r : Result unit),
    mkdirSync_recursive now parent rest d = (r, d') ->
    treeShaped d -> isDirectory parent d = true -> treeShaped d'.
Proof.
  induction rest as [|name rest IH]; intros parent d d' r; simpl.
  - by intros [= _ <-].
  - destruct (d !! (parent ++ [name])) as [[contents birthtime|birthtime]|] eqn:Hentry.
    + by intros [= _ <-].
    + intros Hrec Htree _. apply (IH _ _ _ _ Hrec Htree).
      by apply (isDirectory_lookup _ _ birthtime).
    + intros Hrec Htree Hparent. apply (IH _ _ _ _ Hrec).
      * apply treeShaped_insert; [done..|]. by rewrite dirname_app.
      * apply (isDirectory_lookup _ _ now). by rewrite lookup_insert_eq.
Qed.

Lemma treeShaped_parent (d : gmap (list string) Inode) (p : list string) (name : string) :
  treeShaped d -> p <> [] -> is_Some (d !! (p ++ [name])) -> is_Some (d !! p).
Proof.
  intros Htree Hp [entry Hentry]. apply Htree in Hentry.
  rewrite dirname_app in Hentry. by apply isDirectory_is_Some.
Qed.

(** What [mkdirSync] adds to the disk: directories, born now, at the path
    it was asked to make and above. *)
Lemma mkdirSync_recursive_new (now : Z) (rest : list string) :
  forall (parent p : list string) (d d' : gmap (list string) Inode) (r : Result unit)
         (entry : Inode),
    mkdirSync_recursive now parent rest d = (r, d') ->
    d' !! p = Some entry ->
    d !! p = Some entry \/
    (entry = Directory now /\
     exists k : nat, k < length rest /\ p = parent ++ take (S k) rest).
Proof.
  induction rest as [|name rest IH]; intros parent p d d' r entry; simpl.
  - intros [= _ <-]. by left.
  - assert (Hstep : forall k : nat,
              k < length rest -> p = (parent ++ [name]) ++ take (S k) rest ->
              exists k' : nat, k' < S (length rest) /\
                               p = parent ++ name :: take k' rest).
    { intros k Hk ->. exists (S k). split; [lia|]. by rewrite <- app_assoc. }
    destruct (d !! (parent ++ [name])) as [[contents birthtime|birthtime]|] eqn:Hentry.
    + intros [= _ <-]. by left.
    + intros Hrec Hp. destruct (IH _ _ _ _ _ _ Hrec Hp) as [Hold|[-> (k & Hk & Hnew)]];
        [by left|right]. split; [done|]. by apply (Hstep k).
    + intros Hrec Hp. destruct (IH _ _ _ _ _ _ Hrec Hp) as [Hold|[-> (k & Hk & Hnew)]].
      * destruct (decide (parent ++ [name] = p)) as [<-|Hne].
        -- rewrite lookup_insert_eq in Hold. injection Hold as <-. right.
           split; [done|]. exists 0. split; [lia|]. by rewrite take_0.
        -- rewrite lookup_insert_ne in Hold by done. by left.
      * right. split; [done|]. by apply (Hstep k).
Qed.

Lemma blockDir_basePath (store : DiskBlockAsyncStore) (key : list byte) :
  blockDir store key
  = basePath store ++ [String.substring 0 2 (toHex key); String.substring 2 2 (toHex key)].
Proof. unfold blockDir, basePath. by rewrite <- app_assoc. Qed.

Lemma blockPath_basePath (store : DiskBlockAsyncStore) (key : list byte) :
  blockPath store key
  = basePath store ++ [String.substring 0 2 (toHex key); String.substring 2 2 (toHex key);
                       toHex key].
Proof. unfold blockPath. rewrite blockDir_basePath. by rewrite <- app_assoc. Qed.

(** The paths at and above the directory of a block: at or above the base
    path, or one of the two directories of the shard. *)
Lemma blockDir_take (store : DiskBlockAsyncStore) (key : list byte) (k : nat) :
  k < length (blockDir store key) ->
  length (take (S k) (blockDir store key)) <= length (basePath store) \/
  take (S k) (blockDir store key)
  = basePath store ++ [String.substring 0 2 (toHex key)] \/
  take (S k) (blockDir store key) = blockDir store key.
Proof.
  rewrite !blockDir_basePath, length_app. simpl. intros Hk.
  destruct (decide (S k <= length (basePath store))) as [Hshort|Hlong].
  - left. rewrite length_take. lia.
  - right. rewrite take_app.
    rewrite (take_ge (basePath store)) by lia.
    destruct (decide (S k - length (basePath store) = 1)) as [->|Hne]; [by left|].
    right. replace (S k - length (basePath store)) with 2 by lia. done.
Qed.

(** A successful [setData], step by step: the directories are made, the
    path of the block is still free, and the file is added. *)
Lemma setData_Ok_steps (now : Z) (store : DiskBlockAsyncStore) (block : RawDataBlock.t)
    (d d' : gmap (list string) Inode) (u : unit) :
  setData now store block d = (Ok u, d') ->
  exists (d1 : gmap (list string) Inode) (u1 : unit),
    mkdirSync_recursive now [] (blockDir store (RawDataBlock.idChecksum block)) d
    = (Ok u1, d1) /\
    d1 !! blockPath store (RawDataBlock.idChecksum block) = None /\
    isDirectory (blockDir store (RawDataBlock.idChecksum block)) d1 = true /\
    d' = <[blockPath store (RawDataBlock.idChecksum block)
           := File (RawDataBlock.data block) now]> d1.
Proof.
  unfold setData.
  destruct (Nat.eqb_spec (RawDataBlock.blockSize block) (_blockSize store)) as [Hsize|Hsize];
    simpl; [|done].
  destruct (existsSync _ d) eqn:Hexists; [done|].
  apply existsSync_false in Hexists.
  destruct (validate now block) as [?|?]; [|done].
  unfold ensureBlockPath.
  destruct (mkdirSync_recursive now [] (blockDir store (RawDataBlock.idChecksum block)) d)
    as [[u1|e1] d1] eqn:Hmkdir; simpl; [|done].
  assert (Hfree : d1 !! blockPath store (RawDataBlock.idChecksum block) = None).
  { rewrite (mkdirSync_recursive_deeper _ _ _ _ _ _ _ Hmkdir); [done|].
    unfold blockPath. rewrite length_app. simpl. lia. }
  assert (Hdir : isDirectory (blockDir store (RawDataBlock.idChecksum block)) d1 = true).
  { by apply (mkdirSync_recursive_Ok _ _ _ _ _ _ Hmkdir). }
  unfold writeFileSync. rewrite Hfree.
  unfold blockPath at 1. rewrite dirname_app, Hdir. simpl. intros [= <-].
  by exists d1, u1.
Qed.

Lemma hexDigit_not_dot (n : N) : hexDigit n <> "."%char.
Proof.
  unfold hexDigit. destruct n as [|p]; [done|].
  do 4 (try destruct p as [p|p|]); done.
Qed.

Lemma toHex_get (key : list byte) :
  forall i : nat, String.get i (toHex key) <> Some "."%char.
Proof.
  induction key as [|x key IH]; intros i; simpl; [by destruct i|].
  destruct i as [|[|i]]; simpl.
  - intros [= Hdot]. by apply hexDigit_not_dot in Hdot.
  - intros [= Hdot]. by apply hexDigit_not_dot in Hdot.
  - apply IH.
Qed.

(** The name of a block file is hexadecimal: it is not the name of a
    metadata sidecar. *)
Lemma endsWith_toHex (key : list byte) : endsWith (toHex key) ".m.json" = false.
Proof.
  unfold endsWith. cbv zeta.
  destruct (String.length (toHex key) <? String.length ".m.json"); [done|].
  apply String.eqb_neq. intros Hsub.
  apply (toHex_get key (0 + (String.length (toHex key) - String.length ".m.json"))).
  rewrite <- (substring_correct1 (toHex key) _ (String.length ".m.json") 0)
    by (simpl; lia).
  by rewrite Hsub.
Qed.

Lemma readdirSync_isDirectory (p : list string) (d : gmap (list string) Inode) :
  isDirectory p d = true -> exists names : list string, readdirSync p d = Ok names.
Proof. unfold readdirSync. intros ->. by eexists. Qed.

Lemma readdirSync_Ok_isDirectory (p : list string) (d : gmap (list string) Inode)
    (names : list string) :
  readdirSync p d = Ok names -> isDirectory p d = true.
Proof.
  unfold readdirSync. destruct (isDirectory p d); [done|]. by destruct (d !! p).
Qed.

(** [everyShardHoldsABlock], entry by entry. *)
Lemma everyShardHoldsABlock_alt (store : DiskBlockAsyncStore) (d : gmap (list string) Inode) :
  everyShardHoldsABlock store d <->
  forall firstDir : string,
    is_Some (d !! (basePath store ++ [firstDir])) ->
    isDirectory (basePath store ++ [firstDir]) d = true /\
    (exists secondDir : string, is_Some (d !! (basePath store ++ [firstDir; secondDir]))) /\
    forall secondDir : string,
      is_Some (d !! (basePath store ++ [firstDir; secondDir])) ->
      isDirectory (basePath store ++ [firstDir; secondDir]) d = true /\
      exists file : string,
        is_Some (d !! (basePath store ++ [firstDir; secondDir; file])) /\
        endsWith file ".m.json" = false.
Proof.
  assert (Hassoc1 : forall a b : string,
            (basePath store ++ [a]) ++ [b] = basePath store ++ [a; b])
    by (intros; by rewrite <- app_assoc).
  assert (Hassoc2 : forall a b c : string,
            (basePath store ++ [a; b]) ++ [c] = basePath store ++ [a; b; c])
    by (intros; by rewrite <- app_assoc).
  split.
  - intros Hevery firstDir Hfirst.
    destruct (Hevery firstDir Hfirst) as (names & Hlist & Hne & Hfiles).
    split; [by apply (readdirSync_Ok_isDirectory _ _ names)|]. split.
    + destruct names as [|secondDir names]; [done|]. exists secondDir.
      rewrite <- Hassoc1. apply (readdirSync_Ok_elem _ _ _ _ Hlist). by left.
    + intros secondDir Hsecond. rewrite <- Hassoc1 in Hsecond.
      apply (readdirSync_Ok_elem _ _ _ _ Hlist) in Hsecond.
      destruct (Hfiles secondDir Hsecond) as (files & Hlist2 & Hfiltered).
      split; [by apply (readdirSync_Ok_isDirectory _ _ files)|].
      destruct (List.filter _ files) as [|file rest] eqn:Hfilter; [done|].
      assert (Hin : In file (List.filter (fun file => negb (endsWith file ".m.json")) files))
        by (rewrite Hfilter; by left).
      apply filter_In in Hin as [Hin Hsuffix]. exists file. split.
      * rewrite <- Hassoc2. apply (readdirSync_Ok_elem _ _ _ _ Hlist2).
        by apply list_elem_of_In.
      * by apply negb_true_iff.
  - intros Halt firstDir Hfirst.
    destruct (Halt firstDir Hfirst) as (Hdir & [secondDir Hsecond] & Hall).
    destruct (readdirSync_isDirectory _ _ Hdir) as [names Hlist].
    exists names. split; [done|]. split.
    + rewrite <- Hassoc1 in Hsecond.
      apply (readdirSync_Ok_elem _ _ _ _ Hlist) in Hsecond. by destruct names; [inversion Hsecond|].
    + intros secondDir' Hin. apply (readdirSync_Ok_elem _ _ _ _ Hlist) in Hin.
      rewrite Hassoc1 in Hin.
      destruct (Hall secondDir' Hin) as (Hdir2 & file & Hfile & Hsuffix).
      destruct (readdirSync_isDirectory _ _ Hdir2) as [files Hlist2].
      exists files. split; [done|].
      rewrite <- Hassoc2 in Hfile. apply (readdirSync_Ok_elem _ _ _ _ Hlist2) in Hfile.
      assert (Hin' : In file (List.filter (fun file => negb (endsWith file ".m.json")) files)).
      { apply filter_In. split; [by apply list_elem_of_In|]. by apply negb_true_iff. }
      intros Hnil. by rewrite Hnil in Hin'.
Qed.

(** What a successful [setData] adds to the disk at a path below the base
    path: one of the two directories of the shard, or the file. *)
Lemma setData_Ok_new (now : Z) (store : DiskBlockAsyncStore) (block : RawDataBlock.t)
    (d d' : gmap (list string) Inode) (u : unit) (q : list string) :
  setData now store block d = (Ok u, d') ->
  q <> [] ->
  is_Some (d' !! (basePath store ++ q)) ->
  is_Some (d !! (basePath store ++ q)) \/
  q = [String.substring 0 2 (toHex (RawDataBlock.idChecksum block))] \/
  q = [String.substring 0 2 (toHex (RawDataBlock.idChecksum block));
       String.substring 2 2 (toHex (RawDataBlock.idChecksum block))] \/
  q = [String.substring 0 2 (toHex (RawDataBlock.idChecksum block));
       String.substring 2 2 (toHex (RawDataBlock.idChecksum block));
       toHex (RawDataBlock.idChecksum block)].
Proof.
  intros Hset Hq [entry Hentry].
  apply setData_Ok_steps in Hset as (d1 & u1 & Hmkdir & Hfree & Hdir & ->).
  destruct (decide (blockPath store (RawDataBlock.idChecksum block) = basePath store ++ q))
    as [Hfile|Hother].
  { rewrite blockPath_basePath in Hfile. apply app_inv_head in Hfile. auto. }
  rewrite lookup_insert_ne in Hentry by done.
  destruct (mkdirSync_recursive_new _ _ _ _ _ _ _ _ Hmkdir Hentry)
    as [Hold|[_ (k & Hk & Hnew)]]; [left; by eexists|].
  simpl in Hnew.
  destruct (blockDir_take store (RawDataBlock.idChecksum block) k Hk) as [Hshort|[Hone|Htwo]].
  - rewrite <- Hnew, length_app in Hshort. destruct q; [done|simpl in Hshort; lia].
  - rewrite Hone in Hnew. apply app_inv_head in Hnew. auto.
  - rewrite Htwo, blockDir_basePath in Hnew. apply app_inv_head in Hnew. auto.
Qed.

Lemma setData_treeShaped (now : Z) (store : DiskBlockAsyncStore)
    (block : RawDataBlock.t) (d d' : gmap (list string) Inode) (u : unit) :
  setData now store block d = (Ok u, d') -> treeShaped d -> treeShaped d'.
Proof.
  intros Hset Htree.
  apply setData_Ok_steps in Hset as (d1 & u1 & Hmkdir & Hfree & Hdir & ->).
  apply treeShaped_insert; [|done|].
  - by apply (mkdirSync_recursive_treeShaped _ _ _ _ _ _ Hmkdir).
  - unfold blockPath. by rewrite dirname_app.
Qed.

Lemma setData_onlyBlockPaths (now : Z) (store : DiskBlockAsyncStore)
    (block : RawDataBlock.t) (d d' : gmap (list string) Inode) (u : unit) :
  setData now store block d = (Ok u, d') ->
  2 <= length (RawDataBlock.idChecksum block) ->
  onlyBlockPaths store d -> onlyBlockPaths store d'.
Proof.
  intros Hset Hkey Honly a b c Hentry.
  destruct (setData_Ok_new _ _ _ _ _ _ [a; b; c] Hset) as [Hold|[Hnew|[Hnew|Hnew]]];
    [done|done|by apply Honly|done|done|].
  exists (RawDataBlock.idChecksum block). split; [done|].
  by rewrite blockPath_basePath, Hnew.
Qed.

Lemma setData_everyShardHoldsABlock (now : Z) (store : DiskBlockAsyncStore)
    (block : RawDataBlock.t) (d d' : gmap (list string) Inode) (u : unit) :
  setData now store block d = (Ok u, d') ->
  treeShaped d ->
  everyShardHoldsABlock store d -> everyShardHoldsABlock store d'.
Proof.
  intros Hset Htree.
  pose proof (setData_treeShaped _ _ _ _ _ _ Hset Htree) as Htree'.
  pose proof (setData_grows _ _ _ _ _ _ Hset) as Hsub.
  pose proof (setData_Ok_steps _ _ _ _ _ _ Hset) as (d1 & u1 & Hmkdir & Hfree & Hdir & Hd').
  set (key := RawDataBlock.idChecksum block) in *.
  assert (Hshard : isDirectory (blockDir store key) d' = true).
  { rewrite Hd'. apply (isDirectory_mono _ d1); [by apply insert_subseteq|done]. }
  assert (Hfile : is_Some (d' !! blockPath store key)).
  { rewrite Hd', lookup_insert_eq. by eexists. }
  rewrite !everyShardHoldsABlock_alt. intros Hevery.
  assert (Hsecond : forall firstDir secondDir : string,
            is_Some (d' !! (basePath store ++ [firstDir; secondDir])) ->
            isDirectory (basePath store ++ [firstDir; secondDir]) d' = true /\
            exists file : string,
              is_Some (d' !! (basePath store ++ [firstDir; secondDir; file])) /\
              endsWith file ".m.json" = false).
  { intros firstDir secondDir Hentry.
    destruct (setData_Ok_new _ _ _ _ _ _ [firstDir; secondDir] Hset)
      as [Hold|[Hnew|[Hnew|Hnew]]]; [done|done| |done| |done].
    - assert (Hparent : is_Some (d !! (basePath store ++ [firstDir]))).
      { apply (treeShaped_parent _ _ secondDir); [done| |by rewrite <- app_assoc].
        pose proof (basePath_nonempty store). by destruct (basePath store). }
      destruct (Hevery firstDir Hparent) as (_ & _ & Hall).
      destruct (Hall secondDir Hold) as (Hdir2 & file & [entry Hentry2] & Hsuffix).
      split; [by apply (isDirectory_mono _ d)|].
      exists file. split; [|done]. exists entry. by apply (lookup_weaken _ _ _ _ Hentry2).
    - injection Hnew as -> ->. rewrite <- blockDir_basePath. split; [done|].
      exists (toHex key). rewrite <- blockPath_basePath. split; [done|].
      apply endsWith_toHex. }
  intros firstDir Hentry.
  destruct (setData_Ok_new _ _ _ _ _ _ [firstDir] Hset) as [Hold|[Hnew|[Hnew|Hnew]]];
    [done|done| | |done|done].
  - destruct (Hevery firstDir Hold) as (Hdir1 & [secondDir [entry Hentry2]] & _).
    split; [by apply (isDirectory_mono _ d)|]. split; [|by apply Hsecond].
    exists secondDir, entry. by apply (lookup_weaken _ _ _ _ Hentry2).
  - injection Hnew as ->.
    assert (Hthere : is_Some (d' !! blockDir store key)).
    { apply isDirectory_is_Some; [|done]. rewrite blockDir_basePath.
      by destruct (basePath store). }
    rewrite blockDir_basePath in Hthere.
    split; [|split; [by eexists|by apply Hsecond]].
    destruct Hthere as [shard Hthere]. apply Htree' in Hthere.
    replace (basePath store ++ [String.substring 0 2 (toHex key);
                                String.substring 2 2 (toHex key)])
      with ((basePath store ++ [String.substring 0 2 (toHex key)])
              ++ [String.substring 2 2 (toHex key)]) in Hthere
      by (by rewrite <- app_assoc).
    by rewrite dirname_app in Hthere.
Qed.

(** X21.  A [setData] that succeeds keeps the store in shape.  On a disk
    that is a tree, after the block (whose key has two bytes or more) has
    been stored the disk is a tree, the entries three levels below the
    base path are still blocks only, and every directory under the base
    path still holds directories that each hold a block file.  Nothing is
    said of a call that throws. *)
Theorem setData_keeps_store_shape (now : Z) (store : DiskBlockAsyncStore)
    (block : RawDataBlock.t) (d d' : gmap (list string) Inode) (u : unit) :
  setData now store block d = (Ok u, d') ->
  treeShaped d ->
  2 <= length (RawDataBlock.idChecksum block) ->
  treeShaped d' /\
  (onlyBlockPaths store d -> onlyBlockPaths store d') /\
  (everyShardHoldsABlock store d -> everyShardHoldsABlock store d').
Proof.
  intros Hset Htree Hkey. split; [|split].
  - by apply (setData_treeShaped _ _ _ _ _ _ Hset).
  - by apply (setData_onlyBlockPaths _ _ _ _ _ _ Hset).
  - by apply (setData_everyShardHoldsABlock _ _ _ _ _ _ Hset).
Qed.

Lemma fromBlockFile_key (store : DiskBlockAsyncStore) (d : gmap (list string) Inode)
    (firstDir secondDir blockFile : string) :
  onlyBlockPaths store d ->
  is_Some (d !! (basePath store ++ [firstDir; secondDir; blockFile])) ->
  2 <= length (fromHex blockFile) /\
  has store (fromHex blockFile) d = true /\
  firstDir = String.substring 0 2 (toHex (fromHex blockFile)).
Proof.
  intros Honly Hentry. destruct (Honly _ _ _ Hentry) as (key & Hlen & Hpath).
  unfold has. rewrite existsSync_true.
  rewrite blockPath_basePath in Hpath. apply app_inv_head in Hpath.
  injection Hpath as -> -> ->. rewrite fromHex_toHex.
  by rewrite blockPath_basePath.
Qed.

(** X22.  On a store whose entries three levels below the base path are
    blocks only, every checksum that [getRandomBlocks] returns is the key of
    a block of the store: [has] finds it. *)
Theorem getRandomBlocks_returns_stored_keys (fuel : nat) (store : DiskBlockAsyncStore)
    (count : Z) (d : gmap (list string) Inode) (r : MathRandom)
    (result : list (list byte)) :
  onlyBlockPaths store d ->
  getRandomBlocks fuel store count d r = Some (Ok result) ->
  Forall (fun checksum => has store checksum d = true) result.
Proof.
  intros Honly. unfold getRandomBlocks. cbv zeta.
  destruct (existsSync (basePath store) d); cbn [negb]; [|by intros [= <-]].
  destruct (readdirSync (basePath store) d) as [firstLevelDirs|e]; [|done].
  intros Hloop.
  destruct (randomBlocksLoop_Ok store d count (length firstLevelDirs) fuel
              [] firstLevelDirs r result Hloop) as (Hfrom & _); [done|simpl; lia..|].
  apply (Forall_impl _ _ _ Hfrom).
  intros checksum (firstDir & secondDir & blockFile & _ & _ & Hfile & _ & ->).
  by apply (fromBlockFile_key store d firstDir secondDir blockFile).
Qed.

Lemma NoDup_omap_inj {A B} (f : A -> option B) (l : list A) :
  (forall (x y : A) (z : B), f x = Some z -> f y = Some z -> x = y) ->
  NoDup l -> NoDup (omap f l).
Proof.
  intros Hinj. induction 1 as [|x l Hx Hl IH]; simpl; [constructor|].
  destruct (f x) as [z|] eqn:Hfx; [|done].
  constructor; [|done]. rewrite list_elem_of_omap. intros (y & Hy & Hfy).
  by rewrite (Hinj x y z Hfx Hfy) in Hx.
Qed.

(** [readdirSync] lists no name twice. *)
Lemma readdirSync_NoDup (p : list string) (d : gmap (list string) Inode)
    (names : list string) :
  readdirSync p d = Ok names -> NoDup names.
Proof.
  unfold readdirSync. destruct (isDirectory p d); [|by destruct (d !! p)].
  intros [= <-]. apply NoDup_omap_inj; [|apply NoDup_fst_map_to_list].
  intros x y z Hx Hy. apply childName_Some in Hx, Hy. congruence.
Qed.

(** The loop of [getRandomBlocks] never picks twice from one directory of
    the base path: the directories of the blocks picked so far differ from
    each other and, while more blocks are needed, from the directories
    still in play. *)
Lemma randomBlocksLoop_NoDup (store : DiskBlockAsyncStore) (d : gmap (list string) Inode)
    (count : Z) (fuel : nat) :
  onlyBlockPaths store d ->
  forall (blocks : list (list byte)) (firstLevelDirs : list string) (r : MathRandom)
         (result : list (list byte)),
    randomBlocksLoop fuel store d count blocks firstLevelDirs r = Some (Ok result) ->
    NoDup (map (fun checksum => String.substring 0 2 (toHex checksum)) blocks) ->
    ((Z.of_nat (length blocks) < count)%Z ->
     NoDup (map (fun checksum => String.substring 0 2 (toHex checksum)) blocks
            ++ firstLevelDirs)) ->
    NoDup (map (fun checksum => String.substring 0 2 (toHex checksum)) result).
Proof.
  intros Honly.
  induction fuel as [|fuel IH]; intros blocks fl r result; cbn [randomBlocksLoop].
  - destruct (_ && _); [done|]. by intros [= <-].
  - destruct (Z.ltb_spec (Z.of_nat (length blocks)) count) as [Hmore|Hdone]; cbn [andb];
      [|by intros [= <-]].
    destruct (Nat.ltb_spec 0 (length fl)) as [Hdirs|Hnone]; cbn [andb];
      [|by intros [= <-]].
    destruct (randomIndex (length fl) r) as [i r1] eqn:Hi. cbv beta iota.
    destruct (fl !! i) as [firstDir|] eqn:Hfirst; [|done].
    assert (Hdeleted : forall l : list string, NoDup (l ++ fl) -> NoDup (l ++ delete i fl)).
    { intros l Hl. apply (sublist_NoDup _ _ Hl), sublist_app; [done|apply sublist_delete]. }
    destruct (existsSync (basePath store ++ [firstDir]) d) eqn:Hexists1; cbn [negb].
    2:{ intros Hloop Hblocks Hinv. apply (IH _ _ _ _ Hloop); [done|]. auto. }
    destruct (readdirSync (basePath store ++ [firstDir]) d) as [secondLevelDirs|e]
      eqn:Hsecond; [|done].
    destruct (Nat.eqb_spec (length secondLevelDirs) 0) as [Hempty|Hnonempty].
    { intros Hloop Hblocks Hinv. apply (IH _ _ _ _ Hloop); [done|]. auto. }
    destruct (randomIndex (length secondLevelDirs) r1) as [j r2] eqn:Hj. cbv beta iota.
    destruct (secondLevelDirs !! j) as [secondDir|] eqn:Hsecond'; [|done].
    destruct (existsSync ((basePath store ++ [firstDir]) ++ [secondDir]) d) eqn:Hexists2;
      cbn [negb].
    2:{ intros Hloop Hblocks Hinv. by apply (IH _ _ _ _ Hloop). }
    destruct (readdirSync ((basePath store ++ [firstDir]) ++ [secondDir]) d) as [files|e]
      eqn:Hfiles; [|done].
    destruct (Nat.eqb_spec
                (length (List.filter (fun file => negb (endsWith file ".m.json")) files)) 0)
      as [Hnofiles|Hsomefiles].
    { intros Hloop Hblocks Hinv. by apply (IH _ _ _ _ Hloop). }
    destruct (randomIndex _ r2) as [k r3] eqn:Hk. cbv beta iota.
    destruct (List.filter _ files !! k) as [blockFile|] eqn:Hblock; [|done].
    intros Hloop Hblocks Hinv. specialize (Hinv Hmore).
    apply list_elem_of_lookup_2, list_elem_of_In, filter_In in Hblock as [Hin _].
    apply list_elem_of_In in Hin.
    apply (readdirSync_Ok_elem _ _ _ _ Hfiles) in Hin.
    rewrite <- !app_assoc in Hin. simpl in Hin.
    destruct (fromBlockFile_key store d firstDir secondDir blockFile Honly Hin)
      as (_ & _ & Hdir).
    assert (Hpushed :
              map (fun checksum => String.substring 0 2 (toHex checksum))
                  (blocks ++ [fromHex blockFile])
              = map (fun checksum => String.substring 0 2 (toHex checksum)) blocks
                ++ [firstDir]).
    { rewrite map_app. simpl. by rewrite <- Hdir. }
    apply (IH _ _ _ _ Hloop); rewrite Hpushed.
    + apply NoDup_app in Hinv as (Hpicked & Hapart & _).
      apply NoDup_app. split; [done|]. split; [|apply NoDup_singleton].
      intros x Hx Hsame. apply list_elem_of_singleton in Hsame as ->.
      apply (Hapart firstDir Hx). by apply (list_elem_of_lookup_2 _ i).
    + intros Hstill.
      destruct (Z.ltb_spec (Z.of_nat (length (blocks ++ [fromHex blockFile]))) count);
        [|lia].
      rewrite <- app_assoc. simpl.
      by rewrite <- (delete_Permutation fl i firstDir Hfirst).
Qed.

Lemma substring_toHex (checksum : list byte) :
  String.substring 0 2 (toHex checksum) = toHex (take 1 checksum).
Proof.
  destruct checksum as [|x rest]; [done|]. simpl. by destruct (toHex rest).
Qed.

(** X23.  On a store whose entries three levels below the base path are
    blocks only, [getRandomBlocks] takes each of its checksums from another
    directory of the base path: no two checksums of the result begin with
    the same byte, and so no checksum is returned twice. *)
Theorem getRandomBlocks_distinct (fuel : nat) (store : DiskBlockAsyncStore)
    (count : Z) (d : gmap (list string) Inode) (r : MathRandom)
    (result : list (list byte)) :
  onlyBlockPaths store d ->
  getRandomBlocks fuel store count d r = Some (Ok result) ->
  NoDup (take 1 <$> result) /\ NoDup result.
Proof.
  intros Honly. unfold getRandomBlocks. cbv zeta.
  destruct (existsSync (basePath store) d); cbn [negb].
  2:{ intros [= <-]. split; constructor. }
  destruct (readdirSync (basePath store) d) as [firstLevelDirs|e] eqn:Hlist; [|done].
  intros Hloop.
  assert (Hdirs : NoDup (map (fun checksum => String.substring 0 2 (toHex checksum)) result)).
  { apply (randomBlocksLoop_NoDup store d count fuel Honly _ _ _ _ Hloop).
    - constructor.
    - intros _. simpl. by apply (readdirSync_NoDup _ _ _ Hlist). }
  assert (Hfirst : NoDup (take 1 <$> result)).
  { apply (NoDup_fmap_1 toHex). rewrite <- list_fmap_compose.
    erewrite list_fmap_ext; [exact Hdirs|]. intros i checksum _. simpl.
    by rewrite substring_toHex. }
  split; [done|]. by apply (NoDup_fmap_1 (take 1)).
Qed.

Lemma app_longer_ne_nil (p : list string) (x : string) : p ++ [x] <> [].
Proof. by destruct p. Qed.

Lemma elem_of_delete_other (fl : list string) (i : nat) (x b : string) :
  fl !! i = Some x -> b ∈ fl -> b <> x ->
  b ∈ delete i fl /\ 2 <= length fl.
Proof.
  intros Hx Hb Hne.
  pose proof (delete_Permutation fl i x Hx) as Hperm.
  rewrite Hperm in Hb. apply elem_of_cons in Hb as [->|Hb]; [done|].
  split; [done|]. rewrite Hperm. simpl.
  destruct (delete i fl); [by apply elem_of_nil in Hb|simpl; lia].
Qed.

(** While a directory without block files is in play and more blocks are
    asked for than the other directories can give, the loop of
    [getRandomBlocks] does not end with a result. *)
Lemma randomBlocksLoop_stuck (store : DiskBlockAsyncStore) (d : gmap (list string) Inode)
    (count : Z) (b : string) :
  shardWithoutBlocks store d b ->
  forall (fuel : nat) (blocks : list (list byte)) (firstLevelDirs : list string)
         (r : MathRandom) (result : list (list byte)),
    b ∈ firstLevelDirs ->
    (Z.of_nat (length blocks + length firstLevelDirs) <= count)%Z ->
    randomBlocksLoop fuel store d count blocks firstLevelDirs r <> Some (Ok result).
Proof.
  intros (bDirs & HbList & HbNonempty & HbFiles).
  induction fuel as [|fuel IH]; intros blocks fl r result Hb Hcount;
    cbn [randomBlocksLoop].
  - destruct fl as [|x fl]; [by apply elem_of_nil in Hb|]. simpl in Hcount.
    destruct (Z.ltb_spec (Z.of_nat (length blocks)) count); [done|lia].
  - assert (0 < length fl) as Hpos.
    { destruct fl; [by apply elem_of_nil in Hb|simpl; lia]. }
    destruct (Z.ltb_spec (Z.of_nat (length blocks)) count) as [Hmore|Hdone]; [|lia].
    destruct (Nat.ltb_spec 0 (length fl)) as [_|Hnone]; [|lia]. cbn [andb].
    destruct (randomIndex (length fl) r) as [i r1] eqn:Hi. cbv beta iota.
    destruct (fl !! i) as [firstDir|] eqn:Hfirst; [|done].
    destruct (existsSync (basePath store ++ [firstDir]) d) eqn:Hexists1; cbn [negb].
    2:{ assert (b <> firstDir) as Hne.
        { intros ->.
          rewrite (readdirSync_Ok_exists _ _ _ (app_longer_ne_nil _ _) HbList) in Hexists1.
          done. }
        destruct (elem_of_delete_other fl i firstDir b Hfirst Hb Hne) as [Hb' Hlen].
        apply IH; [done|]. rewrite length_delete by (by rewrite Hfirst). lia. }
    destruct (readdirSync (basePath store ++ [firstDir]) d) as [secondLevelDirs|e]
      eqn:Hsecond; [|done].
    destruct (Nat.eqb_spec (length secondLevelDirs) 0) as [Hempty|Hnonempty].
    { assert (b <> firstDir) as Hne.
      { intros ->. rewrite HbList in Hsecond. injection Hsecond as <-.
        by destruct bDirs. }
      destruct (elem_of_delete_other fl i firstDir b Hfirst Hb Hne) as [Hb' Hlen].
      apply IH; [done|]. rewrite length_delete by (by rewrite Hfirst). lia. }
    destruct (randomIndex (length secondLevelDirs) r1) as [j r2] eqn:Hj. cbv beta iota.
    destruct (secondLevelDirs !! j) as [secondDir|] eqn:Hsecond'; [|done].
    destruct (existsSync ((basePath store ++ [firstDir]) ++ [secondDir]) d) eqn:Hexists2;
      cbn [negb].
    2:{ by apply IH. }
    destruct (readdirSync ((basePath store ++ [firstDir]) ++ [secondDir]) d) as [files|e]
      eqn:Hfiles; [|done].
    destruct (Nat.eqb_spec
                (length (List.filter (fun file => negb (endsWith file ".m.json")) files)) 0)
      as [Hnofiles|Hsomefiles].
    { by apply IH. }
    destruct (randomIndex _ r2) as [k r3] eqn:Hk. cbv beta iota.
    destruct (List.filter _ files !! k) as [blockFile|] eqn:Hblock; [|done].
    assert (b <> firstDir) as Hne.
    { intros ->. rewrite HbList in Hsecond. injection Hsecond as <-.
      apply list_elem_of_lookup_2 in Hsecond'.
      destruct (HbFiles secondDir Hsecond') as (files' & Hfiles' & Hfiltered).
      rewrite <- app_assoc in Hfiles. simpl in Hfiles.
      rewrite Hfiles' in Hfiles. injection Hfiles as <-.
      by rewrite Hfiltered in Hsomefiles. }
    destruct (elem_of_delete_other fl i firstDir b Hfirst Hb Hne) as [Hb' Hlen].
    rewrite length_app. cbn [length].
    destruct (Z.ltb_spec (Z.of_nat (length blocks + 1)) count) as [Hstill|Henough]; [|lia].
    apply IH; [done|].
    rewrite length_app, length_delete by (by rewrite Hfirst). simpl. lia.
Qed.

(** X24.  [getRandomBlocks] does not give a result when it is asked for as
    many blocks as the base path has entries, or more, while one of these
    entries is a directory that holds directories but no block file: the
    other directories are used up and dropped, the one without block files
    is picked again and again.  The call then never leaves its loop, or it
    rejects with an error of the file system. *)
Theorem getRandomBlocks_asked_for_too_many (store : DiskBlockAsyncStore)
    (d : gmap (list string) Inode) (count : Z) (firstLevelDirs : list string)
    (b : string) :
  readdirSync (basePath store) d = Ok firstLevelDirs ->
  b ∈ firstLevelDirs ->
  shardWithoutBlocks store d b ->
  (Z.of_nat (length firstLevelDirs) <= count)%Z ->
  forall (fuel : nat) (r : MathRandom) (result : list (list byte)),
    getRandomBlocks fuel store count d r <> Some (Ok result).
Proof.
  intros Hlist Hb Hbad Hcount fuel r result. unfold getRandomBlocks. cbv zeta.
  rewrite (readdirSync_Ok_exists _ _ _ (basePath_nonempty store) Hlist). cbn [negb].
  rewrite Hlist. by apply (randomBlocksLoop_stuck store d count b Hbad).
Qed.

(* =================================================================== *)
(** ** The way of a share through the record *)
(* =================================================================== *)


End BrightChain.

(* ===================================================================== *)
(** ** The theorems at concrete inputs *)
(* ===================================================================== *)

(** [from_block_layout] for 97 bytes of data in a block of 100: the block
    has 100 bytes, starts with the data, and ends with the bytes 97, 98, 99
    of the sample random source. *)
Lemma from_block_layout_witness :
  match
    fst (from sampleChecksum 1000 sampleRandom BlockType.EncryptedOwnedDataBlock
           BlockDataType.EncryptedData 100 (replicate 97 x04) None None None None
           true true)
  with
  | Ok b =>
      length (EncryptedBlock.data b) = 100 /\
      take 97 (EncryptedBlock.data b) = replicate 97 x04 /\
      drop 97 (EncryptedBlock.data b) = [x61; x62; x63] /\
      EncryptedBlock.idChecksum b = sampleChecksum (EncryptedBlock.data b)
  | Throw _ => False
  end.
Proof.
  destruct (fst (from sampleChecksum 1000 sampleRandom BlockType.EncryptedOwnedDataBlock
                   BlockDataType.EncryptedData 100 (replicate 97 x04) None None None None
                   true true)) as [b|e] eqn:Hfrom.
  - destruct (from_block_layout _ _ _ _ _ _ _ _ _ _ _ _ _ _ Hfrom)
      as (Hlen & _ & Htake & Hdrop & _ & Hsum).
    split; [exact Hlen|]. split; [exact Htake|]. split; [|exact Hsum].
    etransitivity; [exact Hdrop|]. vm_compute. reflexivity.
  - vm_compute in Hfrom. discriminate Hfrom.
Defined.

(** [from_length_checks_in_order] at 96 bytes of data: too short. *)
Lemma from_length_checks_in_order_witness :
  fst (from sampleChecksum 1000 sampleRandom BlockType.EncryptedOwnedDataBlock
         BlockDataType.EncryptedData 100 (replicate 96 x04) None None None (Some 5%Z)
         true true)
  = Throw (BlockValidationError BlockValidationErrorType.DataLengthTooShort).
Proof.
  apply (from_length_checks_in_order sampleChecksum 1000 sampleRandom
           BlockType.EncryptedOwnedDataBlock BlockDataType.EncryptedData 100
           (replicate 96 x04) None None None (Some 5%Z) true true).
  simpl. unfold eciesOverheadLength. lia.
Defined.

(** [from_checksum_mismatch] for a supplied checksum of two bytes, which the
    one-byte sample checksum never gives. *)
Lemma from_checksum_mismatch_witness :
  exists e,
    fst (from sampleChecksum 1000 sampleRandom BlockType.EncryptedOwnedDataBlock
           BlockDataType.EncryptedData 100 (replicate 97 x04) (Some [x00; x00]) None None
           (Some 3%Z) true true) = Throw e /\
    error_expected e = Some [x00; x00] /\
    error_checksum e = Some [x64].
Proof.
  destruct (from_checksum_mismatch sampleChecksum 1000 sampleRandom
              BlockType.EncryptedOwnedDataBlock BlockDataType.EncryptedData 100
              (replicate 97 x04) [x00; x00] None None (Some 3%Z) true true)
    as (e & Hthrow & _ & Hexpected & Hchecksum).
  - unfold lengthsAccepted, eciesOverheadLength. simpl. lia.
  - vm_compute. discriminate.
  - exists e. split; [exact Hthrow|]. split; [exact Hexpected|].
    rewrite Hchecksum. vm_compute. reflexivity.
Defined.

(** [setData_guards]: after a first [setData] of a block into the empty
    disk, a second one fails with [BlockPathAlreadyExists] and leaves the
    disk as it is. *)
Lemma setData_guards_witness :
  let block := sampleBlock [x01; x02; x03; x04] 900 in
  match
    setData sampleSizeString (validateBySpec sampleChecksum) 1000 sampleStore block
      (∅ : gmap (list string) Inode)
  with
  | (Ok _, d') =>
      setData sampleSizeString (validateBySpec sampleChecksum) 2000 sampleStore block d'
      = (Throw (StoreError StoreErrorType.BlockPathAlreadyExists), d')
  | (Throw _, _) => False
  end.
Proof.
  cbv zeta.
  destruct (setData sampleSizeString (validateBySpec sampleChecksum) 1000 sampleStore
              (sampleBlock [x01; x02; x03; x04] 900) ∅) as [[u|e] d'] eqn:Hset.
  - destruct (setData_guards sampleSizeString (validateBySpec sampleChecksum) 1000
                sampleStore (sampleBlock [x01; x02; x03; x04] 900) ∅)
      as (_ & _ & _ & _ & Hok).
    destruct (Hok u d' Hset) as (_ & _ & Hsecond).
    destruct (Hsecond 2000%Z (sampleBlock [x01; x02; x03; x04] 900) eq_refl)
      as (reason & Hthrow & Hreason).
    rewrite Hthrow, (Hreason eq_refl). reflexivity.
  - vm_compute in Hset. discriminate Hset.
Defined.

(** [setData_then_has_getData]: a block stored into the empty disk is there
    and reads back byte for byte. *)
Lemma setData_then_has_getData_witness :
  let block := sampleBlock [x01; x02; x03; x04] 900 in
  match
    setData sampleSizeString (validateBySpec sampleChecksum) 1000 sampleStore block
      (∅ : gmap (list string) Inode)
  with
  | (Ok _, d') =>
      has sampleSizeString sampleStore (RawDataBlock.idChecksum block) d' = true /\
      match getData sampleSizeString sampleStore (RawDataBlock.idChecksum block) d' with
      | Ok stored => RawDataBlock.data stored = [x01; x02; x03; x04]
      | Throw _ => False
      end
  | (Throw _, _) => False
  end.
Proof.
  cbv zeta.
  destruct (setData sampleSizeString (validateBySpec sampleChecksum) 1000 sampleStore
              (sampleBlock [x01; x02; x03; x04] 900) ∅) as [[u|e] d'] eqn:Hset.
  - destruct (setData_then_has_getData sampleSizeString (validateBySpec sampleChecksum)
                1000 sampleStore (sampleBlock [x01; x02; x03; x04] 900) ∅ d' u Hset eq_refl)
      as (Hhas & (stored & Hget & Hdata & _) & _).
    split; [exact Hhas|]. rewrite Hget. exact Hdata.
  - vm_compute in Hset. discriminate Hset.
Defined.

(** [xor_tuple_properties] on three buffers of two bytes, and on two
    buffers of different lengths. *)
Lemma xor_tuple_properties_witness :
  exists r,
    xorBlockData [[x0f; xf0]; [x33; x55]; [xaa; x01]] = Ok r /\
    xorBlockData [r; [x33; x55]; [xaa; x01]] = Ok [x0f; xf0] /\
    xorBlockData [[x01]; [x02; x03]]
      = Throw (HandleTupleError HandleTupleErrorType.BlockSizesMustMatch).
Proof.
  destruct (xor_tuple_properties sampleChecksum sampleSizeString
              (validateBySpec sampleChecksum)) as (Hround & _ & Hmismatch & _).
  destruct (Hround [x0f; xf0] [x33; x55] [xaa; x01] eq_refl eq_refl)
    as (r & Hfirst & _ & Hback).
  exists r. split; [exact Hfirst|]. split; [exact Hback|].
  apply Hmismatch. constructor. simpl. discriminate.
Defined.

(** [new_BlockHandleTuple_spec]: two handles are not a tuple. *)
Lemma new_BlockHandleTuple_spec_witness :
  new_BlockHandleTuple 0 (fun _ => [sampleHandle 4 None; sampleHandle 4 None])
  = Throw (HandleTupleError HandleTupleErrorType.InvalidTupleSize).
Proof.
  apply (new_BlockHandleTuple_spec 0 (fun _ => [sampleHandle 4 None; sampleHandle 4 None])).
  simpl. unfold TUPLE_SIZE. discriminate.
Defined.

(** [tuple_size_while_array_untouched]: a tuple of three handles, used on
    the heap it was built on. *)
Lemma tuple_size_while_array_untouched_witness :
  let heap : Heap :=
    fun _ => [sampleHandle 4 None; sampleHandle 4 None; sampleHandle 4 None] in
  match new_BlockHandleTuple 0 heap with
  | Ok t =>
      length (handles t heap) = TUPLE_SIZE /\
      fst (BlockHandleTuple_xor sampleChecksum sampleSizeString
             (validateBySpec sampleChecksum) 1000 t heap sampleStore
             {| IBlockMetadata.dateCreated := None;
                IBlockMetadata.dataType := BlockDataType.RawData |}
             (∅ : gmap (list string) Inode))
        <> Throw (HandleTupleError HandleTupleErrorType.NoBlocksToXor)
  | Throw _ => False
  end.
Proof.
  cbv zeta.
  destruct (new_BlockHandleTuple 0
              (fun _ => [sampleHandle 4 None; sampleHandle 4 None; sampleHandle 4 None]))
    as [t|e] eqn:Hnew.
  - destruct (tuple_size_while_array_untouched sampleChecksum sampleSizeString
                (validateBySpec sampleChecksum) 0 _ t Hnew) as (Hlen & Hlater).
    split; [exact Hlen|]. apply (Hlater _ eq_refl).
  - vm_compute in Hnew. discriminate Hnew.
Defined.

(** C10, as stated, fails.  The constructor keeps the reference of the array
    it is given; when the caller, who holds the same reference, empties the
    array ([handles.length = 0]), the constructed tuple holds no handle and
    its [xor] throws [NoBlocksToXor]. *)
Lemma tuple_emptied_through_alias :
  let heap0 : Heap :=
    fun _ => [sampleHandle 4 None; sampleHandle 4 None; sampleHandle 4 None] in
  exists t,
    new_BlockHandleTuple 0 heap0 = Ok t /\
    let heap1 := Heap_store 0 [] heap0 in
    length (handles t heap1) <> TUPLE_SIZE /\
    fst (BlockHandleTuple_xor sampleChecksum sampleSizeString
           (validateBySpec sampleChecksum) 1000 t heap1 sampleStore
           {| IBlockMetadata.dateCreated := None;
              IBlockMetadata.dataType := BlockDataType.RawData |}
           (∅ : gmap (list string) Inode))
      = Throw (HandleTupleError HandleTupleErrorType.NoBlocksToXor).
Proof.
  cbv zeta. eexists. split; [reflexivity|]. split; [|reflexivity].
  vm_compute. discriminate.
Qed.

(** C8 on the code.  [DiskBlockAsyncStore.xor] with destination metadata
    that give no date: the result carries the invalid date, which is the
    time of no clock, where [BlockHandleTuple.xor] on the same metadata
    dates its result with the clock. *)
Lemma DiskBlockAsyncStore_xor_without_date :
  let d : gmap (list string) Inode :=
    <[ ["a"%string] := File [x01; x02; x03; x04] 10 ]>
      (<[ ["b"%string] := File [x10; x20; x30; x40] 20 ]> ∅) in
  let a := sampleHandle 4 (Some ["a"%string]) in
  let b := sampleHandle 4 (Some ["b"%string]) in
  let dest := {| IBlockMetadata.dateCreated := None;
                 IBlockMetadata.dataType := BlockDataType.RawData |} in
  match DiskBlockAsyncStore_xor sampleChecksum sampleStore [a; b] dest d with
  | Ok block =>
      RawDataBlock.data block = [x11; x22; x33; x44] /\
      RawDataBlock.dateCreated block = InvalidDate /\
      (forall now : Z, RawDataBlock.dateCreated block <> DateMs now)
  | Throw _ => False
  end /\
  match BlockHandleTuple_xor_block sampleChecksum 1000 {| _handles := 0 |}
          (fun _ => [a; b; a]) dest d with
  | Ok block => RawDataBlock.dateCreated block = DateMs 1000
  | Throw _ => False
  end.
Proof.
  cbv zeta. split.
  - vm_compute. split; [reflexivity|]. split; [reflexivity|]. discriminate.
  - vm_compute. reflexivity.
Qed.







(** [BlockHandleTuple_xor_dateCreated]: the tuple of three stored blocks,
    XORed at time 1000 with metadata dated 500, gives a block dated 500. *)
Lemma BlockHandleTuple_xor_dateCreated_witness :
  let d : gmap (list string) Inode :=
    <[ ["a"%string] := File [x01; x02; x03; x04] 10 ]>
      (<[ ["b"%string] := File [x10; x20; x30; x40] 20 ]> ∅) in
  let a := sampleHandle 4 (Some ["a"%string]) in
  let b := sampleHandle 4 (Some ["b"%string]) in
  let dest := {| IBlockMetadata.dateCreated := Some (DateMs 500);
                 IBlockMetadata.dataType := BlockDataType.RawData |} in
  match BlockHandleTuple_xor_block sampleChecksum 1000 {| _handles := 0 |}
          (fun _ => [a; b; a]) dest d with
  | Ok block => RawDataBlock.dateCreated block = DateMs 500
  | Throw _ => False
  end.
Proof.
  cbv zeta.
  destruct (BlockHandleTuple_xor_block sampleChecksum 1000 {| _handles := 0 |}
              (fun _ => [sampleHandle 4 (Some ["a"%string]);
                         sampleHandle 4 (Some ["b"%string]);
                         sampleHandle 4 (Some ["a"%string])])
              {| IBlockMetadata.dateCreated := Some (DateMs 500);
                 IBlockMetadata.dataType := BlockDataType.RawData |}
              (<[ ["a"%string] := File [x01; x02; x03; x04] 10 ]>
                 (<[ ["b"%string] := File [x10; x20; x30; x40] 20 ]> ∅)))
    as [block|e] eqn:Hxor.
  - exact (BlockHandleTuple_xor_dateCreated sampleChecksum _ _ _ _ _ _ Hxor).
  - vm_compute in Hxor. discriminate Hxor.
Defined.

(** [DiskBlockAsyncStore_xor_dateCreated]: the store XOR of two stored
    blocks with metadata dated 500 gives a block dated 500. *)
Lemma DiskBlockAsyncStore_xor_dateCreated_witness :
  let d : gmap (list string) Inode :=
    <[ ["a"%string] := File [x01; x02; x03; x04] 10 ]>
      (<[ ["b"%string] := File [x10; x20; x30; x40] 20 ]> ∅) in
  let a := sampleHandle 4 (Some ["a"%string]) in
  let b := sampleHandle 4 (Some ["b"%string]) in
  let dest := {| IBlockMetadata.dateCreated := Some (DateMs 500);
                 IBlockMetadata.dataType := BlockDataType.RawData |} in
  match DiskBlockAsyncStore_xor sampleChecksum sampleStore [a; b] dest d with
  | Ok block => RawDataBlock.dateCreated block = DateMs 500
  | Throw _ => False
  end.
Proof.
  cbv zeta.
  destruct (DiskBlockAsyncStore_xor sampleChecksum sampleStore
              [sampleHandle 4 (Some ["a"%string]); sampleHandle 4 (Some ["b"%string])]
              {| IBlockMetadata.dateCreated := Some (DateMs 500);
                 IBlockMetadata.dataType := BlockDataType.RawData |}
              (<[ ["a"%string] := File [x01; x02; x03; x04] 10 ]>
                 (<[ ["b"%string] := File [x10; x20; x30; x40] 20 ]> ∅)))
    as [block|e] eqn:Hxor.
  - exact (DiskBlockAsyncStore_xor_dateCreated sampleChecksum _ _ _ _ _ Hxor).
  - vm_compute in Hxor. discriminate Hxor.
Defined.

(** [setData_then_getData_block]: the sample block, created at 900 as raw
    data and stored at 1000 into the empty disk, comes back created at 1000
    as ephemeral structured data. *)
Lemma setData_then_getData_block_witness :
  let block := sampleBlock [x01; x02; x03; x04] 900 in
  match
    setData sampleSizeString (validateBySpec sampleChecksum) 1000 sampleStore block
      (∅ : gmap (list string) Inode)
  with
  | (Ok _, d') =>
      getData sampleSizeString sampleStore (RawDataBlock.idChecksum block) d'
      = Ok (RawDataBlock.new 4 [x01; x02; x03; x04] (DateMs 1000) [x04]
              BlockType.RawData BlockDataType.EphemeralStructuredData true true)
  | (Throw _, _) => False
  end.
Proof.
  cbv zeta.
  destruct (setData sampleSizeString (validateBySpec sampleChecksum) 1000 sampleStore
              (sampleBlock [x01; x02; x03; x04] 900) ∅) as [[u|e] d'] eqn:Hset.
  - exact (setData_then_getData_block sampleSizeString (validateBySpec sampleChecksum)
             1000 sampleStore (sampleBlock [x01; x02; x03; x04] 900) ∅ d' u Hset eq_refl).
  - exfalso.
    match type of Hset with
    | ?run = _ => assert (Hok : isOk (fst run) = true) by (vm_compute; reflexivity)
    end.
    rewrite Hset in Hok. discriminate Hok.
Defined.

(** [BlockHandleTuple_xor_stores_the_result]: the XOR of the blocks a, b
    and a is b; the handle that comes back reads the bytes of b from the
    disk and is the store's handle for their checksum. *)
Lemma BlockHandleTuple_xor_stores_the_result_witness :
  let d : gmap (list string) Inode :=
    <[ ["a"%string] := File [x01; x02; x03; x04] 10 ]>
      (<[ ["b"%string] := File [x10; x20; x30; x40] 20 ]> ∅) in
  let a := sampleHandle 4 (Some ["a"%string]) in
  let b := sampleHandle 4 (Some ["b"%string]) in
  let dest := {| IBlockMetadata.dateCreated := None;
                 IBlockMetadata.dataType := BlockDataType.RawData |} in
  match
    BlockHandleTuple_xor sampleChecksum sampleSizeString (validateBySpec sampleChecksum)
      1000 {| _handles := 0 |} (fun _ => [a; b; a]) sampleStore dest d
  with
  | (Ok h, d') =>
      BlockHandle.data h d' = Ok [x10; x20; x30; x40] /\
      h = get sampleSizeString sampleStore [x40]
  | (Throw _, _) => False
  end.
Proof.
  cbv zeta.
  destruct (BlockHandleTuple_xor sampleChecksum sampleSizeString
              (validateBySpec sampleChecksum) 1000 {| _handles := 0 |}
              (fun _ => [sampleHandle 4 (Some ["a"%string]);
                         sampleHandle 4 (Some ["b"%string]);
                         sampleHandle 4 (Some ["a"%string])])
              sampleStore
              {| IBlockMetadata.dateCreated := None;
                 IBlockMetadata.dataType := BlockDataType.RawData |}
              (<[ ["a"%string] := File [x01; x02; x03; x04] 10 ]>
                 (<[ ["b"%string] := File [x10; x20; x30; x40] 20 ]> ∅)))
    as [[h|e] d'] eqn:Hxor.
  - destruct (BlockHandleTuple_xor_stores_the_result sampleChecksum sampleSizeString
                (validateBySpec sampleChecksum) _ _ _ _ _ _ _ _ Hxor)
      as (blockData & result & Hload & Hresult & Hhandle & _ & Hdata & _).
    vm_compute in Hload. injection Hload as <-.
    vm_compute in Hresult. injection Hresult as <-.
    split; [exact Hdata|exact Hhandle].
  - exfalso.
    match type of Hxor with
    | ?run = _ => assert (Hok : isOk (fst run) = true) by (vm_compute; reflexivity)
    end.
    rewrite Hxor in Hok. discriminate Hok.
Defined.

(** [BlockHandleTuple_xor_twice]: the same tuple XORed a second time. *)
Lemma BlockHandleTuple_xor_twice_witness :
  let d : gmap (list string) Inode :=
    <[ ["a"%string] := File [x01; x02; x03; x04] 10 ]>
      (<[ ["b"%string] := File [x10; x20; x30; x40] 20 ]> ∅) in
  let a := sampleHandle 4 (Some ["a"%string]) in
  let b := sampleHandle 4 (Some ["b"%string]) in
  let dest := {| IBlockMetadata.dateCreated := None;
                 IBlockMetadata.dataType := BlockDataType.RawData |} in
  match
    BlockHandleTuple_xor sampleChecksum sampleSizeString (validateBySpec sampleChecksum)
      1000 {| _handles := 0 |} (fun _ => [a; b; a]) sampleStore dest d
  with
  | (Ok h, d') =>
      BlockHandleTuple_xor sampleChecksum sampleSizeString (validateBySpec sampleChecksum)
        2000 {| _handles := 0 |} (fun _ => [a; b; a]) sampleStore dest d'
      = (Throw (WrappedError "Failed to store XOR result"
                  (StoreError StoreErrorType.BlockPathAlreadyExists)), d')
  | (Throw _, _) => False
  end.
Proof.
  cbv zeta.
  destruct (BlockHandleTuple_xor sampleChecksum sampleSizeString
              (validateBySpec sampleChecksum) 1000 {| _handles := 0 |}
              (fun _ => [sampleHandle 4 (Some ["a"%string]);
                         sampleHandle 4 (Some ["b"%string]);
                         sampleHandle 4 (Some ["a"%string])])
              sampleStore
              {| IBlockMetadata.dateCreated := None;
                 IBlockMetadata.dataType := BlockDataType.RawData |}
              (<[ ["a"%string] := File [x01; x02; x03; x04] 10 ]>
                 (<[ ["b"%string] := File [x10; x20; x30; x40] 20 ]> ∅)))
    as [[h|e] d'] eqn:Hxor.
  - exact (BlockHandleTuple_xor_twice sampleChecksum sampleSizeString
             (validateBySpec sampleChecksum) 1000 2000 _ _ _ _ _ _ _ _ Hxor).
  - exfalso.
    match type of Hxor with
    | ?run = _ => assert (Hok : isOk (fst run) = true) by (vm_compute; reflexivity)
    end.
    rewrite Hxor in Hok. discriminate Hok.
Defined.

(** [BlockHandleTuple_xor_failures]: a tuple whose blocks are not on the
    disk. *)
Lemma BlockHandleTuple_xor_failures_witness :
  let a := sampleHandle 4 (Some ["a"%string]) in
  let dest := {| IBlockMetadata.dateCreated := None;
                 IBlockMetadata.dataType := BlockDataType.RawData |} in
  match
    BlockHandleTuple_xor sampleChecksum sampleSizeString (validateBySpec sampleChecksum)
      1000 {| _handles := 0 |} (fun _ => [a; a; a]) sampleStore dest
      (∅ : gmap (list string) Inode)
  with
  | (Throw e, d') =>
      exists cause, e = WrappedError "Failed to load block" cause /\ d' = ∅
  | (Ok _, _) => False
  end.
Proof.
  cbv zeta.
  destruct (BlockHandleTuple_xor sampleChecksum sampleSizeString
              (validateBySpec sampleChecksum) 1000 {| _handles := 0 |}
              (fun _ => [sampleHandle 4 (Some ["a"%string]);
                         sampleHandle 4 (Some ["a"%string]);
                         sampleHandle 4 (Some ["a"%string])])
              sampleStore
              {| IBlockMetadata.dateCreated := None;
                 IBlockMetadata.dataType := BlockDataType.RawData |} ∅)
    as [[h|e] d'] eqn:Hxor.
  - vm_compute in Hxor. discriminate Hxor.
  - destruct (BlockHandleTuple_xor_failures sampleChecksum sampleSizeString
                (validateBySpec sampleChecksum) _ _ _ _ _ _ _ _ Hxor)
      as [(-> & _)|[Hload|[(-> & _)|(reason & -> & _)]]].
    + vm_compute in Hxor. discriminate Hxor.
    + exact Hload.
    + vm_compute in Hxor. discriminate Hxor.
    + vm_compute in Hxor. discriminate Hxor.
Defined.

(** [blockIdsBuffer_slices]: three handles with identifiers of two bytes. *)
Lemma blockIdsBuffer_slices_witness :
  let heap : Heap :=
    fun _ => [get sampleSizeString sampleStore [x01; x02];
              get sampleSizeString sampleStore [x03; x04];
              get sampleSizeString sampleStore [x05; x06]] in
  length (blockIdsBuffer {| _handles := 0 |} heap) = 3 * 2 /\
  take 2 (drop (1 * 2) (blockIdsBuffer {| _handles := 0 |} heap)) = [x03; x04].
Proof.
  cbv zeta.
  destruct (blockIdsBuffer_slices {| _handles := 0 |}
              (fun _ => [get sampleSizeString sampleStore [x01; x02];
                         get sampleSizeString sampleStore [x03; x04];
                         get sampleSizeString sampleStore [x05; x06]]) 2)
    as [Hlen Hslice].
  - repeat constructor.
  - split; [exact Hlen|]. exact (Hslice 1 _ eq_refl).
Defined.

(** [quorumSeal_record] for three members and a threshold of two. *)
Lemma quorumSeal_record_witness :
  let M := [sampleMember 1 "a1" [x01] false; sampleMember 2 "b2" [x02] false;
            sampleMember 3 "c3" [x03] false] in
  match
    quorumSeal (list byte) plainSymmetricEncryptJson plainEncrypt copyShare
      (sampleMember 1 "a1" [x01] true) [x68; x65; x6c; x6c; x6f] M (Some 2%Z) sampleRandom
  with
  | (Ok record, _) =>
      QuorumDataRecord.memberIds record = ["a1"; "b2"; "c3"]%string /\
      QuorumDataRecord.sharesRequired record = 2%Z /\
      QuorumDataRecord.encryptedData record = [x68; x65; x6c; x6c; x6f]
  | (Throw _, _) => False
  end.
Proof.
  cbv zeta.
  destruct (quorumSeal (list byte) plainSymmetricEncryptJson plainEncrypt copyShare
              (sampleMember 1 "a1" [x01] true) [x68; x65; x6c; x6c; x6f]
              [sampleMember 1 "a1" [x01] false; sampleMember 2 "b2" [x02] false;
               sampleMember 3 "c3" [x03] false] (Some 2%Z) sampleRandom)
    as [[record|e] rng'] eqn:Hseal.
  - destruct (quorumSeal_record (list byte) plainSymmetricEncryptJson plainEncrypt
                copyShare _ _ _ _ _ _ _ Hseal)
      as (_ & Hids & Hrequired & _ & _ & Hdata & _).
    split; [exact Hids|]. split; [exact Hrequired|exact Hdata].
  - vm_compute in Hseal. discriminate Hseal.
Defined.

(** [quorumSeal_same_member_never_unseals]: one member listed three times. *)
Lemma quorumSeal_same_member_never_unseals_witness :
  let M := replicate 3 (sampleMember 1 "a1" [x01] false) in
  match
    quorumSeal (list byte) plainSymmetricEncryptJson plainEncrypt copyShare
      (sampleMember 1 "a1" [x01] true) [x68; x65; x6c; x6c; x6f] M (Some 2%Z) sampleRandom
  with
  | (Ok record, _) =>
      size (QuorumDataRecord.encryptedSharesByMemberId record) = 1 /\
      exists e,
        quorumUnseal (list byte) plainSymmetricDecryptJson plainDecryptWithHeader
          copyCombine record (replicate 3 (sampleMember 1 "a1" [x01] true)) = Throw e
  | (Throw _, _) => False
  end.
Proof.
  cbv zeta.
  destruct (quorumSeal (list byte) plainSymmetricEncryptJson plainEncrypt copyShare
              (sampleMember 1 "a1" [x01] true) [x68; x65; x6c; x6c; x6f]
              (replicate 3 (sampleMember 1 "a1" [x01] false)) (Some 2%Z) sampleRandom)
    as [[record|e] rng'] eqn:Hseal.
  - assert (Hsame : forall m m' : BrightChainMember.t,
              m ∈ replicate 3 (sampleMember 1 "a1" [x01] false) ->
              m' ∈ replicate 3 (sampleMember 1 "a1" [x01] false) ->
              BrightChainMember.asShortHexGuid m = BrightChainMember.asShortHexGuid m').
    { intros m m' Hm Hm'.
      apply elem_of_replicate in Hm as [-> _]. apply elem_of_replicate in Hm' as [-> _].
      reflexivity. }
    destruct (quorumSeal_same_member_never_unseals (list byte)
                plainSymmetricEncryptJson plainSymmetricDecryptJson plainEncrypt
                plainDecryptWithHeader copyShare copyCombine _ _ _ _ _ _ _ Hsame Hseal)
      as [Hsize Hnever].
    split; [exact Hsize|]. apply Hnever.
  - vm_compute in Hseal. discriminate Hseal.
Defined.

(** [from_full_size_data]: a hundred bytes for a block of a hundred, with a
    checksum that is not theirs. *)
Lemma from_full_size_data_witness :
  fst (from sampleChecksum 1000 sampleRandom BlockType.EncryptedOwnedDataBlock
         BlockDataType.EncryptedData 100 (replicate 100 x04) (Some [x00; x00]) None None
         None true true)
  = Throw (ChecksumMismatchError (sampleChecksum (replicate 100 x04)) [x00; x00]).
Proof.
  pose proof (from_full_size_data sampleChecksum 1000 sampleRandom
                BlockType.EncryptedOwnedDataBlock BlockDataType.EncryptedData
                (replicate 100 x04) (Some [x00; x00]) None None None true true) as Hfull.
  cbv zeta in Hfull. destruct Hfull as [_ Hmismatch].
  - unfold lengthsAccepted, eciesOverheadLength. simpl. lia.
  - apply (Hmismatch [x00; x00] eq_refl). vm_compute. discriminate.
Defined.

(** The empty disk is a tree, holds blocks only, and has no directory
    without a block file. *)
Lemma treeShaped_empty : treeShaped (∅ : gmap (list string) Inode).
Proof. intros p entry Hentry. by rewrite lookup_empty in Hentry. Qed.

Lemma onlyBlockPaths_empty (sizeToSizeString : nat -> string) (store : DiskBlockAsyncStore) :
  onlyBlockPaths sizeToSizeString store (∅ : gmap (list string) Inode).
Proof. intros a b c [entry Hentry]. by rewrite lookup_empty in Hentry. Qed.

Lemma everyShardHoldsABlock_empty (sizeToSizeString : nat -> string)
    (store : DiskBlockAsyncStore) :
  everyShardHoldsABlock sizeToSizeString store (∅ : gmap (list string) Inode).
Proof. intros firstDir [entry Hentry]. by rewrite lookup_empty in Hentry. Qed.

Lemma pair_of_fst {A B} (p : A * B) (a : A) : fst p = a -> p = (a, snd p).
Proof. destruct p. simpl. by intros ->. Qed.

(** The sample store after two blocks have been stored into the empty
    disk, one after the other. *)
Lemma sample_two_blocks :
  let d1 := snd (setData sampleSizeString (validateBySpec sampleChecksum2) 1000 sampleStore
                   (sampleBlock2 [x01; x02; x03; x04] 900) (∅ : gmap (list string) Inode)) in
  let d2 := snd (setData sampleSizeString (validateBySpec sampleChecksum2) 2000 sampleStore
                   (sampleBlock2 [x10; x20; x30; x40] 900) d1) in
  treeShaped d2 /\
  onlyBlockPaths sampleSizeString sampleStore d2 /\
  everyShardHoldsABlock sampleSizeString sampleStore d2.
Proof.
  intros d1 d2.
  assert (H1 : setData sampleSizeString (validateBySpec sampleChecksum2) 1000 sampleStore
                 (sampleBlock2 [x01; x02; x03; x04] 900) ∅ = (Ok (), d1))
    by (apply pair_of_fst; vm_compute; reflexivity).
  assert (H2 : setData sampleSizeString (validateBySpec sampleChecksum2) 2000 sampleStore
                 (sampleBlock2 [x10; x20; x30; x40] 900) d1 = (Ok (), d2))
    by (apply pair_of_fst; vm_compute; reflexivity).
  pose proof (setData_treeShaped _ _ _ _ _ _ _ _ H1 treeShaped_empty) as Htree1.
  split; [|split].
  - exact (setData_treeShaped _ _ _ _ _ _ _ _ H2 Htree1).
  - apply (setData_onlyBlockPaths _ _ _ _ _ _ _ _ H2); [simpl; lia|].
    apply (setData_onlyBlockPaths _ _ _ _ _ _ _ _ H1); [simpl; lia|].
    apply onlyBlockPaths_empty.
  - apply (setData_everyShardHoldsABlock _ _ _ _ _ _ _ _ H2 Htree1).
    apply (setData_everyShardHoldsABlock _ _ _ _ _ _ _ _ H1 treeShaped_empty).
    apply everyShardHoldsABlock_empty.
Qed.

(** [getRandomBlocks_results] on the sample store after two blocks have
    been stored: two random blocks, both from block files. *)
Lemma getRandomBlocks_results_witness :
  let d1 := snd (setData sampleSizeString (validateBySpec sampleChecksum2) 1000 sampleStore
                   (sampleBlock2 [x01; x02; x03; x04] 900) (∅ : gmap (list string) Inode)) in
  let d2 := snd (setData sampleSizeString (validateBySpec sampleChecksum2) 2000 sampleStore
                   (sampleBlock2 [x10; x20; x30; x40] 900) d1) in
  match getRandomBlocks sampleSizeString 5 sampleStore 2 d2 sampleMathRandom with
  | Some (Ok result) =>
      Forall (fromBlockFile sampleSizeString sampleStore d2) result /\
      length result <= 2
  | _ => False
  end.
Proof.
  cbv zeta.
  destruct (getRandomBlocks sampleSizeString 5 sampleStore 2 _ sampleMathRandom)
    as [[result|e]|] eqn:Hrun.
  - destruct (getRandomBlocks_results sampleSizeString _ _ _ _ _ _ Hrun)
      as (Hfrom & Hcount & _).
    split; [exact Hfrom|lia].
  - vm_compute in Hrun. discriminate Hrun.
  - vm_compute in Hrun. discriminate Hrun.
Defined.

(** [getRandomBlocks_never_returns] on the disk that holds a metadata
    sidecar and no block. *)
Lemma getRandomBlocks_never_returns_witness :
  getRandomBlocks sampleSizeString 1000 sampleStore 1 sampleSidecarOnly sampleMathRandom
  = None.
Proof.
  generalize sampleMathRandom. generalize 1000.
  assert (Hbase : readdirSync (basePath sampleSizeString sampleStore) sampleSidecarOnly
                  = Ok ["ab"%string]) by (vm_compute; reflexivity).
  apply (getRandomBlocks_never_returns sampleSizeString sampleStore sampleSidecarOnly 1
           ["ab"%string]); [|exact Hbase|discriminate|lia].
  intros firstDir Hfirst.
  apply (readdirSync_Ok_elem _ _ _ _ Hbase) in Hfirst.
  apply list_elem_of_singleton in Hfirst as ->.
  exists ["cd"%string]. split; [vm_compute; reflexivity|]. split; [discriminate|].
  intros secondDir Hsecond. apply list_elem_of_singleton in Hsecond as ->.
  exists ["abcd.m.json"%string]. split; vm_compute; reflexivity.
Defined.

(** [getRandomBlocks_returns] on the sample store after two blocks have
    been stored: asked for five blocks, it returns the two there are. *)
Lemma getRandomBlocks_returns_witness :
  let d1 := snd (setData sampleSizeString (validateBySpec sampleChecksum2) 1000 sampleStore
                   (sampleBlock2 [x01; x02; x03; x04] 900) (∅ : gmap (list string) Inode)) in
  let d2 := snd (setData sampleSizeString (validateBySpec sampleChecksum2) 2000 sampleStore
                   (sampleBlock2 [x10; x20; x30; x40] 900) d1) in
  exists result : list (list byte),
    getRandomBlocks sampleSizeString 2 sampleStore 5 d2 sampleMathRandom = Some (Ok result) /\
    length result = 2.
Proof.
  cbv zeta.
  destruct (getRandomBlocks_returns sampleSizeString sampleStore
              (snd (setData sampleSizeString (validateBySpec sampleChecksum2) 2000 sampleStore
                      (sampleBlock2 [x10; x20; x30; x40] 900)
                      (snd (setData sampleSizeString (validateBySpec sampleChecksum2) 1000
                              sampleStore (sampleBlock2 [x01; x02; x03; x04] 900) ∅))))
              5 ["04"; "40"]%string 2 sampleMathRandom)
    as (result & Hrun & Hlen).
  - apply sample_two_blocks.
  - vm_compute. reflexivity.
  - simpl. lia.
  - exists result. split; [exact Hrun|]. simpl in Hlen. lia.
Defined.

(** [setData_keeps_store_shape]: the first block stored into the empty
    disk. *)
Lemma setData_keeps_store_shape_witness :
  match
    setData sampleSizeString (validateBySpec sampleChecksum2) 1000 sampleStore
      (sampleBlock2 [x01; x02; x03; x04] 900) (∅ : gmap (list string) Inode)
  with
  | (Ok _, d') =>
      treeShaped d' /\
      onlyBlockPaths sampleSizeString sampleStore d' /\
      everyShardHoldsABlock sampleSizeString sampleStore d'
  | (Throw _, _) => False
  end.
Proof.
  destruct (setData sampleSizeString (validateBySpec sampleChecksum2) 1000 sampleStore
              (sampleBlock2 [x01; x02; x03; x04] 900) ∅) as [[u|e] d'] eqn:Hset.
  - destruct (setData_keeps_store_shape sampleSizeString (validateBySpec sampleChecksum2)
                1000 sampleStore (sampleBlock2 [x01; x02; x03; x04] 900) ∅ d' u Hset
                treeShaped_empty) as (Htree & Honly & Hevery).
    + simpl. lia.
    + split; [exact Htree|]. split.
      * apply Honly, onlyBlockPaths_empty.
      * apply Hevery, everyShardHoldsABlock_empty.
  - exfalso.
    match type of Hset with
    | ?run = _ => assert (Hok : isOk (fst run) = true) by (vm_compute; reflexivity)
    end.
    rewrite Hset in Hok. discriminate Hok.
Defined.

(** [getRandomBlocks_returns_stored_keys] on the sample store after two
    blocks have been stored. *)
Lemma getRandomBlocks_returns_stored_keys_witness :
  let d1 := snd (setData sampleSizeString (validateBySpec sampleChecksum2) 1000 sampleStore
                   (sampleBlock2 [x01; x02; x03; x04] 900) (∅ : gmap (list string) Inode)) in
  let d2 := snd (setData sampleSizeString (validateBySpec sampleChecksum2) 2000 sampleStore
                   (sampleBlock2 [x10; x20; x30; x40] 900) d1) in
  match getRandomBlocks sampleSizeString 5 sampleStore 2 d2 sampleMathRandom with
  | Some (Ok result) =>
      Forall (fun checksum => has sampleSizeString sampleStore checksum d2 = true) result
  | _ => False
  end.
Proof.
  cbv zeta.
  destruct (getRandomBlocks sampleSizeString 5 sampleStore 2 _ sampleMathRandom)
    as [[result|e]|] eqn:Hrun.
  - apply (getRandomBlocks_returns_stored_keys sampleSizeString _ _ _ _ _ _) with (2 := Hrun).
    apply sample_two_blocks.
  - vm_compute in Hrun. discriminate Hrun.
  - vm_compute in Hrun. discriminate Hrun.
Defined.

(** [getRandomBlocks_distinct] on the sample store after two blocks have
    been stored. *)
Lemma getRandomBlocks_distinct_witness :
  let d1 := snd (setData sampleSizeString (validateBySpec sampleChecksum2) 1000 sampleStore
                   (sampleBlock2 [x01; x02; x03; x04] 900) (∅ : gmap (list string) Inode)) in
  let d2 := snd (setData sampleSizeString (validateBySpec sampleChecksum2) 2000 sampleStore
                   (sampleBlock2 [x10; x20; x30; x40] 900) d1) in
  match getRandomBlocks sampleSizeString 5 sampleStore 2 d2 sampleMathRandom with
  | Some (Ok result) => NoDup result
  | _ => False
  end.
Proof.
  cbv zeta.
  destruct (getRandomBlocks sampleSizeString 5 sampleStore 2 _ sampleMathRandom)
    as [[result|e]|] eqn:Hrun.
  - apply (getRandomBlocks_distinct sampleSizeString _ _ _ _ _ _) with (2 := Hrun).
    apply sample_two_blocks.
  - vm_compute in Hrun. discriminate Hrun.
  - vm_compute in Hrun. discriminate Hrun.
Defined.

(** [getRandomBlocks_asked_for_too_many]: a block is stored next to the
    directory that holds a metadata sidecar only, and two blocks are asked
    for. *)
Lemma getRandomBlocks_asked_for_too_many_witness :
  let d := snd (setData sampleSizeString (validateBySpec sampleChecksum2) 1000 sampleStore
                  (sampleBlock2 [x01; x02; x03; x04] 900) sampleSidecarOnly) in
  has sampleSizeString sampleStore [x04; x01] d = true /\
  match getRandomBlocks sampleSizeString 100 sampleStore 2 d sampleMathRandom with
  | Some (Ok _) => False
  | _ => True
  end.
Proof.
  cbv zeta. split; [vm_compute; reflexivity|].
  destruct (getRandomBlocks sampleSizeString 100 sampleStore 2 _ sampleMathRandom)
    as [[result|e]|] eqn:Hrun; [|exact I|exact I].
  revert Hrun.
  apply (getRandomBlocks_asked_for_too_many sampleSizeString sampleStore _ 2
           ["ab"; "04"]%string "ab"%string).
  - vm_compute. reflexivity.
  - left.
  - exists ["cd"%string]. split; [vm_compute; reflexivity|]. split; [discriminate|].
    intros secondDir Hsecond. apply list_elem_of_singleton in Hsecond as ->.
    exists ["abcd.m.json"%string]. split; vm_compute; reflexivity.
  - simpl. lia.
Defined.

(** Two members whose identifiers hold the same text are two objects:
    [find] gives each its own place, so each share is encrypted with the
    key of its own member, and the second entry replaces the first.  The
    envelope here puts the public key in front of the message. *)
Example encryptSharesForMembers_own_key :
  match
    fst (encryptSharesForMembers
           (fun publicKey message rng => (Ok (publicKey ++ message), rng))
           ["aa"; "bb"]%string
           [sampleMember 1 "a1" [x01] false; sampleMember 2 "a1" [x02] false]
           sampleRandom)
  with
  | Ok encryptedSharesByMemberId =>
      encryptedSharesByMemberId !! "a1"%string = Some [x02; xbb] /\
      size encryptedSharesByMemberId = 1
  | Throw _ => False
  end.
Proof. vm_compute. split; reflexivity. Qed.

